(** * aws-site-manager: the sync engine of [sync.go]

    A shallow embedding of [sync.go] (package main): the lookup tables
    [contentTypeMap] and [compressBlacklist], [Hashfile],
    [UploadFileHandler], [GetAllFiles], [InvalidCloudFront] and [Sync],
    together with models of the Go library functions they call
    ([strings], [path/filepath], [crypto/md5], [net/url]).

    Effects are explicit: every operation is a function from a [world]
    (file system, remote store, output, channels) to an [outcome] and a new
    [world].  The services the program talks to (gzip, MIME sniffing, the
    object store, the distribution service) and the helpers of the package
    that live outside [sync.go] are fields of an environment record. *)

From Stdlib Require Import ZArith List String Ascii Bool Lia.
From Stdlib.Strings Require Import Byte.
From stdpp Require Import base option gmap strings list fin_maps.
Import ListNotations.

Local Open Scope string_scope.
Local Open Scope Z_scope.

(** Go strings are byte sequences; file contents are [[]byte]. *)
Abbreviation bytes := (list byte).

(* ===================================================================== *)
(** ** package strings *)
(* ===================================================================== *)

Module Strings.

Definition chars (s : string) : list ascii := list_ascii_of_string s.
Definition of_chars (l : list ascii) : string := string_of_list_ascii l.

Definition is_upper (c : ascii) : bool :=
  let n := N_of_ascii c in ((65 <=? n) && (n <=? 90))%N.

(** [unicode.ToLower] on a single byte: only the ASCII letters move; bytes
    above 0x7f (parts of multi-byte runes) are kept as they are. *)
Definition lower_char (c : ascii) : ascii :=
  if is_upper c then ascii_of_N (N_of_ascii c + 32) else c.

(** [strings.ToLower] *)
Definition ToLower (s : string) : string :=
  of_chars (map lower_char (chars s)).

(** [strings.HasPrefix] *)
Definition HasPrefix (s prefix : string) : bool := String.prefix prefix s.

(** [strings.TrimPrefix]: [s] without the leading [prefix], or [s] itself
    when it does not start with [prefix]. *)
Definition TrimPrefix (s prefix : string) : string :=
  if HasPrefix s prefix
  then String.substring (String.length prefix)
                        (String.length s - String.length prefix) s
  else s.

(** Whether [s[0]] is [c], for a string that is not empty. *)
Definition starts_with (c : ascii) (s : string) : bool :=
  match s with
  | String d _ => Ascii.eqb c d
  | EmptyString => false
  end.

End Strings.

(* ===================================================================== *)
(** ** crypto/md5 and the [%x] verb *)
(* ===================================================================== *)

Module MD5.

Definition mask32 : Z := 0xFFFFFFFF.
Definition w32 (x : Z) : Z := Z.land x mask32.
Definition not32 (x : Z) : Z := Z.lxor (w32 x) mask32.
Definition rotl32 (x c : Z) : Z :=
  w32 (Z.lor (Z.shiftl (w32 x) c) (Z.shiftr (w32 x) (32 - c))).

Definition shifts : list Z :=
  [ 7; 12; 17; 22; 7; 12; 17; 22; 7; 12; 17; 22; 7; 12; 17; 22;
    5; 9; 14; 20; 5; 9; 14; 20; 5; 9; 14; 20; 5; 9; 14; 20;
    4; 11; 16; 23; 4; 11; 16; 23; 4; 11; 16; 23; 4; 11; 16; 23;
    6; 10; 15; 21; 6; 10; 15; 21; 6; 10; 15; 21; 6; 10; 15; 21 ].

Definition table : list Z :=
  [ 0xd76aa478; 0xe8c7b756; 0x242070db; 0xc1bdceee;
    0xf57c0faf; 0x4787c62a; 0xa8304613; 0xfd469501;
    0x698098d8; 0x8b44f7af; 0xffff5bb1; 0x895cd7be;
    0x6b901122; 0xfd987193; 0xa679438e; 0x49b40821;
    0xf61e2562; 0xc040b340; 0x265e5a51; 0xe9b6c7aa;
    0xd62f105d; 0x02441453; 0xd8a1e681; 0xe7d3fbc8;
    0x21e1cde6; 0xc33707d6; 0xf4d50d87; 0x455a14ed;
    0xa9e3e905; 0xfcefa3f8; 0x676f02d9; 0x8d2a4c8a;
    0xfffa3942; 0x8771f681; 0x6d9d6122; 0xfde5380c;
    0xa4beea44; 0x4bdecfa9; 0xf6bb4b60; 0xbebfbc70;
    0x289b7ec6; 0xeaa127fa; 0xd4ef3085; 0x04881d05;
    0xd9d4d039; 0xe6db99e5; 0x1fa27cf8; 0xc4ac5665;
    0xf4292244; 0x432aff97; 0xab9423a7; 0xfc93a039;
    0x655b59c3; 0x8f0ccc92; 0xffeff47d; 0x85845dd1;
    0x6fa87e4f; 0xfe2ce6e0; 0xa3014314; 0x4e0811a1;
    0xf7537e82; 0xbd3af235; 0x2ad7d2bb; 0xeb86d391 ].

Definition zbyte (b : byte) : Z := Z.of_N (Byte.to_N b).

(** Little-endian encoding of [x] on [n] bytes. *)
Fixpoint le_bytes (n : nat) (x : Z) : list Z :=
  match n with
  | O => []
  | S n' => Z.land x 255 :: le_bytes n' (Z.shiftr x 8)
  end.

Fixpoint le_word (l : list Z) : Z :=
  match l with
  | [] => 0
  | b :: l' => Z.lor b (Z.shiftl (le_word l') 8)
  end.

(** The message followed by 0x80, zeros up to 56 modulo 64, and the bit
    length on 8 bytes. *)
Definition pad (msg : list Z) : list Z :=
  let len := Z.of_nat (List.length msg) in
  let zeros := Z.to_nat ((55 - len) mod 64) in
  msg ++ [128] ++ repeat 0 zeros ++ le_bytes 8 (Z.land (8 * len) 0xFFFFFFFFFFFFFFFF).

Fixpoint words (n : nat) (l : list Z) : list Z :=
  match n with
  | O => []
  | S n' => le_word (firstn 4 l) :: words n' (skipn 4 l)
  end.

Record digest := { dA : Z; dB : Z; dC : Z; dD : Z }.

Definition init : digest :=
  {| dA := 0x67452301; dB := 0xefcdab89; dC := 0x98badcfe; dD := 0x10325476 |}.

Definition round (M : list Z) (st : digest) (i : nat) : digest :=
  let '(Build_digest a b c d) := st in
  let iz := Z.of_nat i in
  let '(f, g) :=
    if iz <? 16 then (Z.lor (Z.land b c) (Z.land (not32 b) d), iz)
    else if iz <? 32 then (Z.lor (Z.land d b) (Z.land (not32 d) c), (5 * iz + 1) mod 16)
    else if iz <? 48 then (Z.lxor (Z.lxor b c) d, (3 * iz + 5) mod 16)
    else (Z.lxor c (Z.lor b (not32 d)), (7 * iz) mod 16) in
  let f' := w32 (f + a + nth i table 0 + nth (Z.to_nat g) M 0) in
  {| dA := d; dB := w32 (b + rotl32 f' (nth i shifts 0)); dC := b; dD := c |}.

Definition block (st : digest) (blk : list Z) : digest :=
  let M := words 16 blk in
  let r := fold_left (round M) (seq 0 64) st in
  {| dA := w32 (dA st + dA r); dB := w32 (dB st + dB r);
     dC := w32 (dC st + dC r); dD := w32 (dD st + dD r) |}.

Definition blocks (l : list Z) : list (list Z) :=
  map (fun i => firstn 64 (skipn (64 * i) l)) (seq 0 (List.length l / 64)).

(** [md5.Sum]: the 16 bytes of the digest. *)
Definition sum (msg : bytes) : list Z :=
  let st := fold_left block (blocks (pad (map zbyte msg))) init in
  le_bytes 4 (dA st) ++ le_bytes 4 (dB st) ++ le_bytes 4 (dC st) ++ le_bytes 4 (dD st).

Definition hex_digit (n : Z) : ascii :=
  if n <? 10 then ascii_of_N (Z.to_N (48 + n)) else ascii_of_N (Z.to_N (87 + n)).

(** [fmt.Sprintf("%x", b)]: two lower-case hexadecimal digits per byte. *)
Fixpoint hex (l : list Z) : string :=
  match l with
  | [] => EmptyString
  | b :: l' => String (hex_digit (Z.shiftr b 4)) (String (hex_digit (Z.land b 15)) (hex l'))
  end.

Definition hexsum (msg : bytes) : string := hex (sum msg).

End MD5.

(* ===================================================================== *)
(** ** package path/filepath (Unix) *)
(* ===================================================================== *)

Module Filepath.
Import Strings.

Definition slash : ascii := "/"%char.
Definition dot : ascii := "."%char.

(** [filepath.Ext]: the loop runs from the last byte towards the first and
    stops at a separator; at a dot it returns [path[i:]], dot included.
    [rpath] is the part of the path not yet visited, last byte first, and
    [acc] is [path[i+1:]]. *)
Fixpoint ext_scan (rpath acc : list ascii) : list ascii :=
  match rpath with
  | [] => []
  | c :: rpath' =>
      if Ascii.eqb c slash then []
      else if Ascii.eqb c dot then c :: acc
      else ext_scan rpath' (c :: acc)
  end.

Definition Ext (path : string) : string :=
  of_chars (ext_scan (rev (chars path)) []).

Fixpoint drop_slashes (l : list ascii) : list ascii :=
  match l with
  | c :: l' => if Ascii.eqb c slash then drop_slashes l' else l
  | [] => []
  end.

Fixpoint take_element (l : list ascii) : list ascii :=
  match l with
  | c :: l' => if Ascii.eqb c slash then [] else c :: take_element l'
  | [] => []
  end.

(** [filepath.Base]: the last element of the path, trailing separators
    removed first; "." for the empty path and "/" for a path of
    separators only. *)
Definition Base (path : string) : string :=
  match path with
  | EmptyString => "."
  | _ =>
      match rev (take_element (drop_slashes (rev (chars path)))) with
      | [] => "/"
      | e => of_chars e
      end
  end.

(** The elements of a path between its separators. *)
Fixpoint split (l : list ascii) : list (list ascii) :=
  match l with
  | [] => [[]]
  | c :: l' =>
      if Ascii.eqb c slash then [] :: split l'
      else match split l' with
           | h :: t => (c :: h) :: t
           | [] => [[c]]
           end
  end.

Definition is_dot (e : list ascii) : bool :=
  match e with [c] => Ascii.eqb c dot | _ => false end.

Definition is_dotdot (e : list ascii) : bool :=
  match e with [c; d] => Ascii.eqb c dot && Ascii.eqb d dot | _ => false end.

(** One turn of the loop of [filepath.Clean], read element by element: the
    output buffer is the stack of elements written so far, the last one
    first.  An empty element and "." write nothing; ".." removes the last
    element when there is one that is not itself ".." ([out.w > dotdot]),
    is dropped at the root, and is written otherwise; any other element is
    written. *)
Definition clean_step (rooted : bool) (out : list (list ascii)) (e : list ascii)
  : list (list ascii) :=
  match e with
  | [] => out
  | _ =>
      if is_dot e then out
      else if is_dotdot e then
        match out with
        | top :: out' => if is_dotdot top then e :: out else out'
        | [] => if rooted then out else [e]
        end
      else e :: out
  end.

Fixpoint join_elements (l : list (list ascii)) : list ascii :=
  match l with
  | [] => []
  | [e] => e
  | e :: l' => e ++ slash :: join_elements l'
  end.

(** [filepath.Clean] *)
Definition Clean (path : string) : string :=
  match path with
  | EmptyString => "."
  | String c _ =>
      let rooted := Ascii.eqb c slash in
      let out := rev (fold_left (clean_step rooted) (split (chars path)) []) in
      if rooted then String slash (of_chars (join_elements out))
      else match out with
           | [] => "."
           | _ => of_chars (join_elements out)
           end
  end.

(** [filepath.Join] of two elements: empty elements are ignored, the rest
    is joined with a separator and cleaned. *)
Definition Join (a b : string) : string :=
  match a, b with
  | EmptyString, EmptyString => EmptyString
  | EmptyString, _ => Clean b
  | _, _ => Clean (a ++ String slash b)
  end.

End Filepath.

(* ===================================================================== *)
(** ** The directory tree and [filepath.Walk] *)
(* ===================================================================== *)

(** What [os.Lstat] reports of an entry and the program reads of it. *)
Record osFileInfo := { IsDir : bool; Size : Z }.

(** The tree found at the root of the walk: a file with its size, or a
    directory with its entries in the order [readDirNames] returns them
    (sorted by name). *)
#[warnings="-register-all"]
Inductive node :=
| File (size : Z)
| Dir (entries : list (string * node)).

Definition info_of (n : node) : osFileInfo :=
  match n with
  | File sz => {| IsDir := false; Size := sz |}
  | Dir _ => {| IsDir := true; Size := 0 |}
  end.

(** The two values a [WalkFunc] of [sync.go] returns. *)
Inductive walkErr := WalkNil | SkipDir.

Module Walker.
Import Filepath.

Section Walk.
Context {S : Type} (walkFn : string -> osFileInfo -> S -> walkErr * S).

(** [filepath.walk]: the function is called on the entry; for a
    directory that it does not skip, every entry is walked under the
    joined path.  [SkipDir] from a directory skips that directory only;
    from a file it ends the walk of the directory that holds it. *)
Fixpoint walk (path : string) (n : node) (s : S) {struct n} : walkErr * S :=
  match n with
  | File _ => walkFn path (info_of n) s
  | Dir entries =>
      let '(err1, s1) := walkFn path (info_of n) s in
      match err1 with
      | SkipDir => (SkipDir, s1)
      | WalkNil =>
          (fix loop (es : list (string * node)) (s : S) {struct es} : walkErr * S :=
             match es with
             | [] => (WalkNil, s)
             | (name, child) :: es' =>
                 let '(err, s') := walk (Join path name) child s in
                 match err with
                 | WalkNil => loop es' s'
                 | SkipDir =>
                     if IsDir (info_of child) then loop es' s' else (SkipDir, s')
                 end
             end) entries s1
      end
  end.

(** The loop of [filepath.walk] over the entries of a directory, by name. *)
Fixpoint walk_entries (path : string) (es : list (string * node)) (s : S)
    {struct es} : walkErr * S :=
  match es with
  | [] => (WalkNil, s)
  | (name, child) :: es' =>
      let '(err, s') := walk (Join path name) child s in
      match err with
      | WalkNil => walk_entries path es' s'
      | SkipDir =>
          if IsDir (info_of child) then walk_entries path es' s' else (SkipDir, s')
      end
  end.

(** [filepath.Walk]: a [SkipDir] that reaches the top is not an error. *)
Definition Walk (root : string) (tree : node) (s : S) : S :=
  snd (walk root tree s).
End Walk.

End Walker.

(* ===================================================================== *)
(** ** package net/url: [ParseRequestURI] and [String] *)
(* ===================================================================== *)

Module URL.
Import Strings.

(** The fields [parse] sets for a raw URL without scheme and authority;
    [Scheme], [Opaque], [User], [Host] and [Fragment] stay empty. *)
Record URL := {
  Path : string;
  RawPath : string;
  ForceQuery : bool;
  RawQuery : string
}.

Definition code (c : ascii) : N := N_of_ascii c.

Definition is_ctl (c : ascii) : bool := ((code c <? 32) || (code c =? 127))%N.

Definition stringContainsCTLByte (s : string) : bool := existsb is_ctl (chars s).

Definition is_alnum (c : ascii) : bool :=
  let n := code c in
  (((97 <=? n) && (n <=? 122)) || ((65 <=? n) && (n <=? 90)) || ((48 <=? n) && (n <=? 57)))%N.

Definition ishex (c : ascii) : bool :=
  let n := code c in
  (((48 <=? n) && (n <=? 57)) || ((97 <=? n) && (n <=? 102)) || ((65 <=? n) && (n <=? 70)))%N.

Definition unhex (c : ascii) : N :=
  let n := code c in
  (if (48 <=? n) && (n <=? 57) then n - 48
   else if (97 <=? n) && (n <=? 102) then n - 97 + 10
   else if (65 <=? n) && (n <=? 70) then n - 65 + 10
   else 0)%N.

Definition one_of (c : ascii) (s : string) : bool := existsb (Ascii.eqb c) (chars s).

(** [shouldEscape(c, encodePath)]: letters, digits and [-_.~] are never
    escaped; of the reserved characters the path mode escapes [?] only;
    everything else is escaped. *)
Definition shouldEscape (c : ascii) : bool :=
  if is_alnum c then false
  else if one_of c "-_.~" then false
  else if one_of c "$&+,/:;=?@" then Ascii.eqb c "?"%char
  else true.

(** [unescape(s, encodePath)]: [None] is the [EscapeError] for a percent
    sign that two hexadecimal digits do not follow. *)
Fixpoint unescape (l : list ascii) : option (list ascii) :=
  match l with
  | [] => Some []
  | c :: t =>
      if Ascii.eqb c "%"%char then
        match t with
        | h1 :: h2 :: t' =>
            if ishex h1 && ishex h2
            then match unescape t' with
                 | Some r => Some (ascii_of_N (16 * unhex h1 + unhex h2) :: r)
                 | None => None
                 end
            else None
        | _ => None
        end
      else match unescape t with
           | Some r => Some (c :: r)
           | None => None
           end
  end.

Definition upperhex (n : N) : ascii :=
  (if n <? 10 then ascii_of_N (48 + n) else ascii_of_N (55 + n))%N.

(** [escape(s, encodePath)] *)
Fixpoint escape (l : list ascii) : list ascii :=
  match l with
  | [] => []
  | c :: t =>
      if shouldEscape c
      then "%"%char :: upperhex (code c / 16) :: upperhex (code c mod 16) :: escape t
      else c :: escape t
  end.

(** [validEncoded(s, encodePath)] *)
Definition validEncoded (l : list ascii) : bool :=
  forallb (fun c => one_of c "!$&'()*+,;=:@[]%" || negb (shouldEscape c)) l.

(** [strings.Cut(s, "?")] *)
Fixpoint cut_query (l : list ascii) : list ascii * list ascii :=
  match l with
  | [] => ([], [])
  | c :: t =>
      if Ascii.eqb c "?"%char then ([], t)
      else let '(a, b) := cut_query t in (c :: a, b)
  end.

Definition count_query (l : list ascii) : nat :=
  List.length (filter (fun c => Ascii.eqb c "?"%char) l).

Definition ends_with_query (l : list ascii) : bool :=
  match rev l with
  | c :: _ => Ascii.eqb c "?"%char
  | [] => false
  end.

(** [setPath] *)
Definition setPath (u : URL) (p : list ascii) : option URL :=
  match unescape p with
  | None => None
  | Some path =>
      Some {| Path := of_chars path;
              RawPath := if String.eqb (of_chars p) (of_chars (escape path))
                         then EmptyString else of_chars p;
              ForceQuery := ForceQuery u;
              RawQuery := RawQuery u |}
  end.

(** [url.ParseRequestURI] for a raw URL that starts with ["/"], the only
    form [sync.go] builds: no control byte may occur, [getScheme] finds no
    scheme (the first byte is not a letter), the part after the first [?]
    is the raw query (a single trailing [?] only forces the query), no
    authority is read (a request URI without scheme has none) and
    [setPath] unescapes the rest.  [None] is the error result, whose
    [*URL] is nil.  A raw URL that does not start with ["/"] and has no
    scheme is an error in the library too ("invalid URI for request",
    "empty url"); one with a scheme, or ["*"], is outside this model. *)
Definition ParseRequestURI (rawURL : string) : option URL :=
  if stringContainsCTLByte rawURL then None
  else match rawURL with
       | String "/"%char _ =>
           let raw := chars rawURL in
           let '(rest, force, query) :=
             if ends_with_query raw && Nat.eqb (count_query raw) 1
             then (removelast raw, true, [])
             else let '(a, b) := cut_query raw in (a, false, b) in
           setPath {| Path := EmptyString; RawPath := EmptyString;
                      ForceQuery := force; RawQuery := of_chars query |} rest
       | _ => None
       end.

(** [EscapedPath] *)
Definition EscapedPath (u : URL) : string :=
  let raw := chars (RawPath u) in
  if negb (String.eqb (RawPath u) EmptyString) && validEncoded raw
     && match unescape raw with
        | Some p => String.eqb (of_chars p) (Path u)
        | None => false
        end
  then RawPath u
  else if String.eqb (Path u) "*" then "*"
  else of_chars (escape (chars (Path u))).

(** The first segment of a path: what is before its first separator. *)
Fixpoint first_segment (l : list ascii) : list ascii :=
  match l with
  | [] => []
  | c :: t => if Ascii.eqb c "/"%char then [] else c :: first_segment t
  end.

(** [String] of a URL with no scheme, opaque part, user or host:
    the escaped path, after ["./"] when its first segment holds a colon,
    followed by [?] and the raw query when there is one. *)
Definition String_ (u : URL) : string :=
  let path := EscapedPath u in
  let head := if one_of ":"%char (of_chars (first_segment (chars path))) then "./" else EmptyString in
  let query := if ForceQuery u || negb (String.eqb (RawQuery u) EmptyString)
               then String "?"%char (RawQuery u) else EmptyString in
  head ++ path ++ query.

End URL.

(* ===================================================================== *)
(** ** [sync.go]: data *)
(* ===================================================================== *)

Import Strings.

Definition contentTypeMap : gmap string string :=
  list_to_map
    [ ("css", "text/css"); ("html", "text/html"); ("htm", "text/html");
      ("ico", "image/x-ico"); ("js", "text/javascript"); ("jpg", "image/jpeg");
      ("gif", "image/gif"); ("png", "image/png"); ("xml", "application/xml");
      ("svg", "image/svg+xml"); ("jpeg", "image/jpeg") ].

Definition compressBlacklist : gmap string bool :=
  list_to_map
    [ ("gif", true); ("jpg", true); ("png", true); ("jpeg", true);
      ("psd", true); ("ai", true) ].

Record FileInfo := {
  path : string;
  key : string;
  fileInfo : osFileInfo
}.

(** The error values the program tells apart: [nil] is [None]. *)
Inductive error := ErrOpen | ErrInvalid | EOF | ErrAws.

(** [s3manager.UploadInput]; [Body] is [None] when [os.Open] gave no file. *)
Record UploadInput := {
  Bucket : string;
  Key : string;
  Body : option bytes;
  CacheControl : string;
  ContentEncoding : string;
  ContentType : string;
  ACL : string
}.

(** [cloudfront.DistributionSummary]: its id and its aliases. *)
Record Distribution := { Id : string; Aliases : list string }.

(** [cloudfront.CreateInvalidationInput] with its batch and paths. *)
Record CreateInvalidationInput := {
  DistributionId : string;
  CallerReference : string;
  Quantity : Z;
  Items : list string
}.

(** What the program does to the outside, in order. *)
Inductive event :=
| EvPrintln (line : string)
| EvListObjects (bucket : string)
| EvUpload (input : UploadInput)
| EvListDistributions
| EvCreateInvalidation (input : CreateInvalidationInput).

(** The services and the helpers of package main that [sync.go] calls and
    does not define, and what the scheduler decides.  [CheckErr] and
    [DisplayAwsErr] are called with nil errors on the success paths, so they
    do nothing for nil; for a non-nil error each either returns or ends the
    process.  When the listing of the bucket fails, the callback has been
    run on the pages fetched before the request that failed:
    [fetched_before_failure] tells the keys of those pages.  The goroutine
    that appends to [updatedKeys] is not waited for: of the keys sent,
    [appended_at_wait] is the number it has appended when
    [InvalidCloudFront] reads the slice. *)
Record env := {
  gzip : bytes -> bytes;
  DetectContentType : bytes -> string;
  TempName : nat -> string;
  CheckErr_exits : error -> bool;
  DisplayAwsErr_exits : error -> bool;
  GetCallerReference : string;
  list_objects_fails : bool;
  fetched_before_failure : string -> bool;
  upload_fails : UploadInput -> bool;
  appended_at_wait : list string -> nat;
  distributions : option (list Distribution);
  create_invalidation_fails : bool
}.

(** The state the program reads and changes.  [fs] holds the files that can
    be opened, with their content; [remote] is the bucket, each key with the
    entity tag of its object; [doneChan] holds what the workers have sent. *)
Record world := {
  fs : gmap string bytes;
  ntemp : nat;
  remote : gmap string string;
  trace : list event;
  doneChan : list string
}.

(** How a computation ends: with a value, with the process ended by a
    helper, or with a run-time panic of the program itself. *)
Inductive outcome (A : Type) :=
| Ret (a : A)
| Exit
| Panic.
Arguments Ret {A} a.
Arguments Exit {A}.
Arguments Panic {A}.

(** Computations: the world is kept in every case, so that what was done
    before the end can be read from it. *)
Definition M (A : Type) : Type := world -> outcome A * world.

Definition ret {A} (a : A) : M A := fun w => (Ret a, w).

Definition bind {A B} (m : M A) (k : A -> M B) : M B :=
  fun w =>
    match m w with
    | (Ret a, w') => k a w'
    | (Exit, w') => (Exit, w')
    | (Panic, w') => (Panic, w')
    end.

Notation "'let*' x ':=' m 'in' k" := (bind m (fun x => k))
  (at level 10, x name, m at level 100, k at level 200).
Notation "'let*' ' pat ':=' m 'in' k" := (bind m (fun x => match x with pat => k end))
  (at level 10, pat pattern, m at level 100, k at level 200).
Notation "m ';;' k" := (bind m (fun _ => k))
  (at level 100, k at level 200, right associativity).

Definition exit {A} : M A := fun w => (Exit, w).
Definition panic {A} : M A := fun w => (Panic, w).

Definition emit (e : event) : M unit :=
  fun w => (Ret tt, {| fs := fs w; ntemp := ntemp w; remote := remote w;
                       trace := trace w ++ [e]; doneChan := doneChan w |}).

Fixpoint forM_ {A} (f : A -> M unit) (l : list A) : M unit :=
  match l with
  | [] => ret tt
  | x :: l' => f x ;; forM_ f l'
  end.

Definition quote : ascii := "034"%char.

(** The entity tag as the listing shows it, between quotes. *)
Definition quoted (etag : string) : string :=
  String quote (etag ++ String quote EmptyString).

(* ===================================================================== *)
(** ** [sync.go]: operations *)
(* ===================================================================== *)

Section Engine.
Variable E : env.

Definition Println (line : string) : M unit := emit (EvPrintln line).

Definition CheckErr (err : option error) : M unit :=
  match err with
  | None => ret tt
  | Some e => if CheckErr_exits E e then exit else ret tt
  end.

Definition DisplayAwsErr (err : option error) : M unit :=
  match err with
  | None => ret tt
  | Some e => if DisplayAwsErr_exits E e then exit else ret tt
  end.

(** [os.Open]: the content of the file, or [None] with a non-nil error. *)
Definition os_Open (name : string) : M (option bytes) :=
  fun w => (Ret (fs w !! name), w).

Definition open_err (f : option bytes) : option error :=
  match f with
  | Some _ => None
  | None => Some ErrOpen
  end.

(** [ioutil.TempFile], when it succeeds: a new, empty file is created under
    the next name. *)
Definition ioutil_TempFile : M string :=
  fun w =>
    let name := TempName E (ntemp w) in
    (Ret name, {| fs := <[name := []]> (fs w); ntemp := S (ntemp w);
                  remote := remote w; trace := trace w; doneChan := doneChan w |}).

Definition write_file (name : string) (content : bytes) : M unit :=
  fun w => (Ret tt, {| fs := <[name := content]> (fs w); ntemp := ntemp w;
                       remote := remote w; trace := trace w; doneChan := doneChan w |}).

(** [f.Read(byte512)] into a fresh buffer of 512 zero bytes: a nil file
    gives [ErrInvalid], an empty one [io.EOF]. *)
Definition read512 (f : option bytes) : bytes * option error :=
  match f with
  | None => (repeat x00 512, Some ErrInvalid)
  | Some [] => (repeat x00 512, Some EOF)
  | Some content =>
      let got := firstn 512 content in
      ((got ++ repeat x00 (512 - List.length got))%list, None)
  end.

(** [uploader.Upload]: on success the bucket holds the object.  The store
    is taken to keep as entity tag the MD5 of the body in hexadecimal, as
    S3 does for an object uploaded in one part; what is stated of the
    entity tags after an upload holds under this assumption. *)
Definition uploader_Upload (input : UploadInput) : M (option error) :=
  fun w =>
    let w' := {| fs := fs w; ntemp := ntemp w; remote := remote w;
                 trace := trace w ++ [EvUpload input]; doneChan := doneChan w |} in
    if upload_fails E input then (Ret (Some ErrAws), w')
    else (Ret None,
          {| fs := fs w'; ntemp := ntemp w';
             remote := <[Key input := MD5.hexsum (default [] (Body input))]> (remote w');
             trace := trace w'; doneChan := doneChan w' |}).

Definition send_done (k : string) : M unit :=
  fun w => (Ret tt, {| fs := fs w; ntemp := ntemp w; remote := remote w;
                       trace := trace w; doneChan := doneChan w ++ [k] |}).

Definition Hashfile (filename : string) : M (string * option error) :=
  let* file := os_Open filename in
  (match open_err file with
   | Some err => CheckErr (Some err)
   | None => ret tt
   end) ;;
  (* io.Copy from a nil file copies nothing, and its error is dropped *)
  let hashVal := MD5.hexsum (default [] file) in
  ret (hashVal, None).

(** The test of the compression branch. *)
Definition compresses (file : FileInfo) : bool :=
  let suffix := ToLower (Filepath.Ext (path file)) in
  negb (default false (compressBlacklist !! suffix)) && (500 <? Size (fileInfo file)).

(** The loop body of [UploadFileHandler], first part: the file is
    compressed into a temporary file when [compresses] says so.  The
    result is [uploadPath] and [contentEncoding]. *)
Definition compress_stage (file : FileInfo) : M (string * string) :=
  if compresses file
  then
    Println ("Compressing: " ++ path file) ;;
    let* compressedFile := ioutil_TempFile in
    let* fileInput := os_Open (path file) in
    (match open_err fileInput with
     | Some err => CheckErr (Some err)
     | None => ret tt
     end) ;;
    write_file compressedFile (gzip E (default [] fileInput)) ;;
    ret (compressedFile, "gzip")
  else ret (path file, EmptyString).

(** Second part: [contentType], from the table or from the first 512
    bytes of the file. *)
Definition classify_stage (file : FileInfo) : M string :=
  let suffix := ToLower (Filepath.Ext (path file)) in
  match contentTypeMap !! suffix with
  | Some contentType => ret contentType
  | None =>
      let* f := os_Open (path file) in
      CheckErr (open_err f) ;;
      let '(byte512, err) := read512 f in
      (match err with
       | Some EOF => ret tt
       | _ => CheckErr err
       end) ;;
      let contentType := DetectContentType E byte512 in
      Println ("Detected MIME: " ++ contentType) ;;
      ret contentType
  end.

(** The loop body up to the comparison: the upload path, the content
    encoding, the content type and the hash of one file. *)
Definition prepare (file : FileInfo) : M (string * string * string * string) :=
  let* '(uploadPath, contentEncoding) := compress_stage file in
  let* contentType := classify_stage file in
  let* '(hash, err) := Hashfile uploadPath in
  (match err with
   | Some _ => Println ("Hash error: " ++ path file)
   | None => ret tt
   end) ;;
  ret (uploadPath, contentEncoding, contentType, hash).

(** The rest of the loop body: the comparison with the inventory, and the
    upload unless the file is skipped. *)
Definition compare_and_upload (bucket : string) (s3Keys : gmap string string)
    (reUpload : bool) (file : FileInfo)
    (uploadPath contentEncoding contentType hash : string) : M unit :=
  let ok := bool_decide (is_Some (s3Keys !! key file)) in
  let etag := default EmptyString (s3Keys !! key file) in
  if ok && negb reUpload && String.eqb etag hash then ret tt (* continue *)
  else
    Println ("Uploading: " ++ uploadPath ++ " as " ++ key file) ;;
    let* fileIO := os_Open uploadPath in
    let upParams :=
      {| Bucket := bucket; Key := key file; Body := fileIO;
         CacheControl := "max-age=900"; ContentEncoding := contentEncoding;
         ContentType := contentType; ACL := "public-read" |} in
    let* err := uploader_Upload upParams in
    DisplayAwsErr err ;;
    match err with
    | None =>
        match URL.ParseRequestURI ("/" ++ key file) with
        | Some u => send_done (URL.String_ u)
        | None => panic (* the nil URL is dereferenced *)
        end
    | Some _ => ret tt
    end.

(** The body of the loop of [UploadFileHandler], for one file received. *)
Definition upload_one (bucket : string) (s3Keys : gmap string string)
    (reUpload : bool) (file : FileInfo) : M unit :=
  let* '(uploadPath, contentEncoding, contentType, hash) := prepare file in
  compare_and_upload bucket s3Keys reUpload file
                     uploadPath contentEncoding contentType hash.

(** [UploadFileHandler]: the files received from [localFilesChan], one
    after the other. *)
Definition UploadFileHandler (localFiles : list FileInfo) (bucket : string)
    (s3Keys : gmap string string) (reUpload : bool) : M unit :=
  forM_ (upload_one bucket s3Keys reUpload) localFiles.

End Engine.

(** The [scan] closure of [GetAllFiles]; the state is what has been sent on
    [localFilesChan].  [filepath.Base] never returns the empty string, so
    reading its first byte cannot fail. *)
Definition scan (dirname : string) (path : string) (fileInfo : osFileInfo)
    (sent : list FileInfo) : walkErr * list FileInfo :=
  if String.eqb path "." then (WalkNil, sent)
  else
    let hidden := starts_with "."%char (Filepath.Base path) in
    let sent' :=
      if negb (IsDir fileInfo) && negb hidden
      then (sent ++ [ {| path := path;
                         key := TrimPrefix (TrimPrefix path dirname) "/";
                         fileInfo := fileInfo |} ])%list
      else sent in
    if IsDir fileInfo && hidden then (SkipDir, sent') else (WalkNil, sent').

(** [GetAllFiles]: everything sent on the channel before it is closed. *)
Definition GetAllFiles (dirname : string) (tree : node) : list FileInfo :=
  Walker.Walk (scan dirname) dirname tree [].

Section Engine2.
Variable E : env.

(** The loops of [InvalidCloudFront] over the distributions and their
    aliases: the id of the last matching alias of a distribution is kept,
    and the search stops after the first distribution that left a
    non-empty id. *)
Fixpoint find_distribution (domain : string) (items : list Distribution)
    (distributionId : string) : string :=
  match items with
  | [] => distributionId
  | distribution :: items' =>
      let distributionId' :=
        fold_left (fun id cname => if String.eqb cname domain then Id distribution else id)
                  (Aliases distribution) distributionId in
      if negb (String.eqb distributionId' EmptyString) then distributionId'
      else find_distribution domain items' distributionId'
  end.

(** [svc.ListDistributions]: [None] is an answer without a distribution
    list, as a failed call gives. *)
Definition ListDistributions : M (option (list Distribution)) :=
  emit EvListDistributions ;; ret (distributions E).

Definition CreateInvalidation (input : CreateInvalidationInput) : M (option error) :=
  emit (EvCreateInvalidation input) ;;
  ret (if create_invalidation_fails E then Some ErrAws else None).

Definition InvalidCloudFront (domain : string) (paths : list string) : M unit :=
  if Nat.eqb (List.length paths) 0 then ret tt
  else
    let* resp := ListDistributions in
    match resp with
    | None => panic (* resp.DistributionList is nil *)
    | Some items =>
        let distributionId := find_distribution domain items EmptyString in
        let invalidationInput :=
          {| DistributionId := distributionId;
             CallerReference := GetCallerReference E;
             Quantity := Z.of_nat (List.length paths);
             Items := paths |} in
        Println ("Send invalidate to Dist ID: " ++ distributionId) ;;
        forM_ Println paths ;;
        let* err := CreateInvalidation invalidationInput in
        DisplayAwsErr E err
    end.

(** [etag[1 : len(etag)-1]]; the slice expression panics on a string
    shorter than two bytes. *)
Definition strip_quotes (etag : string) : option string :=
  if (String.length etag <? 2)%nat then None
  else Some (String.substring 1 (String.length etag - 2) etag).

(** The callback of [ListObjectsV2Pages] on the objects of the listing. *)
Fixpoint read_listing (contents : list (string * string))
    (s3Keys : gmap string string) : M (gmap string string) :=
  match contents with
  | [] => ret s3Keys
  | (k, etag) :: contents' =>
      match strip_quotes etag with
      | None => panic
      | Some etag' => read_listing contents' (<[k := etag']> s3Keys)
      end
  end.

(** [svc.ListObjectsV2Pages]: what the callback is given, and the error.
    Without error these are all the objects of the bucket, each with its
    quoted entity tag; with an error, the objects of the pages fetched
    before the request that failed. *)
Definition ListObjectsV2Pages (bucket : string)
  : M (list (string * string) * option error) :=
  emit (EvListObjects bucket) ;;
  fun w =>
    if list_objects_fails E
    then (Ret (map (fun kv => (fst kv, quoted (snd kv)))
                   (filter (fun kv => fetched_before_failure E (fst kv) = true)
                           (map_to_list (remote w))),
               Some ErrAws), w)
    else (Ret (map (fun kv => (fst kv, quoted (snd kv))) (map_to_list (remote w)), None), w).

(** [updatedKeys] as [InvalidCloudFront] finds it after [wg.Wait]: the
    keys the aggregating goroutine has appended by then, which are the
    first of the keys sent and need not be all of them.  The slice is
    taken as it is at that moment. *)
Definition read_doneChan : M (list string) :=
  fun w => (Ret (take (appended_at_wait E (doneChan w)) (doneChan w)), w).

(** [Sync] on the tree found at [path].  The workers are run as one: each
    file is handled on its own, against the same [s3Keys].  Without a
    worker nothing is received; a negative number makes [wg.Add] panic. *)
Definition Sync (bucket : string) (path : string) (tree : node)
    (reUpload : bool) (concurrentNum : Z) : M unit :=
  let* '(contents, err) := ListObjectsV2Pages bucket in
  let* s3Keys := read_listing contents ∅ in
  DisplayAwsErr E err ;;
  let localFiles := GetAllFiles path tree in
  (if concurrentNum <? 0 then panic
   else if concurrentNum =? 0 then ret tt
   else UploadFileHandler E localFiles bucket s3Keys reUpload) ;;
  let* updatedKeys := read_doneChan in
  InvalidCloudFront bucket updatedKeys.

End Engine2.

(** The uploads of a trace, in order. *)
Definition uploads (t : list event) : list UploadInput :=
  omap (fun e => match e with EvUpload i => Some i | _ => None end) t.

(** The invalidation batches of a trace, in order. *)
Definition invalidations (t : list event) : list CreateInvalidationInput :=
  omap (fun e => match e with EvCreateInvalidation i => Some i | _ => None end) t.

(* ===================================================================== *)
(** ** Notions the statements use *)
(* ===================================================================== *)

(** A base name that starts with a dot. *)
Definition hidden (name : string) : bool := starts_with "."%char name.

(** The names a directory listing can hold: not empty, without separator,
    and neither "." nor "..". *)
Definition valid_name (name : string) : bool :=
  let l := chars name in
  match l with
  | [] => false
  | _ => negb (existsb (Ascii.eqb Filepath.slash) l)
         && negb (Filepath.is_dot l) && negb (Filepath.is_dotdot l)
  end.

Fixpoint valid_tree (n : node) : bool :=
  match n with
  | File _ => true
  | Dir entries => forallb (fun e => valid_name (fst e) && valid_tree (snd e)) entries
  end.

(** [descends n names m]: following [names] down from [n] leads to [m]. *)
Inductive descends : node -> list string -> node -> Prop :=
| descends_here : forall n, descends n [] n
| descends_step : forall entries name child names m,
    In (name, child) entries ->
    descends child names m ->
    descends (Dir entries) (name :: names) m.

(** The path [filepath.Walk] gives to the entry reached by [names]. *)
Definition join_all (root : string) (names : list string) : string :=
  fold_left Filepath.Join names root.

(** The record [scan] sends for a file of size [sz] found at [p]. *)
Definition sent_for (dirname p : string) (sz : Z) : FileInfo :=
  {| path := p;
     key := TrimPrefix (TrimPrefix p dirname) "/";
     fileInfo := {| IsDir := false; Size := sz |} |}.

(** [emitted_below dirname p n fi]: [fi] is the record of a file that is [n],
    found at [p], or is reached from [n] through names none of which is
    hidden. *)
Definition emitted_below (dirname p : string) (n : node) (fi : FileInfo) : Prop :=
  exists names sz,
    descends n names (File sz) /\
    Forall (fun name => hidden name = false) names /\
    fi = sent_for dirname (join_all p names) sz.

(** The lines of the hash-error branch of the worker. *)
Definition is_hash_error (e : event) : bool :=
  match e with
  | EvPrintln line => HasPrefix line "Hash error: "
  | _ => false
  end.

(** The digest the worker compares for a file whose content is [content]
    ([None] when it cannot be opened): of the compressed bytes when the file
    is compressed, of the bytes themselves otherwise. *)
Definition upload_bytes (E : env) (file : FileInfo) (content : option bytes) : bytes :=
  if compresses file then gzip E (default [] content) else default [] content.

(** What a walk sends for an entry below the root, found at [p] under
    [name]. *)
Definition entry_spec (dirname : string) (n : node) : Prop :=
  valid_tree n = true ->
  forall p name sent,
    Filepath.Base p = name -> String.eqb p "." = false ->
    fst (Walker.walk (scan dirname) p n sent)
    = (if IsDir (info_of n) && hidden name then SkipDir else WalkNil) /\
    forall fi, In fi (snd (Walker.walk (scan dirname) p n sent)) <->
               In fi sent \/ (hidden name = false /\ emitted_below dirname p n fi).

(** [quiet w w']: from [w] to [w'] nothing was uploaded or invalidated, the
    bucket and the channel were left alone and no hash-error line was
    printed. *)
Definition quiet (w w' : world) : Prop :=
  remote w' = remote w /\ doneChan w' = doneChan w /\
  uploads (trace w') = uploads (trace w) /\
  invalidations (trace w') = invalidations (trace w) /\
  filter is_hash_error (trace w') = filter is_hash_error (trace w).

(** The upload input the worker builds for a file, in the world [w]. *)
Definition upParams_of (bucket : string) (file : FileInfo) (up enc ct : string)
    (w : world) : UploadInput :=
  {| Bucket := bucket; Key := key file; Body := fs w !! up;
     CacheControl := "max-age=900"; ContentEncoding := enc;
     ContentType := ct; ACL := "public-read" |}.

(** A path that is not the name of a temporary file. *)
Definition local_path (E : env) (p : string) : Prop := forall k, TempName E k <> p.

(** From [w] to [w'] the files that are not temporary files are the same. *)
Definition same_local_files (E : env) (w w' : world) : Prop :=
  forall p, local_path E p -> fs w' !! p = fs w !! p.

(** The digest of a file as the worker computes it in the world [w]. *)
Definition file_digest (E : env) (file : FileInfo) (w : world) : string :=
  MD5.hexsum (upload_bytes E file (fs w !! path file)).

(** The world a new run of the program starts in: the files and the bucket
    are as the last run left them, the output and the channel are new. *)
Definition next_run (w : world) : world :=
  {| fs := fs w; ntemp := ntemp w; remote := remote w; trace := []; doneChan := [] |}.

(** The uploads of the second of two runs of [Sync] on the same tree, the
    second one starting from the files and the bucket the first one left. *)
Definition second_run_uploads (E : env) (bucket path : string) (tree : node)
    (reUpload : bool) (concurrentNum : Z) (w : world) : list UploadInput :=
  let w1 := snd (Sync E bucket path tree reUpload concurrentNum w) in
  uploads (trace (snd (Sync E bucket path tree reUpload concurrentNum (next_run w1)))).

(* ===================================================================== *)
(** ** A small site, for the examples *)
(* ===================================================================== *)

Module Example.

(** A compressor for the examples: the two magic bytes of gzip before the
    content. *)
Definition demo_gzip (b : bytes) : bytes := x1f :: x8b :: b.

Definition demo_env (check_exits : bool) : env :=
  {| gzip := demo_gzip;
     DetectContentType := fun _ => "application/octet-stream";
     TempName := fun n => "/tmp/oursky" ++ String (ascii_of_nat (48 + n)) EmptyString;
     CheckErr_exits := fun _ => check_exits;
     DisplayAwsErr_exits := fun _ => false;
     GetCallerReference := "ref-1";
     list_objects_fails := false;
     fetched_before_failure := fun _ => false;
     upload_fails := fun _ => false;
     appended_at_wait := fun sent => List.length sent;
     distributions := Some [ {| Id := "E1"; Aliases := ["example.com"] |} ];
     create_invalidation_fails := false |}.

Definition start (files : list (string * bytes)) (objects : list (string * string)) : world :=
  {| fs := list_to_map files; ntemp := 0; remote := list_to_map objects;
     trace := []; doneChan := [] |}.

Definition B (s : string) : bytes := list_byte_of_string s.

Definition file_at (p k : string) (sz : Z) : FileInfo :=
  {| path := p; key := k; fileInfo := {| IsDir := false; Size := sz |} |}.

(** The entries of the root [/r] of the hidden-file example. *)
Definition r_entries : list (string * node) :=
  [ (".git", Dir [ ("config", File 10) ]);
    (".hidden", File 3);
    ("visible.txt", File 5) ].

(** The end-to-end scenario: [a.txt] changed, [b.txt] new. *)
Definition ab_tree : node := Dir [ ("a.txt", File 5); ("b.txt", File 3) ].
Definition ab_files : list (string * bytes) :=
  [ ("site/a.txt", B "hello"); ("site/b.txt", B "new") ].
Definition ab_objects : list (string * string) :=
  [ ("a.txt", "d41d8cd98f00b204e9800998ecf8427e") ].

(** An image above the threshold, a style sheet, and a file that is
    listed but cannot be opened. *)
Definition photo_file : FileInfo := file_at "site/photo.png" "photo.png" 501.
Definition photo : bytes := repeat "P"%byte 501.
Definition photo_start : world := start [ ("site/photo.png", photo) ] [].

Definition style_file : FileInfo := file_at "site/style.css" "style.css" 6.
Definition style_start : world := start [ ("site/style.css", B "body{}") ] [].

Definition gone_file : FileInfo := file_at "site/gone.txt" "gone.txt" 0.
Definition gone_start : world :=
  start [] [ ("gone.txt", "d41d8cd98f00b204e9800998ecf8427e") ].

Definition ab_start : world := start ab_files ab_objects.
Definition a_file : FileInfo := file_at "site/a.txt" "a.txt" 5.

(** A page of 600 bytes, above the compression threshold. *)
Definition page : bytes := repeat "a"%byte 600.
Definition page_start : world := start [ ("site/page.txt", page) ] [].

End Example.

(* ===================================================================== *)
(** ** Notions of the further properties *)
(* ===================================================================== *)

(** The workers of [Sync], run as one, as [Sync] starts them. *)
Definition run_workers (E : env) (bucket root : string) (tree : node)
    (reUpload : bool) (concurrentNum : Z) (s3Keys : gmap string string) : M unit :=
  if concurrentNum <? 0 then panic
  else if concurrentNum =? 0 then ret tt
  else UploadFileHandler E (GetAllFiles root tree) bucket s3Keys reUpload.

(** What [Sync] does once it has its inventory: the workers, then the
    invalidation of what they sent. *)
Definition after_listing (E : env) (bucket root : string) (tree : node)
    (reUpload : bool) (concurrentNum : Z) (s3Keys : gmap string string) : M unit :=
  run_workers E bucket root tree reUpload concurrentNum s3Keys ;;
  let* updatedKeys := read_doneChan E in
  InvalidCloudFront E bucket updatedKeys.

(** The inventory [Sync] works with: the bucket as it is listed, or, when
    the listing fails, the part of it that was fetched before. *)
Definition inventory (E : env) (w : world) : gmap string string :=
  if list_objects_fails E
  then filter (fun kv => fetched_before_failure E (fst kv) = true) (remote w)
  else remote w.

(** A distribution that has [domain] among its aliases. *)
Definition serves (domain : string) (d : Distribution) : bool :=
  existsb (String.eqb domain) (Aliases d).

(** A key made of bytes that a URL path holds as they are: letters, digits
    and [-_.~$&+,/:;=@]. *)
Definition plain_key (k : string) : bool :=
  forallb (fun c => negb (URL.shouldEscape c)) (chars k).

(** Names joined by the separator. *)
Definition join_names (names : list string) : string :=
  of_chars (Filepath.join_elements (map chars names)).

(** A digit of lower-case hexadecimal. *)
Definition is_lower_hex (c : ascii) : bool := URL.one_of c "0123456789abcdef".

(** The fixed attributes of an upload of the worker for [bucket]. *)
Definition fixed_attributes (bucket : string) (input : UploadInput) : Prop :=
  Bucket input = bucket /\ CacheControl input = "max-age=900" /\
  ACL input = "public-read".

(** The condition of the specification for the upload of a file with the
    key [k] and the digest [digest]: the key is absent from the inventory,
    or the digest stored there differs, or the force flag is set. *)
Definition needs_upload (s3Keys : gmap string string) (reUpload : bool)
    (digest k : string) : bool :=
  match s3Keys !! k with
  | None => true
  | Some etag => negb (String.eqb etag digest) || reUpload
  end.

(** The files the specification has the enumerator emit, in the order of
    the listing: the files of a tree that no name starting with a dot leads
    to, each with the names that lead to it and its size. *)
Fixpoint visible (n : node) : list (list string * Z) :=
  match n with
  | File sz => [([], sz)]
  | Dir entries =>
      (fix below (es : list (string * node)) : list (list string * Z) :=
         match es with
         | [] => []
         | (name, child) :: es' =>
             ((if hidden name then []
               else map (fun x => (name :: fst x, snd x)) (visible child))
              ++ below es')%list
         end) entries
  end.

Fixpoint visible_entries (es : list (string * node)) : list (list string * Z) :=
  match es with
  | [] => []
  | (name, child) :: es' =>
      ((if hidden name then []
        else map (fun x => (name :: fst x, snd x)) (visible child))
       ++ visible_entries es')%list
  end.

(** What a walk sends for an entry below the root, found at [p] under
    [name], as a list. *)
Definition entry_list_spec (dirname : string) (n : node) : Prop :=
  valid_tree n = true ->
  forall p name sent,
    Filepath.Base p = name -> String.eqb p "." = false ->
    Walker.walk (scan dirname) p n sent
    = (if IsDir (info_of n) && hidden name then SkipDir else WalkNil,
       (sent ++ (if hidden name then []
                 else map (fun x => sent_for dirname (join_all p (fst x)) (snd x))
                          (visible n)))%list).

(** [keeps_files E w w']: from [w] to [w'] no file was removed, and every
    temporary file created in between is still there. *)
Definition keeps_files (E : env) (w w' : world) : Prop :=
  (ntemp w <= ntemp w')%nat /\
  (forall p, is_Some (fs w !! p) -> is_Some (fs w' !! p)) /\
  (forall k, (ntemp w <= k < ntemp w')%nat -> is_Some (fs w' !! TempName E k)).

Module More.

(** Two distributions; the second one serves the example domain. *)
Definition two_distributions : list Distribution :=
  [ {| Id := "E0"; Aliases := ["other.org"; "www.other.org"] |};
    {| Id := "E1"; Aliases := ["example.com"] |} ].

(** An environment in which every upload fails and the helper returns. *)
Definition failing_env : env :=
  {| gzip := Example.demo_gzip;
     DetectContentType := fun _ => "application/octet-stream";
     TempName := fun n => "/tmp/oursky" ++ String (ascii_of_nat (48 + n)) EmptyString;
     CheckErr_exits := fun _ => true;
     DisplayAwsErr_exits := fun _ => false;
     GetCallerReference := "ref-1";
     list_objects_fails := false;
     fetched_before_failure := fun _ => false;
     upload_fails := fun _ => true;
     appended_at_wait := fun sent => List.length sent;
     distributions := Some two_distributions;
     create_invalidation_fails := false |}.

(** A tree with a directory, for the keys. *)
Definition deep_tree : list (string * node) :=
  [ ("css", Dir [ ("site.css", File 7) ]);
    ("index.html", File 5) ].

(** An environment in which the listing of the bucket fails and
    [DisplayAwsErr] returns. *)
Definition unlisted_env : env :=
  {| gzip := Example.demo_gzip;
     DetectContentType := fun _ => "application/octet-stream";
     TempName := fun n => "/tmp/oursky" ++ String (ascii_of_nat (48 + n)) EmptyString;
     CheckErr_exits := fun _ => true;
     DisplayAwsErr_exits := fun _ => false;
     GetCallerReference := "ref-1";
     list_objects_fails := true;
     fetched_before_failure := String.eqb "a.txt";
     upload_fails := fun _ => false;
     appended_at_wait := fun sent => List.length sent;
     distributions := Some two_distributions;
     create_invalidation_fails := false |}.

(** The example site once it is in the bucket: the digests of "hello" and
    of "new" under the two keys. *)
Definition synced_objects : list (string * string) :=
  [ ("a.txt", "5d41402abc4b2a76b9719d911017c592");
    ("b.txt", "22af645d1859cb5ca6da0c484f1f37ea") ].
Definition synced_start : world := Example.start Example.ab_files synced_objects.

(** An environment in which the distributions cannot be listed. *)
Definition undistributed_env : env :=
  {| gzip := Example.demo_gzip;
     DetectContentType := fun _ => "application/octet-stream";
     TempName := fun n => "/tmp/oursky" ++ String (ascii_of_nat (48 + n)) EmptyString;
     CheckErr_exits := fun _ => true;
     DisplayAwsErr_exits := fun _ => false;
     GetCallerReference := "ref-1";
     list_objects_fails := false;
     fetched_before_failure := fun _ => false;
     upload_fails := fun _ => false;
     appended_at_wait := fun sent => List.length sent;
     distributions := None;
     create_invalidation_fails := false |}.

(** The example site against a bucket that holds an object of a file that
    is gone. *)
Definition stale_start : world :=
  Example.start Example.ab_files [ ("old.html", "d41d8cd98f00b204e9800998ecf8427e") ].

(** The tree of the page of the example. *)
Definition page_tree : node := Dir [ ("page.txt", File 600) ].

(** The invalidation of the two files of the example site. *)
Definition ab_invalidation : CreateInvalidationInput :=
  {| DistributionId := "E1"; CallerReference := "ref-1"; Quantity := 2;
     Items := [ "/a.txt"; "/b.txt" ] |}.

(** The invalidation of one path on the second distribution. *)
Definition one_invalidation : CreateInvalidationInput :=
  {| DistributionId := "E1"; CallerReference := "ref-1"; Quantity := 1;
     Items := [ "/a.txt" ] |}.

End More.

(* ===================================================================== *)
(** ** The extension the tables are asked for *)
(* ===================================================================== *)

Local Open Scope list_scope.

Lemma chars_of_chars (l : list ascii) : chars (of_chars l) = l.
Proof. apply list_ascii_of_string_of_list_ascii. Qed.

Lemma of_chars_chars (s : string) : of_chars (chars s) = s.
Proof. apply string_of_list_ascii_of_string. Qed.

Lemma ext_scan_shape (rpath acc : list ascii) :
  Filepath.ext_scan rpath acc = [] \/
  exists t, Filepath.ext_scan rpath acc = Filepath.dot :: t.
Proof.
  revert acc. induction rpath as [|c rpath IH]; intros acc; simpl.
  - by left.
  - destruct (Ascii.eqb c Filepath.slash); [by left|].
    destruct (Ascii.eqb_spec c Filepath.dot) as [->|_]; [right; eauto|apply IH].
Qed.

(** [filepath.Ext] keeps the dot: the suffix the worker computes is empty or
    starts with one. *)
Lemma suffix_shape (p : string) :
  ToLower (Filepath.Ext p) = EmptyString \/
  exists t, ToLower (Filepath.Ext p) = String "."%char t.
Proof.
  unfold ToLower, Filepath.Ext. rewrite chars_of_chars.
  destruct (ext_scan_shape (rev (chars p)) []) as [->|[t ->]].
  - by left.
  - right. by exists (of_chars (map lower_char t)).
Qed.

Lemma contentTypeMap_dot (t : string) : contentTypeMap !! String "."%char t = None.
Proof.
  apply not_elem_of_list_to_map_1. simpl. intros H.
  repeat (apply elem_of_cons in H as [H|H]; [discriminate H|]).
  by apply elem_of_nil in H.
Qed.

Lemma compressBlacklist_dot (t : string) : compressBlacklist !! String "."%char t = None.
Proof.
  apply not_elem_of_list_to_map_1. simpl. intros H.
  repeat (apply elem_of_cons in H as [H|H]; [discriminate H|]).
  by apply elem_of_nil in H.
Qed.

(** No path has a suffix that is a key of the type table. *)
Lemma contentTypeMap_miss (p : string) :
  contentTypeMap !! ToLower (Filepath.Ext p) = None.
Proof.
  destruct (suffix_shape p) as [->|[t ->]]; [reflexivity|apply contentTypeMap_dot].
Qed.

(** No path has a suffix that is a key of the blacklist. *)
Lemma compressBlacklist_miss (p : string) :
  compressBlacklist !! ToLower (Filepath.Ext p) = None.
Proof.
  destruct (suffix_shape p) as [->|[t ->]]; [reflexivity|apply compressBlacklist_dot].
Qed.

(** The compression branch is taken on the size alone. *)
Lemma compresses_size (file : FileInfo) :
  compresses file = (500 <? Size (fileInfo file)).
Proof. unfold compresses. by rewrite compressBlacklist_miss. Qed.

(* ===================================================================== *)
(** ** What the loop body leaves untouched *)
(* ===================================================================== *)

#[local] Arguments MD5.hexsum : simpl never.
#[local] Arguments ToLower : simpl never.
#[local] Arguments Filepath.Ext : simpl never.
#[local] Arguments URL.ParseRequestURI : simpl never.
#[local] Arguments URL.String_ : simpl never.
#[local] Arguments read512 : simpl never.

Lemma uploads_snoc_println (t : list event) (line : string) :
  uploads (t ++ [EvPrintln line]) = uploads t.
Proof. unfold uploads. rewrite omap_app. simpl. by rewrite app_nil_r. Qed.

Lemma uploads_snoc_upload (t : list event) (i : UploadInput) :
  uploads (t ++ [EvUpload i]) = uploads t ++ [i].
Proof. unfold uploads. by rewrite omap_app. Qed.

Lemma quiet_refl w : quiet w w.
Proof. by repeat split. Qed.

Lemma quiet_trans w1 w2 w3 : quiet w1 w2 -> quiet w2 w3 -> quiet w1 w3.
Proof.
  unfold quiet. intros (?&?&?&?&?) (?&?&?&?&?). repeat split; congruence.
Qed.

Lemma invalidations_snoc_println (t : list event) (line : string) :
  invalidations (t ++ [EvPrintln line]) = invalidations t.
Proof. unfold invalidations. rewrite omap_app. simpl. by rewrite app_nil_r. Qed.

Lemma hash_errors_snoc_println (t : list event) (line : string) :
  HasPrefix line "Hash error: " = false ->
  filter is_hash_error (t ++ [EvPrintln line]) = filter is_hash_error t.
Proof.
  intros Hl. rewrite filter_app.
  assert (Hn : filter is_hash_error [EvPrintln line] = []).
  { rewrite filter_cons. destruct (decide _) as [Hd|_]; [|done].
    change (is_hash_error (EvPrintln line)) with (HasPrefix line "Hash error: ") in Hd.
    rewrite Hl in Hd. destruct Hd. }
  rewrite Hn. apply app_nil_r.
Qed.

Lemma quiet_println line w :
  HasPrefix line "Hash error: " = false ->
  quiet w (snd (emit (EvPrintln line) w)).
Proof.
  intros Hl. unfold quiet. cbn [emit snd remote doneChan trace].
  rewrite uploads_snoc_println, invalidations_snoc_println, hash_errors_snoc_println by done.
  by repeat split.
Qed.

(** *** Running the primitives *)

Lemma bind_inv {A B} (m : M A) (k : A -> M B) w o w' :
  bind m k w = (o, w') ->
  (exists a w1, m w = (Ret a, w1) /\ k a w1 = (o, w')) \/
  (m w = (Exit, w') /\ o = Exit) \/ (m w = (Panic, w') /\ o = Panic).
Proof.
  unfold bind. destruct (m w) as [[a| |] w1]; intros H.
  - left. eauto.
  - injection H as <- <-. right. left. auto.
  - injection H as <- <-. right. right. auto.
Qed.

Lemma bind_ret_run {A B} (a : A) (k : A -> M B) w : bind (ret a) k w = k a w.
Proof. reflexivity. Qed.

Lemma bind_emit_run {B} e (k : unit -> M B) w :
  bind (emit e) k w = k tt (snd (emit e w)).
Proof. reflexivity. Qed.

Lemma bind_panic_run {A B} (k : A -> M B) w : bind panic k w = (Panic, w).
Proof. reflexivity. Qed.

Section StageFacts.
Variable E : env.

Lemma bind_Println_run {B} line (k : unit -> M B) w :
  bind (Println line) k w = k tt (snd (emit (EvPrintln line) w)).
Proof. reflexivity. Qed.

Lemma bind_os_Open_run {B} name (k : option bytes -> M B) w :
  bind (os_Open name) k w = k (fs w !! name) w.
Proof. reflexivity. Qed.

Lemma bind_CheckErr_run {B} err (k : unit -> M B) w :
  bind (CheckErr E err) k w =
  if match err with Some e => CheckErr_exits E e | None => false end
  then (Exit, w) else k tt w.
Proof.
  unfold CheckErr. destruct err as [e|]; [|reflexivity].
  by destruct (CheckErr_exits E e).
Qed.

Lemma bind_DisplayAwsErr_run {B} err (k : unit -> M B) w :
  bind (DisplayAwsErr E err) k w =
  if match err with Some e => DisplayAwsErr_exits E e | None => false end
  then (Exit, w) else k tt w.
Proof.
  unfold DisplayAwsErr. destruct err as [e|]; [|reflexivity].
  by destruct (DisplayAwsErr_exits E e).
Qed.

Lemma CheckErr_open_err (f : option bytes) :
  match open_err f with
  | Some err => CheckErr E (Some err)
  | None => ret tt
  end = CheckErr E (open_err f).
Proof. by destruct f. Qed.

(** [Hashfile] leaves the world as it is and has two results: the process
    has ended, or the hash of what could be read comes with a nil error. *)
Lemma Hashfile_spec filename w :
  Hashfile E filename w = (Exit, w) \/
  Hashfile E filename w = (Ret (MD5.hexsum (default [] (fs w !! filename)), None), w).
Proof.
  unfold Hashfile. rewrite bind_os_Open_run, CheckErr_open_err, bind_CheckErr_run.
  destruct (match open_err _ with Some e => _ | None => _ end); auto.
Qed.

Lemma compress_stage_spec file w o w' :
  compress_stage E file w = (o, w') ->
  quiet w w' /\
  forall up enc, o = Ret (up, enc) ->
    (compresses file = false /\ up = path file /\ enc = EmptyString /\
     fs w' = fs w /\ ntemp w' = ntemp w) \/
    (compresses file = true /\ up = TempName E (ntemp w) /\ enc = "gzip"%string /\
     ntemp w' = S (ntemp w) /\
     fs w' = <[up := gzip E (default [] (<[up := []]> (fs w) !! path file))]>
               (<[up := []]> (fs w))).
Proof.
  unfold compress_stage. destruct (compresses file) eqn:Hc.
  - rewrite bind_Println_run. unfold ioutil_TempFile at 1.
    unfold bind at 1. cbn [snd emit fs ntemp remote trace doneChan].
    rewrite bind_os_Open_run, CheckErr_open_err, bind_CheckErr_run.
    cbn [fs].
    assert (Hq : quiet w (snd (emit (EvPrintln ("Compressing: " +:+ path file)) w)))
      by (by apply quiet_println).
    destruct (match open_err _ with Some e => _ | None => _ end).
    + intros [= <- <-]. split; [exact Hq|]. intros ? ? [=].
    + intros [= <- <-]. split; [exact Hq|].
      intros ? ? [= <- <-]. right. by repeat split.
  - unfold ret. intros [= <- <-]. split; [apply quiet_refl|].
    intros ? ? [= <- <-]. left. by repeat split.
Qed.

Lemma classify_stage_spec file w o w' :
  classify_stage E file w = (o, w') ->
  quiet w w' /\ fs w' = fs w /\ ntemp w' = ntemp w /\
  forall ct, o = Ret ct ->
    ct = DetectContentType E (fst (read512 (fs w !! path file))) /\
    trace w' = trace w ++ [EvPrintln ("Detected MIME: " +:+ ct)].
Proof.
  unfold classify_stage. rewrite contentTypeMap_miss.
  rewrite bind_os_Open_run, bind_CheckErr_run.
  destruct (match open_err _ with Some e => _ | None => _ end).
  { intros [= <- <-]. split; [apply quiet_refl|]. do 2 (split; [done|]). intros ? [=]. }
  destruct (read512 (fs w !! path file)) as [byte512 err] eqn:Hr.
  assert (Hq : quiet w (snd (emit (EvPrintln ("Detected MIME: " +:+ DetectContentType E byte512)) w)))
    by (by apply quiet_println).
  assert (Hk : forall b : bool,
    (if b then (@Exit string, w)
     else bind (Println ("Detected MIME: " +:+ DetectContentType E byte512))
               (fun _ => ret (DetectContentType E byte512)) w) = (o, w') ->
    quiet w w' /\ fs w' = fs w /\ ntemp w' = ntemp w /\
    forall ct, o = Ret ct ->
      ct = DetectContentType E (fst (byte512, err)) /\
      trace w' = trace w ++ [EvPrintln ("Detected MIME: " +:+ ct)]).
  { intros [|].
    - intros [= <- <-]. split; [apply quiet_refl|]. do 2 (split; [done|]). intros ? [=].
    - rewrite bind_Println_run. intros [= <- <-]. split; [exact Hq|].
      do 2 (split; [done|]). intros ? [= <-]. by split. }
  destruct err as [[]|]; rewrite ?bind_CheckErr_run, ?bind_ret_run;
    first [apply Hk | apply (Hk false)].
Qed.
End StageFacts.

Section LoopBodyFacts.
Variable E : env.

(** The loop body up to the comparison: nothing but lines and temporary
    files, and the hash is that of the file at the upload path. *)
Lemma prepare_spec file w o w' :
  prepare E file w = (o, w') ->
  quiet w w' /\
  forall up enc ct hash, o = Ret (up, enc, ct, hash) ->
    hash = MD5.hexsum (default [] (fs w' !! up)) /\
    ((compresses file = false /\ up = path file /\ enc = EmptyString /\
      fs w' = fs w /\ ntemp w' = ntemp w) \/
     (compresses file = true /\ up = TempName E (ntemp w) /\ enc = "gzip"%string /\
      ntemp w' = S (ntemp w) /\
      fs w' = <[up := gzip E (default [] (<[up := []]> (fs w) !! path file))]>
                (<[up := []]> (fs w)))).
Proof.
  unfold prepare. intros H.
  apply bind_inv in H as [([up enc] & w1 & Hc & H) | [[Hc ->] | [Hc ->]]];
    apply compress_stage_spec in Hc as [Hq1 Hc];
    [|split; [done|intros ? ? ? ? [=]]..].
  apply bind_inv in H as [(ct & w2 & Hk & H) | [[Hk ->] | [Hk ->]]];
    apply classify_stage_spec in Hk as (Hq2 & Hfs2 & Hnt2 & _);
    [|split; [by eapply quiet_trans|intros ? ? ? ? [=]]..].
  assert (Hq : quiet w w2) by (by eapply quiet_trans).
  destruct (Hashfile_spec E up w2) as [Hh|Hh];
    unfold bind at 1 in H; rewrite Hh in H; cbv beta iota in H.
  - injection H as <- <-. split; [done|]. intros ? ? ? ? [=].
  - rewrite bind_ret_run in H. injection H as <- <-. split; [done|].
    intros ? ? ? ? [= <- <- <- <-]. split; [done|].
    rewrite Hfs2, Hnt2. by apply Hc.
Qed.

Lemma skip_test_true (s3Keys : gmap string string) reUpload k hash :
  bool_decide (is_Some (s3Keys !! k)) && negb reUpload
    && String.eqb (default EmptyString (s3Keys !! k)) hash = true <->
  s3Keys !! k = Some hash /\ reUpload = false.
Proof.
  rewrite !andb_true_iff, bool_decide_eq_true, negb_true_iff, String.eqb_eq.
  split.
  - intros [[[etag He] Hr] Hh]. rewrite He in Hh |- *. simpl in Hh. by subst.
  - intros [He Hr]. rewrite He. simpl. eauto.
Qed.

(** A file that passes the test is left alone. *)
Lemma compare_skip bucket (s3Keys : gmap string string) file up enc ct hash w :
  s3Keys !! key file = Some hash ->
  compare_and_upload E bucket s3Keys false file up enc ct hash w = (Ret tt, w).
Proof.
  intros He. unfold compare_and_upload.
  by rewrite (proj2 (skip_test_true s3Keys false (key file) hash)).
Qed.

(** A file that fails the test is uploaded once; the bucket and the
    channel change when the upload succeeds. *)
Lemma compare_upload bucket (s3Keys : gmap string string) reUpload file up enc ct hash w o w' :
  ~ (s3Keys !! key file = Some hash /\ reUpload = false) ->
  compare_and_upload E bucket s3Keys reUpload file up enc ct hash w = (o, w') ->
  let input := upParams_of bucket file up enc ct w in
  trace w' = trace w ++ [EvPrintln ("Uploading: " +:+ up +:+ " as " +:+ key file);
                         EvUpload input] /\
  fs w' = fs w /\ ntemp w' = ntemp w /\
  ((upload_fails E input = true /\ remote w' = remote w /\ doneChan w' = doneChan w /\
    (o = Exit \/ o = Ret tt)) \/
   (upload_fails E input = false /\
    remote w' = <[key file := MD5.hexsum (default [] (fs w !! up))]> (remote w) /\
    ((exists u, URL.ParseRequestURI ("/" +:+ key file) = Some u /\
                doneChan w' = doneChan w ++ [URL.String_ u] /\ o = Ret tt) \/
     (URL.ParseRequestURI ("/" +:+ key file) = None /\
      doneChan w' = doneChan w /\ o = Panic)))).
Proof.
  intros Hno. unfold compare_and_upload.
  destruct (_ && _ && _) eqn:Ht; [by apply skip_test_true in Ht|].
  rewrite bind_Println_run, bind_os_Open_run.
  cbn [emit snd fs]. fold (upParams_of bucket file up enc ct w).
  set (input := upParams_of bucket file up enc ct w).
  unfold bind at 1, uploader_Upload. cbn [fs ntemp remote trace doneChan].
  rewrite <- app_assoc. cbn [app].
  destruct (upload_fails E input) eqn:Hu.
  - rewrite bind_DisplayAwsErr_run. destruct (DisplayAwsErr_exits E ErrAws).
    + intros [= <- <-]. cbn. repeat split; auto. left. auto.
    + unfold ret. intros [= <- <-]. cbn. repeat split; auto. left. auto.
  - rewrite bind_DisplayAwsErr_run.
    destruct (URL.ParseRequestURI ("/" +:+ key file)) as [u|] eqn:Hp.
    + intros [= <- <-]. cbn. repeat split; auto. right.
      repeat split; auto. left. eauto.
    + intros [= <- <-]. cbn. repeat split; auto. right.
      repeat split; auto.
Qed.
End LoopBodyFacts.

(* ===================================================================== *)
(** ** The upload decision *)
(* ===================================================================== *)

(** The decision of one turn of the loop (lines 202-205).  For a file for
    which the worker reaches the comparison with the hash [hash]: one
    upload, under its key, is added to the uploads if and only if its key
    is absent from the inventory, or the digest stored there differs from
    [hash], or the force flag is set; and no upload is added exactly when
    the inventory has the key, the flag is unset and the stored digest
    equals [hash]. *)
Lemma comparison_uploads_iff_absent_changed_or_forced
    (E : env) (bucket : string) (s3Keys : gmap string string) (reUpload : bool)
    (file : FileInfo) (w w1 : world) (up enc ct hash : string) :
  prepare E file w = (Ret (up, enc, ct, hash), w1) ->
  let w2 := snd (upload_one E bucket s3Keys reUpload file w) in
  ((exists input, uploads (trace w2) = uploads (trace w) ++ [input] /\
                  Key input = key file) <->
   (s3Keys !! key file = None \/
    (exists etag, s3Keys !! key file = Some etag /\ etag <> hash) \/
    reUpload = true))
  /\
  (uploads (trace w2) = uploads (trace w) <->
   (is_Some (s3Keys !! key file) /\ reUpload = false /\
    s3Keys !! key file = Some hash)).
Proof.
  intros Hp w2.
  assert (Hrun : upload_one E bucket s3Keys reUpload file w =
                 compare_and_upload E bucket s3Keys reUpload file up enc ct hash w1).
  { unfold upload_one, bind. by rewrite Hp. }
  apply prepare_spec in Hp as [(_ & _ & Hu & _) _].
  subst w2. rewrite Hrun. clear Hrun.
  destruct (decide (s3Keys !! key file = Some hash /\ reUpload = false)) as [[He ->]|Hno].
  - rewrite (compare_skip E bucket s3Keys file up enc ct hash w1 He). cbn [snd].
    rewrite Hu. split; split.
    + intros (input & Hi & _). apply (f_equal List.length) in Hi.
      rewrite length_app in Hi. simpl in Hi. lia.
    + intros [Hn | [(etag & Hs & Hd) | Hf]]; congruence.
    + intros _. repeat split; eauto.
    + done.
  - destruct (compare_and_upload E bucket s3Keys reUpload file up enc ct hash w1)
      as [o w3] eqn:Hc.
    apply (compare_upload E _ _ _ _ _ _ _ _ _ _ _ Hno) in Hc as (Ht & _).
    cbn [snd]. unfold uploads in *. rewrite Ht, omap_app, Hu. cbn [omap list_omap].
    split; split.
    + intros _. destruct (s3Keys !! key file) as [etag|] eqn:Hs; [|by left].
      destruct reUpload; [by right; right|]. right. left. exists etag.
      split; [done|]. intros ->. by apply Hno.
    + intros _. eexists. split; [reflexivity|]. reflexivity.
    + intros Hi. apply (f_equal List.length) in Hi.
      rewrite length_app in Hi. simpl in Hi. lia.
    + intros (_ & Hr & Hs). destruct Hno. auto.
Qed.

(* ===================================================================== *)
(** ** The bytes that are hashed *)
(* ===================================================================== *)



(* ===================================================================== *)
(** ** The path sent on the output channel *)
(* ===================================================================== *)

Lemma removelast_slash (l : list ascii) :
  l <> [] -> removelast ("/"%char :: l) = "/"%char :: removelast l.
Proof. by destruct l. Qed.

Lemma unescape_slash (r p : list ascii) :
  URL.unescape ("/"%char :: r) = Some p -> exists p', p = "/"%char :: p'.
Proof.
  simpl. destruct (URL.unescape r) as [q|]; intros [= <-]. eauto.
Qed.

Lemma EscapedPath_slash (u : URL.URL) p :
  URL.Path u = String "/"%char p ->
  (URL.RawPath u = EmptyString \/ exists r, URL.RawPath u = String "/"%char r) ->
  exists s, URL.EscapedPath u = String "/"%char s.
Proof.
  intros Hp Hr. unfold URL.EscapedPath. rewrite Hp.
  destruct (_ && _ && _) eqn:Hc.
  - destruct Hr as [Hr|[r Hr]]; rewrite Hr in Hc |- *; [discriminate Hc|eauto].
  - change (String.eqb (String "/"%char p) "*") with false. cbv iota.
    change (chars (String "/"%char p)) with ("/"%char :: chars p).
    change (URL.escape ("/"%char :: chars p)) with ("/"%char :: URL.escape (chars p)).
    eexists. reflexivity.
Qed.

(** When the key with its leading separator parses, the string of the URL
    starts with the separator. *)
Lemma parsed_key_starts_with_slash (k : string) (u : URL.URL) :
  URL.ParseRequestURI ("/" +:+ k) = Some u ->
  starts_with "/"%char (URL.String_ u) = true.
Proof.
  unfold URL.ParseRequestURI.
  destruct (URL.stringContainsCTLByte _); [discriminate|].
  change ("/" +:+ k)%string with (String "/"%char k). cbv iota.
  change (chars (String "/"%char k)) with ("/"%char :: chars k).
  set (raw := "/"%char :: chars k).
  assert (Hrest : forall rest force query u0,
            (exists r, rest = "/"%char :: r) ->
            URL.setPath {| URL.Path := EmptyString; URL.RawPath := EmptyString;
                           URL.ForceQuery := force; URL.RawQuery := query |} rest = Some u0 ->
            starts_with "/"%char (URL.String_ u0) = true).
  { intros rest force query u0 [r ->]. unfold URL.setPath.
    destruct (URL.unescape ("/"%char :: r)) as [p|] eqn:Hu; [|discriminate].
    apply unescape_slash in Hu as [p' ->]. intros [= Hu0].
    destruct (EscapedPath_slash u0 (of_chars p')) as [s Hs].
    - by subst u0.
    - subst u0. cbn [URL.RawPath]. destruct (String.eqb _ _); [by left|right].
      exists (of_chars r). reflexivity.
    - unfold URL.String_. rewrite Hs. reflexivity. }
  destruct (URL.ends_with_query raw && Nat.eqb (URL.count_query raw) 1) eqn:Hq.
  - apply (Hrest _ true). unfold raw. destruct (chars k) as [|c l] eqn:Hk.
    + discriminate Hq.
    + rewrite removelast_slash by done. eauto.
  - destruct (URL.cut_query raw) as [a b] eqn:Hc. apply (Hrest _ false).
    unfold raw in Hc. simpl in Hc. destruct (URL.cut_query (chars k)).
    injection Hc as <- <-. eauto.
Qed.

(** C8 (what holds of it).  Whatever the worker sends on the output channel
    for a file starts with the separator; on a key that
    [url.ParseRequestURI] rejects the worker sends nothing and panics, with
    the upload done. *)
Theorem emitted_path_starts_with_slash_or_panic :
  (forall (E : env) bucket (s3Keys : gmap string string) reUpload file w,
     let r := upload_one E bucket s3Keys reUpload file w in
     doneChan (snd r) = doneChan w \/
     exists k, doneChan (snd r) = doneChan w ++ [k] /\ starts_with "/"%char k = true)
  /\
  (let file := Example.file_at "site/100%.txt" "100%.txt" 3 in
   let w := Example.start [ ("site/100%.txt", Example.B "abc") ] [] in
   let r := upload_one (Example.demo_env true) "example.com" ∅ false file w in
   fst r = Panic /\ doneChan (snd r) = [] /\
   map Key (uploads (trace (snd r))) = [ "100%.txt"%string ] /\
   remote (snd r) !! "100%.txt"%string = Some (MD5.hexsum (Example.B "abc"))).
Proof.
  split.
  - intros E bucket s3Keys reUpload file w r. subst r. unfold upload_one.
    destruct (bind _ _ w) as [o w2] eqn:H. cbn [snd].
    apply bind_inv in H as [([[[up enc] ct] hash] & w1 & Hp & H) | [[Hp ->] | [Hp ->]]];
      apply prepare_spec in Hp as [(_ & Hd & _) _]; [|by left..].
    destruct (decide (s3Keys !! key file = Some hash /\ reUpload = false)) as [[He ->]|Hno].
    + rewrite compare_skip in H by done. injection H as <- <-. by left.
    + apply (compare_upload E _ _ _ _ _ _ _ _ _ _ _ Hno) in H
        as (_ & _ & _ & [(_ & _ & Hc & _) | (_ & _ & [(u & Hu & Hc & _) | (_ & Hc & _)])]).
      * left. congruence.
      * right. exists (URL.String_ u). rewrite Hc, Hd.
        split; [done|]. by eapply parsed_key_starts_with_slash.
      * left. congruence.
  - vm_compute. repeat split; reflexivity.
Qed.

(* ===================================================================== *)
(** ** The error of [Hashfile] *)
(* ===================================================================== *)

Lemma hash_errors_snoc_upload (t : list event) (input : UploadInput) :
  filter is_hash_error (t ++ [EvUpload input]) = filter is_hash_error t.
Proof.
  rewrite filter_app, filter_cons. destruct (decide _) as [Hd|_]; [destruct Hd|].
  apply app_nil_r.
Qed.

Lemma upload_one_hash_errors E bucket (s3Keys : gmap string string) reUpload file w :
  filter is_hash_error (trace (snd (upload_one E bucket s3Keys reUpload file w)))
  = filter is_hash_error (trace w).
Proof.
  unfold upload_one. destruct (bind _ _ w) as [o w2] eqn:H. cbn [snd].
  apply bind_inv in H as [([[[up enc] ct] hash] & w1 & Hp & H) | [[Hp ->] | [Hp ->]]];
    apply prepare_spec in Hp as [(_ & _ & _ & _ & Hf) _]; [|done..].
  destruct (decide (s3Keys !! key file = Some hash /\ reUpload = false)) as [[He ->]|Hno].
  - rewrite compare_skip in H by done. by injection H as <- <-.
  - apply (compare_upload E _ _ _ _ _ _ _ _ _ _ _ Hno) in H as (Ht & _).
    rewrite Ht.
    change (trace w1 ++ [EvPrintln ("Uploading: " +:+ up +:+ " as " +:+ key file);
                         EvUpload (upParams_of bucket file up enc ct w1)])
      with (trace w1 ++ [EvPrintln ("Uploading: " +:+ up +:+ " as " +:+ key file)]
                     ++ [EvUpload (upParams_of bucket file up enc ct w1)]).
    rewrite app_assoc, hash_errors_snoc_upload, hash_errors_snoc_println; done.
Qed.

(** C10.  [Hashfile] either ends the process (through [CheckErr]) or returns
    a hash with a nil error, whatever the path and the state of the file
    system; and the loop body of the worker, hence the whole worker, never
    prints the line of its hash-error branch. *)
Theorem Hashfile_error_always_nil (E : env) :
  (forall filename w,
     fst (Hashfile E filename w) = Exit \/
     exists hashVal, fst (Hashfile E filename w) = Ret (hashVal, None))
  /\
  (forall localFiles bucket (s3Keys : gmap string string) reUpload w,
     filter is_hash_error
            (trace (snd (UploadFileHandler E localFiles bucket s3Keys reUpload w)))
     = filter is_hash_error (trace w)).
Proof.
  split.
  - intros filename w. destruct (Hashfile_spec E filename w) as [-> | ->]; eauto.
  - intros localFiles bucket s3Keys reUpload. unfold UploadFileHandler.
    induction localFiles as [|file files IH]; intros w; [reflexivity|].
    cbn [forM_]. pose proof (upload_one_hash_errors E bucket s3Keys reUpload file w) as H1.
    unfold bind. destruct (upload_one E bucket s3Keys reUpload file w) as [[[]| |] w1];
      cbn [snd] in *; [|done..].
    by rewrite IH.
Qed.

(* ===================================================================== *)
(** ** The two tables are never hit *)
(* ===================================================================== *)

(** C2 (what the code does).  [filepath.Ext] returns the extension with its
    dot and the blacklist has its keys without: the lookup misses for every
    path, and the compression branch is taken on the size alone.  So
    [photo.png], of 501 bytes, is compressed and sent with the gzip
    encoding, although "png" is on the blacklist. *)
Theorem blacklisted_file_is_compressed :
  compressBlacklist !! "png"%string = Some true /\
  (forall file, compresses file = (500 <? Size (fileInfo file))) /\
  compresses Example.photo_file = true /\
  (let r := upload_one (Example.demo_env true) "example.com" ∅ false
                       Example.photo_file Example.photo_start in
   fst r = Ret tt /\
   map (fun i => (Key i, ContentEncoding i, Body i)) (uploads (trace (snd r)))
   = [ ("photo.png"%string, "gzip"%string, Some (Example.demo_gzip Example.photo)) ]).
Proof.
  split; [reflexivity|]. split; [exact compresses_size|].
  split; [reflexivity|]. vm_compute. split; reflexivity.
Qed.

(** C3 (what the code does).  The type table has its keys without the dot
    too, so the lookup misses for every path and the content type always
    comes from the first 512 bytes: for [style.css] the worker sniffs, prints
    the detected type and uses it, where the table has "text/css". *)
Theorem listed_extension_is_sniffed (E : env) :
  contentTypeMap !! "css"%string = Some "text/css"%string /\
  (forall p, contentTypeMap !! ToLower (Filepath.Ext p) = None) /\
  (let sniffed := DetectContentType E (Example.B "body{}" ++ repeat x00 506) in
   classify_stage E Example.style_file Example.style_start
   = (Ret sniffed,
      {| fs := fs Example.style_start; ntemp := 0; remote := ∅;
         trace := [EvPrintln ("Detected MIME: " +:+ sniffed)]; doneChan := [] |})).
Proof.
  split; [reflexivity|]. split; [exact contentTypeMap_miss|].
  cbv zeta. unfold classify_stage. rewrite contentTypeMap_miss.
  rewrite bind_os_Open_run.
  change (fs Example.style_start !! path Example.style_file)
    with (Some (Example.B "body{}")).
  reflexivity.
Qed.

Section NoPanic.
Variable E : env.

Lemma compress_stage_no_panic file w : fst (compress_stage E file w) <> Panic.
Proof.
  unfold compress_stage. destruct (compresses file); [|done].
  rewrite bind_Println_run. unfold ioutil_TempFile at 1. unfold bind at 1.
  rewrite bind_os_Open_run, CheckErr_open_err, bind_CheckErr_run.
  by destruct (match open_err _ with Some e => _ | None => _ end).
Qed.

Lemma classify_stage_no_panic file w : fst (classify_stage E file w) <> Panic.
Proof.
  unfold classify_stage. rewrite contentTypeMap_miss.
  rewrite bind_os_Open_run, bind_CheckErr_run.
  destruct (match open_err _ with Some e => _ | None => _ end); [done|].
  destruct (read512 (fs w !! path file)) as [byte512 [[]|]];
    rewrite ?bind_CheckErr_run, ?bind_ret_run;
    try (destruct (CheckErr_exits E _); [done|]); by rewrite bind_Println_run.
Qed.

(** Up to the comparison the worker does not panic: it ends the process
    or it goes on. *)
Lemma prepare_no_panic file w : fst (prepare E file w) <> Panic.
Proof.
  unfold prepare. pose proof (compress_stage_no_panic file w) as H1.
  unfold bind at 1. destruct (compress_stage E file w) as [[[up enc]| |] w1];
    cbn [fst] in *; [|done..].
  pose proof (classify_stage_no_panic file w1) as H2.
  unfold bind at 1. destruct (classify_stage E file w1) as [[ct| |] w2];
    cbn [fst] in *; [|done..].
  unfold bind at 1. destruct (Hashfile_spec E up w2) as [-> | ->]; [done|].
  by rewrite bind_ret_run.
Qed.
End NoPanic.

(** C5 (what the code does).  A file that is listed and cannot be opened,
    with the digest of the empty content in the inventory: whatever
    [CheckErr] does, the worker does not upload it and prints no hash error.
    Either [CheckErr] ends the process, or it returns and the file is hashed
    as if it were empty, and then skipped. *)
Theorem unreadable_file_is_not_uploaded :
  let s3Keys : gmap string string := remote Example.gone_start in
  let run E := upload_one E "example.com" s3Keys false Example.gone_file Example.gone_start in
  fs Example.gone_start !! path Example.gone_file = None /\
  (forall E, uploads (trace (snd (run E))) = [] /\
             filter is_hash_error (trace (snd (run E))) = [] /\
             (fst (run E) = Exit \/ fst (run E) = Ret tt)) /\
  fst (run (Example.demo_env true)) = Exit /\
  fst (run (Example.demo_env false)) = Ret tt.
Proof.
  intros s3Keys run. split; [reflexivity|].
  split; [|split; vm_compute; reflexivity].
  intros E. subst run. cbv beta.
  rewrite upload_one_hash_errors. unfold upload_one.
  pose proof (prepare_no_panic E Example.gone_file Example.gone_start) as Hn.
  destruct (bind _ _ Example.gone_start) as [o w2] eqn:H. cbn [fst snd].
  apply bind_inv in H as [([[[up enc] ct] hash] & w1 & Hp & H) | [[Hp ->] | [Hp ->]]].
  - apply prepare_spec in Hp as [(_ & _ & Hu & _) Hp].
    destruct (Hp _ _ _ _ eq_refl) as [Hh [(_ & -> & _ & Hfs & _) | (Hc & _)]];
      [|discriminate Hc].
    rewrite Hfs in Hh.
    change (MD5.hexsum _) with "d41d8cd98f00b204e9800998ecf8427e"%string in Hh.
    subst hash. rewrite compare_skip in H by reflexivity.
    injection H as <- <-. auto.
  - apply prepare_spec in Hp as [(_ & _ & Hu & _) _]. auto.
  - rewrite Hp in Hn. by destruct Hn.
Qed.

(* ===================================================================== *)
(** ** The invalidation batch *)
(* ===================================================================== *)

Lemma forM_Println_run (lines : list string) (w : world) :
  forM_ Println lines w =
  (Ret tt, {| fs := fs w; ntemp := ntemp w; remote := remote w;
              trace := trace w ++ map EvPrintln lines; doneChan := doneChan w |}).
Proof.
  revert w. induction lines as [|l lines IH]; intros w.
  - cbn. rewrite app_nil_r. by destruct w.
  - cbn [forM_]. rewrite bind_Println_run, IH. cbn. by rewrite <- app_assoc.
Qed.

Lemma invalidations_app_println (t : list event) (lines : list string) :
  invalidations (t ++ map EvPrintln lines) = invalidations t.
Proof.
  unfold invalidations. rewrite omap_app.
  assert (H : omap (fun e => match e with EvCreateInvalidation i => Some i | _ => None end)
                   (map EvPrintln lines) = []) by (by induction lines).
  rewrite H. apply app_nil_r.
Qed.

Lemma invalidations_snoc_create (t : list event) input :
  invalidations (t ++ [EvCreateInvalidation input]) = invalidations t ++ [input].
Proof. unfold invalidations. by rewrite omap_app. Qed.

Lemma invalidations_snoc_list (t : list event) :
  invalidations (t ++ [EvListDistributions]) = invalidations t.
Proof. unfold invalidations. rewrite omap_app. apply app_nil_r. Qed.

Lemma DisplayAwsErr_world E err w : snd (DisplayAwsErr E err w) = w.
Proof.
  unfold DisplayAwsErr. destruct err as [e|]; [|done].
  by destruct (DisplayAwsErr_exits E e).
Qed.

Lemma bind_forM_Println_run {B} (lines : list string) (k : unit -> M B) (w : world) :
  bind (forM_ Println lines) k w =
  k tt {| fs := fs w; ntemp := ntemp w; remote := remote w;
          trace := trace w ++ map EvPrintln lines; doneChan := doneChan w |}.
Proof. unfold bind. by rewrite forM_Println_run. Qed.

Lemma bind_ListDistributions_run {B} E (k : option (list Distribution) -> M B) w :
  bind (ListDistributions E) k w = k (distributions E) (snd (emit EvListDistributions w)).
Proof. reflexivity. Qed.

Lemma bind_CreateInvalidation_run {B} E input (k : option error -> M B) w :
  bind (CreateInvalidation E input) k w =
  k (if create_invalidation_fails E then Some ErrAws else None)
    (snd (emit (EvCreateInvalidation input) w)).
Proof. reflexivity. Qed.

(** C6.  With no changed key [InvalidCloudFront] returns at once and the
    world is as before: no call is made.  With changed keys, when the
    listing of the distributions answers with a list, one invalidation is
    created, whose items are the changed keys, all of them and in their
    order, and whose quantity is their number. *)
Theorem invalidation_once_or_never (E : env) (domain : string) (paths : list string)
    (w : world) :
  let r := InvalidCloudFront E domain paths w in
  (paths = [] -> r = (Ret tt, w)) /\
  (paths <> [] ->
   forall items, distributions E = Some items ->
     exists input,
       invalidations (trace (snd r)) = invalidations (trace w) ++ [input] /\
       Items input = paths /\
       Quantity input = Z.of_nat (List.length paths) /\
       DistributionId input = find_distribution domain items EmptyString).
Proof.
  intros r. subst r. split.
  - intros ->. reflexivity.
  - intros Hne items Hd. unfold InvalidCloudFront.
    destruct paths as [|p paths]; [done|].
    change (Nat.eqb (List.length (p :: paths)) 0) with false. cbv iota.
    rewrite bind_ListDistributions_run, Hd.
    rewrite bind_Println_run, bind_forM_Println_run, bind_CreateInvalidation_run.
    eexists. split.
    + rewrite DisplayAwsErr_world. cbn [snd emit trace].
      rewrite invalidations_snoc_create, invalidations_app_println,
        invalidations_snoc_println, invalidations_snoc_list.
      reflexivity.
    + by repeat split.
Qed.

(** The end of the end-to-end scenario: two changed keys, one batch. *)
Lemma invalidation_once_or_never_witness :
  let E := Example.demo_env true in
  let paths := [ "/a.txt"; "/b.txt" ]%string in
  let r := InvalidCloudFront E "example.com" paths Example.ab_start in
  paths <> [] /\
  distributions E = Some [ {| Id := "E1"; Aliases := ["example.com"%string] |} ] /\
  exists input,
    invalidations (trace (snd r)) = invalidations (trace Example.ab_start) ++ [input] /\
    Items input = paths /\
    Quantity input = 2 /\
    DistributionId input = "E1"%string.
Proof.
  intros E paths r.
  assert (H1 : paths <> []) by discriminate.
  assert (H2 : distributions E = Some [ {| Id := "E1"; Aliases := ["example.com"%string] |} ])
    by reflexivity.
  split; [exact H1|]. split; [exact H2|].
  exact (proj2 (invalidation_once_or_never E "example.com" paths Example.ab_start) H1 _ H2).
Defined.

(* ===================================================================== *)
(** ** Paths of the walk *)
(* ===================================================================== *)

Lemma chars_app (a b : string) : chars (a +:+ b) = chars a ++ chars b.
Proof. unfold chars. induction a as [|c a IH]; [done|]. simpl. by rewrite IH. Qed.

Lemma split_not_nil (l : list ascii) : Filepath.split l <> [].
Proof.
  destruct l as [|c l]; [done|]. simpl.
  destruct (Ascii.eqb c Filepath.slash); [done|]. by destruct (Filepath.split l).
Qed.

Lemma split_app_slash (a b : list ascii) :
  Filepath.split (a ++ Filepath.slash :: b) = Filepath.split a ++ Filepath.split b.
Proof.
  induction a as [|c a IH]; [done|].
  cbn [app Filepath.split]. rewrite IH.
  destruct (Ascii.eqb c Filepath.slash); [done|].
  pose proof (split_not_nil a). by destruct (Filepath.split a).
Qed.

Lemma split_no_slash (e : list ascii) :
  existsb (Ascii.eqb Filepath.slash) e = false -> Filepath.split e = [e].
Proof.
  induction e as [|c e IH]; [done|]. cbn [existsb Filepath.split].
  rewrite orb_false_iff. intros [Hc He]. rewrite (Ascii.eqb_sym c), Hc, IH; done.
Qed.

(** An element that is a name is written by [clean_step]. *)
Lemma clean_step_name rooted out (e : list ascii) :
  e <> [] -> Filepath.is_dot e = false -> Filepath.is_dotdot e = false ->
  Filepath.clean_step rooted out e = e :: out.
Proof.
  intros He Hd Hdd. unfold Filepath.clean_step. rewrite Hd, Hdd. by destruct e.
Qed.

Lemma join_elements_snoc (l : list (list ascii)) (e : list ascii) :
  exists pre, (pre = [] \/ exists p, pre = p ++ [Filepath.slash]) /\
              Filepath.join_elements (l ++ [e]) = pre ++ e.
Proof.
  induction l as [|x l IH].
  - exists []. auto.
  - destruct IH as (pre & Hpre & IH). cbn [app Filepath.join_elements].
    rewrite IH. destruct (l ++ [e]) eqn:Hl; [by destruct l|].
    exists (x ++ Filepath.slash :: pre). split.
    + right. destruct Hpre as [-> | [p ->]].
      * by exists x.
      * exists (x ++ Filepath.slash :: p). by rewrite <- app_assoc.
    + by rewrite <- app_assoc.
Qed.

Lemma take_element_app (e rest : list ascii) :
  existsb (Ascii.eqb Filepath.slash) e = false ->
  (rest = [] \/ exists r, rest = Filepath.slash :: r) ->
  Filepath.take_element (e ++ rest) = e.
Proof.
  intros He Hr. induction e as [|c e IH].
  - destruct Hr as [-> | [r ->]]; reflexivity.
  - cbn [existsb] in He. apply orb_false_iff in He as [Hc He].
    cbn [app Filepath.take_element]. rewrite (Ascii.eqb_sym c), Hc, IH; done.
Qed.

Lemma existsb_rev {A} (f : A -> bool) (l : list A) : existsb f (rev l) = existsb f l.
Proof.
  induction l as [|x l IH]; [done|]. cbn [rev existsb].
  rewrite existsb_app, IH. cbn. rewrite orb_false_r. apply orb_comm.
Qed.

(** The base of a path that ends with a name after a separator, or is a
    name, is the name. *)
Lemma Base_of_last (pre e : list ascii) :
  e <> [] -> existsb (Ascii.eqb Filepath.slash) e = false ->
  (pre = [] \/ exists p, pre = p ++ [Filepath.slash]) ->
  Filepath.Base (of_chars (pre ++ e)) = of_chars e.
Proof.
  intros He Hs Hpre. unfold Filepath.Base.
  destruct (of_chars (pre ++ e)) eqn:Hw.
  { apply (f_equal chars) in Hw. rewrite chars_of_chars in Hw.
    destruct pre, e; done. }
  rewrite <- Hw, chars_of_chars, rev_app_distr.
  assert (Hre : rev e <> []).
  { intros H. apply (f_equal (@rev ascii)) in H. rewrite rev_involutive in H. done. }
  assert (Hd : Filepath.drop_slashes (rev e ++ rev pre) = rev e ++ rev pre).
  { destruct (rev e) as [|c r] eqn:Hr; [done|]. cbn [app Filepath.drop_slashes].
    assert (Hc : existsb (Ascii.eqb Filepath.slash) (c :: r) = false)
      by (by rewrite <- Hr, existsb_rev).
    cbn [existsb] in Hc. apply orb_false_iff in Hc as [Hc _].
    by rewrite (Ascii.eqb_sym c), Hc. }
  rewrite Hd, take_element_app.
  - rewrite rev_involutive. by destruct e.
  - by rewrite existsb_rev.
  - destruct Hpre as [-> | [p ->]]; [by left|right].
    rewrite rev_app_distr. cbn. eauto.
Qed.

(** The clean form of a path whose last element is a name ends with that
    name, after a separator or alone. *)
Lemma Clean_last (s : string) (l : list (list ascii)) (e : list ascii) :
  s <> EmptyString ->
  Filepath.split (chars s) = l ++ [e] ->
  e <> [] -> Filepath.is_dot e = false -> Filepath.is_dotdot e = false ->
  exists pre, (pre = [] \/ exists p, pre = p ++ [Filepath.slash]) /\
              Filepath.Clean s = of_chars (pre ++ e).
Proof.
  intros Hs Hl He Hd Hdd. unfold Filepath.Clean.
  destruct s as [|c s']; [done|]. rewrite Hl, fold_left_app. cbn [fold_left].
  rewrite clean_step_name by done. cbn [rev].
  set (stk := rev (fold_left _ l [])).
  destruct (join_elements_snoc stk e) as (pre & Hpre & Hj). rewrite Hj.
  destruct (Ascii.eqb c Filepath.slash).
  - exists (Filepath.slash :: pre). split; [|done].
    right. destruct Hpre as [-> | [p ->]]; [by exists []|by exists (Filepath.slash :: p)].
  - exists pre. split; [done|]. by destruct (stk ++ [e]) eqn:Hk; [destruct stk|].
Qed.

Lemma valid_name_chars (name : string) :
  valid_name name = true ->
  chars name <> [] /\ existsb (Ascii.eqb Filepath.slash) (chars name) = false /\
  Filepath.is_dot (chars name) = false /\ Filepath.is_dotdot (chars name) = false.
Proof.
  unfold valid_name. destruct (chars name) as [|c l] eqn:Hc; [done|].
  rewrite !andb_true_iff, !negb_true_iff. intros [[H1 H2] H3]. done.
Qed.

(** What [filepath.Walk] gives as the path of an entry has the name of the
    entry as its base. *)
Lemma Base_Join (p name : string) :
  valid_name name = true -> Filepath.Base (Filepath.Join p name) = name.
Proof.
  intros Hv. destruct (valid_name_chars name Hv) as (Hne & Hs & Hd & Hdd).
  assert (Hname : name <> EmptyString) by (by intros ->).
  assert (H : exists pre, (pre = [] \/ exists q, pre = q ++ [Filepath.slash]) /\
                          Filepath.Join p name = of_chars (pre ++ chars name)).
  { unfold Filepath.Join. destruct p as [|c p'].
    - destruct name as [|d name'] eqn:Hn; [done|]. rewrite <- Hn in *.
      apply (Clean_last name []); auto. by apply split_no_slash.
    - apply (Clean_last _ (Filepath.split (chars (String c p')))); auto.
      rewrite chars_app. change (chars (String Filepath.slash name))
          with (Filepath.slash :: chars name).
        by rewrite split_app_slash, (split_no_slash (chars name)). }
  destruct H as (pre & Hpre & ->). rewrite Base_of_last by done.
  apply of_chars_chars.
Qed.

Lemma Base_not_empty (p : string) : Filepath.Base p <> EmptyString.
Proof.
  unfold Filepath.Base. destruct p as [|c p]; [done|].
  by destruct (rev _).
Qed.

Lemma Join_not_dot (p name : string) :
  valid_name name = true -> String.eqb (Filepath.Join p name) "." = false.
Proof.
  intros Hv. apply String.eqb_neq. intros H.
  pose proof (Base_Join p name Hv) as Hb. rewrite H in Hb.
  subst name. discriminate Hv.
Qed.

(* ===================================================================== *)
(** ** The files the walk sends *)
(* ===================================================================== *)

(** Induction on trees, with the property known of every entry of a
    directory. *)
Lemma node_entries_ind (P : node -> Prop) :
  (forall sz, P (File sz)) ->
  (forall entries, Forall (fun e => P (snd e)) entries -> P (Dir entries)) ->
  forall n, P n.
Proof.
  intros HF HD. fix IH 1. intros [sz|entries]; [apply HF|].
  apply HD. induction entries as [|[name child] es IHes]; constructor; [apply IH|apply IHes].
Qed.

(** The loop inside [walk] is [walk_entries]. *)
Lemma walk_Dir {S} (walkFn : string -> osFileInfo -> S -> walkErr * S) p entries s :
  Walker.walk walkFn p (Dir entries) s =
  let '(err1, s1) := walkFn p (info_of (Dir entries)) s in
  match err1 with
  | SkipDir => (SkipDir, s1)
  | WalkNil => Walker.walk_entries walkFn p entries s1
  end.
Proof.
  cbn [Walker.walk]. destruct (walkFn p _ s) as [[|] s1]; [|done].
  revert s1. induction entries as [|[name child] es IH]; intros s1; [done|].
  cbn [Walker.walk_entries]. destruct (Walker.walk walkFn _ child s1) as [[|] s2].
  - apply IH.
  - destruct (IsDir (info_of child)); [apply IH|done].
Qed.

Lemma descends_File sz names m :
  descends (File sz) names m -> names = [] /\ m = File sz.
Proof. by inversion 1. Qed.

Lemma descends_Dir entries names sz :
  descends (Dir entries) names (File sz) ->
  exists name child names',
    names = name :: names' /\ In (name, child) entries /\
    descends child names' (File sz).
Proof. inversion 1; subst. eauto 10. Qed.

Section ScanFacts.
Variable dirname : string.

(** [scan] on an entry that is not the root of a walk from ".". *)
Lemma scan_entry p info sent :
  String.eqb p "." = false ->
  scan dirname p info sent =
  (if IsDir info && hidden (Filepath.Base p) then SkipDir else WalkNil,
   if negb (IsDir info) && negb (hidden (Filepath.Base p))
   then sent ++ [ {| path := p; key := TrimPrefix (TrimPrefix p dirname) "/";
                     fileInfo := info |} ]
   else sent).
Proof.
  intros Hp. unfold scan. rewrite Hp. unfold hidden.
  by destruct (IsDir info && _).
Qed.

(** The loop over the entries of a directory at [p] goes through all of
    them and sends what each of them sends. *)
Lemma walk_entries_from_children p es :
  Forall (fun e => valid_name (fst e) && valid_tree (snd e) = true) es ->
  Forall (fun e => entry_spec dirname (snd e)) es ->
  forall sent,
    fst (Walker.walk_entries (scan dirname) p es sent) = WalkNil /\
    forall fi, In fi (snd (Walker.walk_entries (scan dirname) p es sent)) <->
      In fi sent \/
      exists cname child, In (cname, child) es /\ hidden cname = false /\
                          emitted_below dirname (Filepath.Join p cname) child fi.
Proof.
  induction es as [|[cname child] es IHes]; intros Hval Hall sent0.
  - cbn. split; [done|]. intros fi. split; [auto|]. intros [?|(? & ? & [] & _)]. done.
  - apply Forall_cons in Hval as [Hc Hval]. apply Forall_cons in Hall as [Hch Hall].
    cbn [fst snd] in Hc, Hch. apply andb_true_iff in Hc as [Hcn Hct].
    destruct (Hch Hct (Filepath.Join p cname) cname sent0
                  (Base_Join p cname Hcn) (Join_not_dot p cname Hcn)) as [He Hm].
    cbn [Walker.walk_entries].
    destruct (Walker.walk (scan dirname) (Filepath.Join p cname) child sent0)
      as [err sent1] eqn:Hw.
    cbn [fst snd] in He, Hm.
    destruct (IHes Hval Hall sent1) as [He' Hm'].
    assert (Hgo : (match err with
                   | WalkNil => Walker.walk_entries (scan dirname) p es sent1
                   | SkipDir => if IsDir (info_of child)
                                then Walker.walk_entries (scan dirname) p es sent1
                                else (SkipDir, sent1)
                   end) = Walker.walk_entries (scan dirname) p es sent1).
    { subst err. destruct (IsDir (info_of child)); [|done]. by destruct (hidden cname). }
    rewrite Hgo. split; [done|]. intros fi. rewrite Hm', Hm. split.
    + intros [[?|[Hh Hfi]] | (c2 & ch2 & Hin & Hh & Hfi)].
      * by left.
      * right. exists cname, child. split; [by left|done].
      * right. exists c2, ch2. split; [by right|done].
    + intros [?|(c2 & ch2 & [[= <- <-]|Hin] & Hh & Hfi)].
      * by left; left.
      * left. right. done.
      * right. exists c2, ch2. done.
Qed.

Lemma valid_entries entries :
  valid_tree (Dir entries) = true ->
  Forall (fun e => valid_name (fst e) && valid_tree (snd e) = true) entries.
Proof.
  cbn [valid_tree]. intros Hv. apply List.Forall_forall.
  exact (proj1 (forallb_forall _ entries) Hv).
Qed.

(** What a walk below the root sends: for an entry with a hidden name,
    nothing, and a directory is skipped; otherwise the record of the file,
    or what the entries of the directory send. *)
Lemma walk_entry_spec (n : node) : entry_spec dirname n.
Proof.
  induction n as [sz|entries IH] using node_entries_ind; intros Hv p name sent Hb Hp.
  - cbn [Walker.walk]. rewrite scan_entry, Hb by done. cbn [info_of IsDir andb negb fst snd].
    split; [done|]. intros fi. destruct (hidden name).
    + cbn [negb]. split; [auto|]. intros [?|[? _]]; done.
    + cbn [negb]. rewrite in_app_iff. cbn [In]. split.
      * intros [?|[<-|[]]]; [by left|right]. split; [done|].
        exists [], sz. split; [constructor|]. split; [constructor|]. reflexivity.
      * intros [?|[_ (names & sz' & Hd & _ & ->)]]; [by left|right; left].
        apply descends_File in Hd as [-> [= <-]]. reflexivity.
  - rewrite walk_Dir, scan_entry, Hb by done. cbn [info_of IsDir andb negb].
    destruct (hidden name) eqn:Hh.
    { cbn [fst snd]. split; [done|]. intros fi. split; [auto|]. intros [?|[? _]]; done. }
    destruct (walk_entries_from_children p entries (valid_entries entries Hv) IH sent)
      as [He Hm].
    split; [done|]. intros fi. rewrite Hm. split.
    + intros [?|(cname & child & Hin & Hh' & (names & sz & Hd & Hf & ->))]; [by left|right].
      split; [done|]. exists (cname :: names), sz.
      split; [by econstructor|]. split; [by constructor|]. reflexivity.
    + intros [?|[_ (names & sz & Hd & Hf & ->)]]; [by left|right].
      apply descends_Dir in Hd as (cname & child & names' & -> & Hin & Hd).
      apply Forall_cons in Hf as [Hh' Hf].
      exists cname, child. split; [done|]. split; [done|].
      exists names', sz. done.
Qed.

(** The entries of a directory whose own entry the walk did not skip. *)
Lemma walk_entries_spec p entries sent :
  valid_tree (Dir entries) = true ->
  forall fi, In fi (snd (Walker.walk_entries (scan dirname) p entries sent)) <->
    In fi sent \/
    exists names sz, names <> [] /\ descends (Dir entries) names (File sz) /\
                     Forall (fun name => hidden name = false) names /\
                     fi = sent_for dirname (join_all p names) sz.
Proof.
  intros Hv fi.
  assert (Hall : Forall (fun e => entry_spec dirname (snd e)) entries).
  { apply List.Forall_forall. intros e _. apply walk_entry_spec. }
  destruct (walk_entries_from_children p entries (valid_entries entries Hv) Hall sent)
    as [_ Hm].
  rewrite Hm. split.
  - intros [?|(cname & child & Hin & Hh & (names & sz & Hd & Hf & ->))]; [by left|right].
    exists (cname :: names), sz. split; [done|].
    split; [by econstructor|]. split; [by constructor|]. reflexivity.
  - intros [?|(names & sz & _ & Hd & Hf & ->)]; [by left|right].
    apply descends_Dir in Hd as (cname & child & names' & -> & Hin & Hd).
    apply Forall_cons in Hf as [Hh Hf].
    exists cname, child. split; [done|]. split; [done|]. exists names', sz. done.
Qed.
End ScanFacts.

(** *** The files sent, as a list *)

Lemma visible_Dir (entries : list (string * node)) :
  visible (Dir entries) = visible_entries entries.
Proof.
  induction entries as [|[name child] es IH]; [done|].
  cbn [visible_entries]. rewrite <- IH. reflexivity.
Qed.

Section ListFacts.
Variable dirname : string.

(** The loop over the entries of a directory at [p] sends what each entry
    sends, one entry after the other. *)
Lemma walk_entries_list p es :
  Forall (fun e => valid_name (fst e) && valid_tree (snd e) = true) es ->
  Forall (fun e => entry_list_spec dirname (snd e)) es ->
  forall sent,
    Walker.walk_entries (scan dirname) p es sent
    = (WalkNil,
       sent ++ map (fun x => sent_for dirname (join_all p (fst x)) (snd x))
                   (visible_entries es)).
Proof.
  induction es as [|[cname child] es IHes]; intros Hval Hall sent0.
  - cbn. by rewrite app_nil_r.
  - apply Forall_cons in Hval as [Hc Hval]. apply Forall_cons in Hall as [Hch Hall].
    cbn [fst snd] in Hc, Hch. apply andb_true_iff in Hc as [Hcn Hct].
    specialize (Hch Hct (Filepath.Join p cname) cname sent0
                    (Base_Join p cname Hcn) (Join_not_dot p cname Hcn)).
    cbn [Walker.walk_entries visible_entries]. rewrite Hch.
    assert (Hsame : map (fun x => sent_for dirname (join_all p (fst x)) (snd x))
                        (map (fun x => (cname :: fst x, snd x)) (visible child))
                    = map (fun x => sent_for dirname
                                      (join_all (Filepath.Join p cname) (fst x)) (snd x))
                          (visible child))
      by (rewrite map_map; reflexivity).
    destruct (IsDir (info_of child)), (hidden cname); cbn [andb];
      rewrite (IHes Hval Hall); f_equal;
      rewrite ?app_nil_r, ?map_app, ?Hsame, <- ?app_assoc; reflexivity.
Qed.

(** What a walk below the root sends, as a list. *)
Lemma walk_list (n : node) : entry_list_spec dirname n.
Proof.
  induction n as [sz|entries IH] using node_entries_ind; intros Hv p name sent Hb Hp.
  - cbn [Walker.walk]. rewrite scan_entry, Hb by done.
    cbn [info_of IsDir andb negb visible map].
    destruct (hidden name); cbn [negb]; [by rewrite app_nil_r|reflexivity].
  - rewrite walk_Dir, scan_entry, Hb by done. cbn [info_of IsDir andb negb].
    destruct (hidden name) eqn:Hh; [by rewrite app_nil_r|].
    rewrite (walk_entries_list p entries (valid_entries entries Hv) IH sent).
    by rewrite visible_Dir.
Qed.
End ListFacts.

Lemma visible_entries_In (es : list (string * node)) (names : list string) (sz : Z) :
  In (names, sz) (visible_entries es) <->
  exists cname child names',
    names = cname :: names' /\ In (cname, child) es /\ hidden cname = false /\
    In (names', sz) (visible child).
Proof.
  induction es as [|[c ch] es IH].
  - split; [done|]. by intros (? & ? & ? & _ & [] & _).
  - cbn [visible_entries]. rewrite in_app_iff, IH. split.
    + intros [Hhere | (c2 & ch2 & n2 & -> & Hin & Hh & Hv)].
      * destruct (hidden c) eqn:Hh; [done|].
        apply in_map_iff in Hhere as ([n2 sz2] & [= <- <-] & Hv).
        exists c, ch, n2. split; [done|]. split; [by left|done].
      * exists c2, ch2, n2. split; [done|]. split; [by right|done].
    + intros (c2 & ch2 & n2 & -> & [[= <- <-]|Hin] & Hh & Hv).
      * left. rewrite Hh. apply in_map_iff. by exists (n2, sz).
      * right. exists c2, ch2, n2. done.
Qed.

(** The files of the specification are those reached through names none of
    which is hidden. *)
Lemma visible_descends (n : node) :
  forall names sz,
    In (names, sz) (visible n) <->
    descends n names (File sz) /\ Forall (fun name => hidden name = false) names.
Proof.
  induction n as [sz0|entries IH] using node_entries_ind; intros names sz.
  - cbn [visible In]. split.
    + intros [[= <- <-]|[]]. split; constructor.
    + intros [Hd _]. apply descends_File in Hd as [-> [= <-]]. by left.
  - rewrite visible_Dir, visible_entries_In. rewrite List.Forall_forall in IH. split.
    + intros (c & ch & n2 & -> & Hin & Hh & Hv).
      apply (IH (c, ch) Hin) in Hv as [Hd Hf].
      split; [by econstructor|by constructor].
    + intros [Hd Hf]. apply descends_Dir in Hd as (c & ch & n2 & -> & Hin & Hd).
      apply Forall_cons in Hf as [Hh Hf]. exists c, ch, n2.
      split; [done|]. split; [done|]. split; [done|]. by apply (IH (c, ch) Hin).
Qed.

(** A root other than "." whose base name starts with a dot is skipped
    whole. *)
Lemma dot_named_root_sends_nothing (dirname : string) (entries : list (string * node)) :
  dirname <> "."%string -> hidden (Filepath.Base dirname) = true ->
  GetAllFiles dirname (Dir entries) = [].
Proof.
  intros Hn Hh. unfold GetAllFiles, Walker.Walk. rewrite walk_Dir. unfold scan.
  destruct (String.eqb_spec dirname ".") as [?|_]; [done|].
  unfold hidden in Hh. rewrite Hh. reflexivity.
Qed.

(** C7 as it is stated fails for a root such as [./]: its base name is ".",
    the walk skips it, and [visible.txt] below it is not sent. *)
Lemma root_dot_slash_sends_nothing :
  ~ (forall fi, In fi (GetAllFiles "./" (Dir Example.r_entries)) <->
       exists names sz,
         names <> [] /\ descends (Dir Example.r_entries) names (File sz) /\
         Forall (fun name => hidden name = false) names /\
         fi = sent_for "./" (join_all "./" names) sz).
Proof.
  intros H.
  assert (Hin : In (sent_for "./" (join_all "./" ["visible.txt"%string]) 5)
                   (GetAllFiles "./" (Dir Example.r_entries))).
  { apply H. exists ["visible.txt"%string], 5. split; [done|]. split.
    - econstructor; [right; right; left; reflexivity|constructor].
    - split; [by repeat constructor|reflexivity]. }
  rewrite dot_named_root_sends_nothing in Hin; [exact Hin|done|reflexivity].
Qed.

(** C7, amended.  For a root that is a directory, with entries named as a
    directory listing names them, and that is "." or has a base name that
    does not start with a dot: the records sent are, in the order of the
    walk and once each, those of the files (entries that are not
    directories) reached from the root through one name or more, none of
    which starts with a dot; so the root is not sent, a file with a hidden
    name is not sent, and nothing below a directory with a hidden name is
    sent. *)
Theorem enumerated_files_are_the_visible_files
    (dirname : string) (entries : list (string * node)) :
  valid_tree (Dir entries) = true ->
  dirname = "."%string \/ hidden (Filepath.Base dirname) = false ->
  GetAllFiles dirname (Dir entries)
  = map (fun x => sent_for dirname (join_all dirname (fst x)) (snd x))
        (visible_entries entries) /\
  (forall names sz,
     In (names, sz) (visible_entries entries) <->
     names <> [] /\ descends (Dir entries) names (File sz) /\
     Forall (fun name => hidden name = false) names) /\
  (forall fi, In fi (GetAllFiles dirname (Dir entries)) <->
     exists names sz,
       names <> [] /\ descends (Dir entries) names (File sz) /\
       Forall (fun name => hidden name = false) names /\
       fi = sent_for dirname (join_all dirname names) sz).
Proof.
  intros Hv Hroot.
  assert (Hlist : GetAllFiles dirname (Dir entries)
                  = map (fun x => sent_for dirname (join_all dirname (fst x)) (snd x))
                        (visible_entries entries)).
  { unfold GetAllFiles, Walker.Walk. rewrite walk_Dir.
    assert (Hs : scan dirname dirname (info_of (Dir entries)) [] = (WalkNil, [])).
    { unfold scan. destruct (String.eqb_spec dirname ".") as [_|Hn]; [done|].
      destruct Hroot as [?|Hh]; [done|]. unfold hidden in Hh. rewrite Hh.
      cbn [info_of IsDir negb andb]. reflexivity. }
    rewrite Hs.
    assert (Hall : Forall (fun e => entry_list_spec dirname (snd e)) entries).
    { apply List.Forall_forall. intros e _. apply walk_list. }
    by rewrite (walk_entries_list dirname dirname entries (valid_entries entries Hv) Hall). }
  assert (Hvis : forall names sz,
            In (names, sz) (visible_entries entries) <->
            names <> [] /\ descends (Dir entries) names (File sz) /\
            Forall (fun name => hidden name = false) names).
  { intros names sz. rewrite <- visible_Dir, visible_descends. split.
    - intros [Hd Hf]. split; [|done]. intros ->. inversion Hd.
    - by intros (_ & Hd & Hf). }
  split; [exact Hlist|]. split; [exact Hvis|].
  intros fi. rewrite Hlist, in_map_iff. split.
  - intros ([names sz] & <- & Hin). apply Hvis in Hin as (Hn & Hd & Hf).
    exists names, sz. done.
  - intros (names & sz & Hn & Hd & Hf & ->). exists (names, sz).
    split; [done|]. by apply Hvis.
Qed.

(** The example of the specification: under [/r], of [.git/config],
    [.hidden] and [visible.txt] only [visible.txt] is sent. *)
Lemma enumerated_files_are_the_visible_files_witness :
  let entries := Example.r_entries in
  valid_tree (Dir entries) = true /\
  ("/r"%string = "."%string \/ hidden (Filepath.Base "/r") = false) /\
  visible_entries entries = [ (["visible.txt"%string], 5) ] /\
  GetAllFiles "/r" (Dir entries)
  = [ {| path := "/r/visible.txt"; key := "visible.txt";
         fileInfo := {| IsDir := false; Size := 5 |} |} ] /\
  GetAllFiles "/r" (Dir entries)
  = map (fun x => sent_for "/r" (join_all "/r" (fst x)) (snd x)) (visible_entries entries) /\
  (forall fi, In fi (GetAllFiles "/r" (Dir entries)) <->
     exists names sz,
       names <> [] /\ descends (Dir entries) names (File sz) /\
       Forall (fun name => hidden name = false) names /\
       fi = sent_for "/r" (join_all "/r" names) sz).
Proof.
  intros entries.
  assert (H1 : valid_tree (Dir entries) = true) by reflexivity.
  assert (H2 : "/r"%string = "."%string \/ hidden (Filepath.Base "/r") = false)
    by (right; reflexivity).
  split; [exact H1|]. split; [exact H2|]. split; [reflexivity|]. split; [reflexivity|].
  destruct (enumerated_files_are_the_visible_files "/r" entries H1 H2) as (Hl & _ & Hm).
  split; [exact Hl|exact Hm].
Defined.

(* ===================================================================== *)
(** ** Two runs in a row *)
(* ===================================================================== *)

Lemma same_local_files_refl E w : same_local_files E w w.
Proof. by intros p _. Qed.

Lemma same_local_files_trans E w1 w2 w3 :
  same_local_files E w1 w2 -> same_local_files E w2 w3 -> same_local_files E w1 w3.
Proof. intros H12 H23 p Hp. by rewrite H23, H12. Qed.

Lemma file_digest_same E file w w' :
  local_path E (path file) -> same_local_files E w w' ->
  file_digest E file w' = file_digest E file w.
Proof. intros Hp Hs. unfold file_digest. by rewrite Hs. Qed.

Section RunFacts.
Variable E : env.

(** The hash of the loop body is the digest of the file, and the loop body
    up to the comparison writes temporary files only. *)
Lemma prepare_digest file w up enc ct hash w1 :
  prepare E file w = (Ret (up, enc, ct, hash), w1) ->
  local_path E (path file) ->
  hash = file_digest E file w /\
  hash = MD5.hexsum (default [] (fs w1 !! up)) /\
  same_local_files E w w1.
Proof.
  intros Hp Hl. apply prepare_spec in Hp as [_ Hp].
  destruct (Hp _ _ _ _ eq_refl) as [Hh [(Hc & -> & _ & Hfs & _) | (Hc & -> & _ & _ & Hfs)]].
  - split; [|split; [done|]].
    + unfold file_digest, upload_bytes. by rewrite Hc, Hh, Hfs.
    + intros p _. by rewrite Hfs.
  - split; [|split; [done|]].
    + unfold file_digest, upload_bytes. rewrite Hc, Hh, Hfs, lookup_insert_eq.
      by rewrite lookup_insert_ne by apply Hl.
    + intros p Hp'. rewrite Hfs. by rewrite !lookup_insert_ne by apply Hp'.
Qed.

(** A file whose digest is in the inventory under its key is not uploaded
    by a run without force, however the loop body ends. *)
Lemma upload_one_unchanged bucket (s3Keys : gmap string string) file w o w1 :
  local_path E (path file) ->
  s3Keys !! key file = Some (file_digest E file w) ->
  upload_one E bucket s3Keys false file w = (o, w1) ->
  uploads (trace w1) = uploads (trace w) /\ remote w1 = remote w /\
  doneChan w1 = doneChan w /\
  (o = Ret tt -> same_local_files E w w1).
Proof.
  intros Hl Hk H. unfold upload_one in H.
  apply bind_inv in H as [([[[up enc] ct] hash] & wp & Hp & H) | [[Hp ->] | [Hp ->]]].
  - pose proof Hp as Hq. apply prepare_spec in Hq as [(Hr & Hd & Hu & _) _].
    apply prepare_digest in Hp as (-> & _ & Hs); [|done].
    rewrite compare_skip in H by done. injection H as <- <-. done.
  - apply prepare_spec in Hp as [(Hr & Hd & Hu & _) _]. done.
  - apply prepare_spec in Hp as [(Hr & Hd & Hu & _) _]. done.
Qed.

(** A loop body that ends well, in a run without force where uploads
    succeed, leaves the digest of the file in the bucket under its key, and
    nothing else changed there. *)
Lemma upload_one_done bucket (s3Keys : gmap string string) file w w1 :
  local_path E (path file) ->
  (forall input, upload_fails E input = false) ->
  remote w !! key file = s3Keys !! key file ->
  upload_one E bucket s3Keys false file w = (Ret tt, w1) ->
  same_local_files E w w1 /\
  remote w1 !! key file = Some (file_digest E file w) /\
  (forall k, k <> key file -> remote w1 !! k = remote w !! k).
Proof.
  intros Hl Hup Hrem H. unfold upload_one in H.
  apply bind_inv in H as [([[[up enc] ct] hash] & wp & Hp & H) | [[_ [=]] | [_ [=]]]].
  pose proof Hp as Hq. apply prepare_spec in Hq as [(Hr & _) _].
  apply prepare_digest in Hp as (Hh & Hh' & Hs); [|done].
  destruct (decide (s3Keys !! key file = Some hash /\ false = false)) as [[He _]|Hno].
  - rewrite compare_skip in H by done. injection H as <-.
    split; [done|]. rewrite Hr, Hrem, He, Hh. done.
  - apply (compare_upload E _ _ _ _ _ _ _ _ _ _ _ Hno) in H
      as (_ & Hfs & _ & [(Hf & _) | (_ & Hrm & _)]).
    { by rewrite Hup in Hf. }
    split; [|split].
    + intros p Hp'. by rewrite Hfs, Hs.
    + by rewrite Hrm, lookup_insert_eq, <- Hh', Hh.
    + intros k Hk. by rewrite Hrm, lookup_insert_ne, Hr.
Qed.

(** The first run: when the worker ends well, every file it received has
    its digest in the bucket. *)
Lemma handler_leaves_digests bucket (s3Keys : gmap string string) files :
  NoDup (map key files) ->
  (forall file, In file files -> local_path E (path file)) ->
  (forall input, upload_fails E input = false) ->
  forall w w',
    (forall file, In file files -> remote w !! key file = s3Keys !! key file) ->
    UploadFileHandler E files bucket s3Keys false w = (Ret tt, w') ->
    same_local_files E w w' /\
    (forall file, In file files -> remote w' !! key file = Some (file_digest E file w)) /\
    (forall k, ~ In k (map key files) -> remote w' !! k = remote w !! k).
Proof.
  intros Hnd Hl Hup. unfold UploadFileHandler.
  induction files as [|f files IH]; intros w w' Hrem H.
  - injection H as <-. split; [apply same_local_files_refl|]. split; [by intros ? []|done].
  - cbn [forM_] in H.
    apply bind_inv in H as [([] & w1 & H1 & H) | [[_ [=]] | [_ [=]]]].
    change (map key (f :: files)) with (key f :: map key files) in Hnd.
    apply NoDup_cons in Hnd as [Hf Hnd]. rewrite list_elem_of_In in Hf.
    apply upload_one_done in H1 as (Hs1 & Hd1 & Ho1);
      [|by apply Hl; left|done|by apply Hrem; left].
    apply IH in H as (Hs & Hd & Ho); [|done|by intros; apply Hl; right|].
    2:{ intros g Hg. rewrite Ho1; [by apply Hrem; right|].
        intros Heq. apply Hf. rewrite <- Heq. by apply in_map. }
    split; [by eapply same_local_files_trans|]. split.
    + intros g [<-|Hg].
      * by rewrite Ho.
      * rewrite Hd by done. f_equal. apply file_digest_same; [|done]. apply Hl. by right.
    + intros k Hk. cbn [map In] in Hk. rewrite Ho by tauto. apply Ho1. intros ->. tauto.
Qed.

(** The second run: a worker that finds the digest of every file in the
    inventory uploads nothing, however it ends. *)
Lemma handler_uploads_nothing bucket (s3Keys : gmap string string) files :
  (forall file, In file files -> local_path E (path file)) ->
  forall w o w',
    (forall file, In file files -> s3Keys !! key file = Some (file_digest E file w)) ->
    UploadFileHandler E files bucket s3Keys false w = (o, w') ->
    uploads (trace w') = uploads (trace w) /\ doneChan w' = doneChan w /\
    remote w' = remote w.
Proof.
  intros Hl. unfold UploadFileHandler.
  induction files as [|f files IH]; intros w o w' Hk H.
  - by injection H as <- <-.
  - cbn [forM_] in H.
    apply bind_inv in H as [([] & w1 & H1 & H) | [[H1 ->] | [H1 ->]]];
      apply upload_one_unchanged in H1 as (Hu & Hr & Hd & Hs);
      try (by apply Hl; left); try (by apply Hk; left); [|done..].
    apply IH in H as (Hu' & Hd' & Hr'); [|by intros; apply Hl; right|].
    + split; [congruence|]. split; congruence.
    + intros g Hg. rewrite Hk by (by right). f_equal. symmetry.
      apply file_digest_same; [apply Hl; by right|by apply Hs].
Qed.
End RunFacts.

(** *** The inventory read from the listing *)

Lemma length_append_one (e : string) (c : ascii) :
  String.length (e +:+ String c EmptyString) = S (String.length e).
Proof. induction e as [|d e IH]; [done|]. simpl. by rewrite IH. Qed.

Lemma substring_append (e rest : string) :
  String.substring 0 (String.length e) (e +:+ rest) = e.
Proof.
  induction e as [|d e IH]; simpl.
  - by destruct rest.
  - by rewrite IH.
Qed.

(** The slice of the program removes the quotes of the listing. *)
Lemma strip_quotes_quoted (etag : string) : strip_quotes (quoted etag) = Some etag.
Proof.
  unfold strip_quotes, quoted.
  change (String.length (String quote (etag ++ String quote EmptyString)%string))
    with (S (String.length (etag +:+ String quote EmptyString))).
  rewrite length_append_one.
  change (S (S (String.length etag)) <? 2)%nat with false. cbv iota.
  change (S (S (String.length etag)) - 2)%nat with (String.length etag - 0)%nat.
  rewrite Nat.sub_0_r. cbn [String.substring]. by rewrite substring_append.
Qed.

Lemma fold_insert_union (l : list (string * string)) (acc : gmap string string) :
  NoDup l.*1 ->
  fold_left (fun m kv => <[fst kv := snd kv]> m) l acc = list_to_map l ∪ acc.
Proof.
  revert acc. induction l as [|[k v] l IH]; intros acc Hnd.
  - cbn [fold_left]. rewrite list_to_map_nil. by rewrite (left_id_L ∅ (∪)).
  - rewrite fmap_cons in Hnd. apply NoDup_cons in Hnd as [Hk Hnd].
    cbn [fold_left fst snd]. rewrite IH by done. rewrite list_to_map_cons.
    rewrite <- insert_union_l. symmetry. apply insert_union_r.
    by apply not_elem_of_list_to_map_1.
Qed.

Lemma read_listing_run (l : list (string * string)) (acc : gmap string string) w :
  read_listing (map (fun kv => (fst kv, quoted (snd kv))) l) acc w
  = (Ret (fold_left (fun m kv => <[fst kv := snd kv]> m) l acc), w).
Proof.
  revert acc. induction l as [|[k v] l IH]; intros acc; [done|].
  cbn [map read_listing fst snd]. rewrite strip_quotes_quoted. apply IH.
Qed.

(** A run whose listing succeeds works with the bucket as its inventory. *)
Lemma Sync_run E bucket path tree reUpload concurrentNum w :
  list_objects_fails E = false ->
  Sync E bucket path tree reUpload concurrentNum w
  = ((if concurrentNum <? 0 then panic
      else if concurrentNum =? 0 then ret tt
      else UploadFileHandler E (GetAllFiles path tree) bucket (remote w) reUpload) ;;
     let* updatedKeys := read_doneChan E in
     InvalidCloudFront E bucket updatedKeys) (snd (emit (EvListObjects bucket) w)).
Proof.
  intros Hl. unfold Sync, ListObjectsV2Pages. unfold bind at 1. rewrite bind_emit_run, Hl.
  cbv beta iota. cbn [snd emit remote]. unfold bind at 1. rewrite read_listing_run.
  cbv beta iota. rewrite fold_insert_union by apply NoDup_fst_map_to_list.
  rewrite list_to_map_to_list, (right_id_L ∅ (∪)).
  by rewrite bind_DisplayAwsErr_run.
Qed.

Lemma uploads_snoc_other (t : list event) (e : event) :
  (forall input, e <> EvUpload input) -> uploads (t ++ [e]) = uploads t.
Proof.
  intros He. unfold uploads. rewrite omap_app. destruct e; cbn; rewrite ?app_nil_r; try done.
  by destruct (He input).
Qed.

Lemma uploads_app_println (t : list event) (lines : list string) :
  uploads (t ++ map EvPrintln lines) = uploads t.
Proof.
  unfold uploads. rewrite omap_app.
  assert (H : omap (fun e => match e with EvUpload i => Some i | _ => None end)
                   (map EvPrintln lines) = []) by (by induction lines).
  rewrite H. apply app_nil_r.
Qed.

(** The invalidation uploads nothing and leaves the files and the bucket. *)
Lemma InvalidCloudFront_frame E domain paths w :
  let w' := snd (InvalidCloudFront E domain paths w) in
  uploads (trace w') = uploads (trace w) /\ remote w' = remote w /\ fs w' = fs w.
Proof.
  unfold InvalidCloudFront. destruct (Nat.eqb _ 0); [done|].
  rewrite bind_ListDistributions_run. destruct (distributions E) as [items|].
  - rewrite bind_Println_run, bind_forM_Println_run, bind_CreateInvalidation_run.
    rewrite DisplayAwsErr_world. cbn [snd emit trace remote fs].
    rewrite uploads_snoc_other, uploads_app_println, uploads_snoc_println,
      uploads_snoc_other; done.
  - cbn [panic snd emit trace remote fs]. by rewrite uploads_snoc_other.
Qed.

(** C9 as it is stated fails with the force flag: the second run of a
    forced sync of the example site uploads both files again. *)
Lemma forced_second_run_uploads_again :
  map Key (second_run_uploads (Example.demo_env true) "example.com" "site"
             Example.ab_tree true 4 Example.ab_start)
  = [ "a.txt"; "b.txt" ]%string.
Proof. vm_compute. reflexivity. Qed.

(** C9, amended.  Without the force flag, with a listing that succeeds and
    uploads that succeed, distinct keys for the files enumerated and
    temporary files that are none of them: when the first run returns, a
    second run on the same tree, from the files and the bucket the first
    run left, uploads nothing. *)
Theorem second_run_uploads_nothing
    (E : env) (bucket root : string) (tree : node) (concurrentNum : Z) (w : world) :
  list_objects_fails E = false ->
  (forall input, upload_fails E input = false) ->
  NoDup (map key (GetAllFiles root tree)) ->
  (forall file, In file (GetAllFiles root tree) -> local_path E (path file)) ->
  fst (Sync E bucket root tree false concurrentNum w) = Ret tt ->
  second_run_uploads E bucket root tree false concurrentNum w = [].
Proof.
  intros Hlist Hup Hnd Hloc Hret. unfold second_run_uploads.
  rewrite (Sync_run E bucket root tree false concurrentNum (next_run _)) by done.
  rewrite Sync_run in Hret |- * by done.
  set (w0 := snd (emit (EvListObjects bucket) w)) in *.
  destruct (concurrentNum <? 0) eqn:Hneg; [by rewrite bind_panic_run in Hret|].
  destruct (concurrentNum =? 0) eqn:Hzero.
  - (* no worker: nothing is received, in either run *)
    rewrite !bind_ret_run. unfold bind, read_doneChan. cbn [snd emit doneChan next_run].
    apply InvalidCloudFront_frame.
  - revert Hret. unfold bind, read_doneChan.
    destruct (UploadFileHandler E (GetAllFiles root tree) bucket (remote w) false w0)
      as [oh wh] eqn:Hh.
    destruct oh as [[]| |]; [intros _|discriminate..].
    apply handler_leaves_digests in Hh as (Hs & Hd & _); [|done..].
    destruct (InvalidCloudFront_frame E bucket (take (appended_at_wait E (doneChan wh)) (doneChan wh)) wh) as (_ & Hr1 & Hf1).
    set (w1 := snd (InvalidCloudFront E bucket (take (appended_at_wait E (doneChan wh)) (doneChan wh)) wh)) in *.
    set (w2 := snd (emit (EvListObjects bucket) (next_run w1))).
    assert (Hs2 : same_local_files E w0 w2).
    { intros p Hp. unfold w2. cbn [snd emit fs next_run]. rewrite Hf1. by apply Hs. }
    destruct (UploadFileHandler E (GetAllFiles root tree) bucket (remote (next_run w1))
                false w2) as [oh2 wh2] eqn:Hh2.
    apply handler_uploads_nothing in Hh2 as (Hu2 & Hd2 & _); [|done|].
    2:{ intros f Hf. cbn [remote next_run]. rewrite Hr1, Hd by done. f_equal.
        symmetry. apply file_digest_same; [by apply Hloc|done]. }
    destruct oh2 as [[]| |]; cbn [snd]; [|exact Hu2..].
    destruct (InvalidCloudFront_frame E bucket (take (appended_at_wait E (doneChan wh2)) (doneChan wh2)) wh2) as (Hu3 & _).
    rewrite Hu3. exact Hu2.
Qed.

(** Two runs on the example site without the force flag: the first uploads
    [a.txt] and [b.txt], the second nothing. *)
Lemma second_run_uploads_nothing_witness :
  let E := Example.demo_env true in
  let w := Example.ab_start in
  list_objects_fails E = false /\
  (forall input, upload_fails E input = false) /\
  NoDup (map key (GetAllFiles "site" Example.ab_tree)) /\
  (forall file, In file (GetAllFiles "site" Example.ab_tree) ->
                local_path E (path file)) /\
  fst (Sync E "example.com" "site" Example.ab_tree false 4 w) = Ret tt /\
  map Key (uploads (trace (snd (Sync E "example.com" "site" Example.ab_tree false 4 w))))
  = [ "a.txt"; "b.txt" ]%string /\
  second_run_uploads E "example.com" "site" Example.ab_tree false 4 w = [].
Proof.
  intros E w.
  assert (H1 : list_objects_fails E = false) by reflexivity.
  assert (H2 : forall input, upload_fails E input = false) by reflexivity.
  assert (H3 : NoDup (map key (GetAllFiles "site" Example.ab_tree))).
  { change (NoDup [ "a.txt"; "b.txt" ]%string). apply NoDup_cons. split.
    - rewrite list_elem_of_In. intros [H|[]]. discriminate H.
    - apply NoDup_singleton. }
  assert (H4 : forall file, In file (GetAllFiles "site" Example.ab_tree) ->
                            local_path E (path file)).
  { intros file [<-|[<-|[]]] k; cbn; discriminate. }
  assert (H5 : fst (Sync E "example.com" "site" Example.ab_tree false 4 w) = Ret tt)
    by (vm_compute; reflexivity).
  split; [exact H1|]. split; [exact H2|]. split; [exact H3|]. split; [exact H4|].
  split; [exact H5|]. split; [vm_compute; reflexivity|].
  exact (second_run_uploads_nothing E "example.com" "site" Example.ab_tree 4 w
           H1 H2 H3 H4 H5).
Defined.

(* ===================================================================== *)
(** ** The end-to-end scenario *)
(* ===================================================================== *)

(** The inventory holds [a.txt] with the digest of the empty content; the
    tree has [a.txt] with other content and a new [b.txt].  Both are
    uploaded, the changed keys are [/a.txt] and [/b.txt], and one
    invalidation is made, with these two paths. *)
Example end_to_end_scenario :
  let w := snd (Sync (Example.demo_env true) "example.com" "site"
                     Example.ab_tree false 4 Example.ab_start) in
  map Key (uploads (trace w)) = [ "a.txt"; "b.txt" ]%string /\
  doneChan w = [ "/a.txt"; "/b.txt" ]%string /\
  map Items (invalidations (trace w)) = [ [ "/a.txt"; "/b.txt" ]%string ] /\
  remote w !! "a.txt"%string = Some (MD5.hexsum (Example.B "hello")) /\
  remote w !! "b.txt"%string = Some (MD5.hexsum (Example.B "new")).
Proof. vm_compute. repeat split; reflexivity. Qed.

(* ===================================================================== *)
(** ** Further properties: the inventory *)
(* ===================================================================== *)

(** X1.  The slice [etag[1 : len(etag)-1]] removes the first and the last
    byte of an entity tag, whatever they are, and stores the rest under the
    key; on an entity tag shorter than two bytes it panics, and the run ends
    before any file is enumerated. *)
Theorem listing_strips_first_and_last_byte :
  (forall k a b etag rest (s3Keys : gmap string string) w,
     read_listing ((k, String a (etag +:+ String b EmptyString)) :: rest) s3Keys w
     = read_listing rest (<[k := etag]> s3Keys) w) /\
  (forall k rest (s3Keys : gmap string string) w,
     read_listing ((k, EmptyString) :: rest) s3Keys w = (Panic, w)) /\
  (forall k c rest (s3Keys : gmap string string) w,
     read_listing ((k, String c EmptyString) :: rest) s3Keys w = (Panic, w)).
Proof.
  split; [|split; reflexivity].
  intros k a b etag rest s3Keys w. cbn [read_listing].
  assert (H : strip_quotes (String a (etag +:+ String b EmptyString)) = Some etag).
  { unfold strip_quotes.
    change (String.length (String a (etag +:+ String b EmptyString)))
      with (S (String.length (etag +:+ String b EmptyString))).
    rewrite length_append_one.
    change (S (S (String.length etag)) <? 2)%nat with false. cbv iota.
    change (S (S (String.length etag)) - 2)%nat with (String.length etag - 0)%nat.
    rewrite Nat.sub_0_r. cbn [String.substring]. by rewrite substring_append. }
  by rewrite H.
Qed.

(** The inventory a failed listing leaves is the part of the bucket that
    was fetched. *)
Lemma fetched_listing_run (P : string * string -> Prop) `{!forall kv, Decision (P kv)}
    (m : gmap string string) w :
  read_listing (map (fun kv => (fst kv, quoted (snd kv))) (filter P (map_to_list m))) ∅ w
  = (Ret (filter P m), w).
Proof.
  rewrite read_listing_run. rewrite fold_insert_union.
  - by rewrite (right_id_L ∅ (∪)), <- map_filter_alt.
  - eapply sublist_NoDup; [apply (NoDup_fst_map_to_list m)|].
    apply fmap_sublist, sublist_filter.
Qed.

Lemma inventory_listed E w : list_objects_fails E = false -> inventory E w = remote w.
Proof. unfold inventory. by intros ->. Qed.

(** The whole of [Sync], by the result of the listing. *)
Lemma Sync_unfold E bucket root tree reUpload concurrentNum w :
  Sync E bucket root tree reUpload concurrentNum w
  = let w0 := snd (emit (EvListObjects bucket) w) in
    if list_objects_fails E
    then if DisplayAwsErr_exits E ErrAws then (Exit, w0)
         else after_listing E bucket root tree reUpload concurrentNum (inventory E w) w0
    else after_listing E bucket root tree reUpload concurrentNum (inventory E w) w0.
Proof.
  cbv zeta. unfold inventory. destruct (list_objects_fails E) eqn:Hl.
  - unfold Sync, ListObjectsV2Pages. unfold bind at 1. rewrite bind_emit_run, Hl.
    cbv beta iota. cbn [snd emit remote]. unfold bind at 1.
    rewrite fetched_listing_run. cbv beta iota.
    rewrite bind_DisplayAwsErr_run. by destruct (DisplayAwsErr_exits E ErrAws).
  - by rewrite Sync_run.
Qed.

(* ===================================================================== *)
(** ** Further properties: the distribution *)
(* ===================================================================== *)

(** The inner loop: the id of the distribution replaces the current one when
    an alias is the domain. *)
Lemma alias_loop domain (d : Distribution) (id : string) :
  fold_left (fun id cname => if String.eqb cname domain then Id d else id) (Aliases d) id
  = if serves domain d then Id d else id.
Proof.
  unfold serves. revert id. induction (Aliases d) as [|a l IH]; intros id; [done|].
  cbn [fold_left existsb]. rewrite IH, (String.eqb_sym domain a).
  destruct (String.eqb a domain); [|done]. cbn. by destruct (existsb _ l).
Qed.

Lemma find_distribution_none domain items :
  Forall (fun d => serves domain d = false) items ->
  find_distribution domain items EmptyString = EmptyString.
Proof.
  induction 1 as [|d items Hd _ IH]; [done|].
  cbn [find_distribution]. rewrite alias_loop, Hd. exact IH.
Qed.

Lemma find_distribution_first domain pre d post :
  Forall (fun d' => serves domain d' = false \/ Id d' = EmptyString) pre ->
  serves domain d = true -> Id d <> EmptyString ->
  find_distribution domain (pre ++ d :: post) EmptyString = Id d.
Proof.
  intros Hpre Hd Hid. induction Hpre as [|d' pre Hd' _ IH].
  - cbn [app find_distribution]. rewrite alias_loop, Hd.
    apply String.eqb_neq in Hid. by rewrite Hid.
  - cbn [app find_distribution]. rewrite alias_loop.
    assert (He : (if serves domain d' then Id d' else EmptyString) = EmptyString).
    { destruct Hd' as [-> | Hd']; [done|]. by destruct (serves domain d'). }
    rewrite He. exact IH.
Qed.

Lemma find_distribution_sound domain items :
  find_distribution domain items EmptyString <> EmptyString ->
  exists d, In d items /\ serves domain d = true /\
            Id d = find_distribution domain items EmptyString.
Proof.
  induction items as [|d items IH]; [done|].
  cbn [find_distribution]. rewrite alias_loop.
  destruct (serves domain d) eqn:Hd.
  - destruct (String.eqb_spec (Id d) EmptyString) as [He|Hne]; cbn [negb].
    + rewrite He. intros H. destruct (IH H) as (d' & Hin & Hs & Hid).
      exists d'. split; [by right|done].
    + intros _. exists d. split; [by left|done].
  - cbn. intros H. destruct (IH H) as (d' & Hin & Hs & Hid).
    exists d'. split; [by right|done].
Qed.

(** What [InvalidCloudFront] adds to the invalidations: nothing, or one
    batch with the paths it was given. *)
Lemma InvalidCloudFront_batches E domain paths w :
  let w' := snd (InvalidCloudFront E domain paths w) in
  invalidations (trace w') = invalidations (trace w) \/
  exists items,
    paths <> [] /\ distributions E = Some items /\
    invalidations (trace w')
    = invalidations (trace w)
      ++ [ {| DistributionId := find_distribution domain items EmptyString;
              CallerReference := GetCallerReference E;
              Quantity := Z.of_nat (List.length paths);
              Items := paths |} ].
Proof.
  unfold InvalidCloudFront. destruct paths as [|p paths]; [by left|].
  change (Nat.eqb (List.length (p :: paths)) 0) with false. cbv iota.
  rewrite bind_ListDistributions_run. destruct (distributions E) as [items|].
  - right. exists items. split; [done|]. split; [done|].
    rewrite bind_Println_run, bind_forM_Println_run, bind_CreateInvalidation_run.
    rewrite DisplayAwsErr_world. cbn [snd emit trace].
    by rewrite invalidations_snoc_create, invalidations_app_println,
      invalidations_snoc_println, invalidations_snoc_list.
  - left. cbn [panic snd emit trace]. apply invalidations_snoc_list.
Qed.

(** X3.  The distribution that is invalidated is the first one, in the order
    of the listing, that has the domain among its aliases and an id that is
    not empty; a distribution before it that has the alias and an empty id
    is passed over. *)
Theorem first_serving_distribution_is_invalidated
    (E : env) (domain : string) (paths : list string) (w : world)
    (pre post : list Distribution) (d : Distribution) :
  paths <> [] ->
  distributions E = Some (pre ++ d :: post) ->
  Forall (fun d' => serves domain d' = false \/ Id d' = EmptyString) pre ->
  serves domain d = true -> Id d <> EmptyString ->
  exists input,
    invalidations (trace (snd (InvalidCloudFront E domain paths w)))
    = invalidations (trace w) ++ [input] /\
    DistributionId input = Id d /\ Items input = paths.
Proof.
  intros Hp Hd Hpre Hs Hid.
  destruct (InvalidCloudFront_batches E domain paths w) as [Hn | (items & _ & Hi & Hb)].
  - exfalso. revert Hn. unfold InvalidCloudFront. destruct paths as [|p paths]; [done|].
    change (Nat.eqb (List.length (p :: paths)) 0) with false. cbv iota.
    rewrite bind_ListDistributions_run, Hd.
    rewrite bind_Println_run, bind_forM_Println_run, bind_CreateInvalidation_run.
    rewrite DisplayAwsErr_world. cbn [snd emit trace].
    rewrite invalidations_snoc_create, invalidations_app_println,
      invalidations_snoc_println, invalidations_snoc_list.
    intros H. apply (f_equal List.length) in H. rewrite length_app in H. cbn in H. lia.
  - rewrite Hd in Hi. injection Hi as <-. eexists. split; [exact Hb|].
    cbn [DistributionId Items]. split; [|done]. by apply find_distribution_first.
Qed.

(** Of the two distributions of the example the second serves the domain. *)
Lemma first_serving_distribution_is_invalidated_witness :
  let E := More.failing_env in
  let w := Example.start [] [] in
  let pre := [ {| Id := "E0"; Aliases := ["other.org"; "www.other.org"] |} ]%string in
  let d := {| Id := "E1"; Aliases := ["example.com"] |}%string in
  distributions E = Some (pre ++ d :: []) /\
  serves "example.com" d = true /\
  exists input,
    invalidations (trace (snd (InvalidCloudFront E "example.com" ["/a.txt"]%string w)))
    = invalidations (trace w) ++ [input] /\
    DistributionId input = Id d /\ Items input = ["/a.txt"]%string.
Proof.
  intros E w pre d.
  assert (H1 : ["/a.txt"]%string <> []) by discriminate.
  assert (H2 : distributions E = Some (pre ++ d :: [])) by reflexivity.
  assert (H3 : Forall (fun d' => serves "example.com" d' = false \/ Id d' = EmptyString) pre)
    by (constructor; [left; reflexivity|constructor]).
  assert (H4 : serves "example.com" d = true) by reflexivity.
  assert (H5 : Id d <> EmptyString) by discriminate.
  split; [exact H2|]. split; [exact H4|].
  exact (first_serving_distribution_is_invalidated
           E "example.com" ["/a.txt"]%string w pre [] d H1 H2 H3 H4 H5).
Defined.

(** X4.  When no distribution has the domain among its aliases, the
    invalidation is created all the same, with an empty distribution id. *)
Theorem unknown_domain_invalidates_empty_id
    (E : env) (domain : string) (paths : list string) (w : world)
    (items : list Distribution) :
  paths <> [] ->
  distributions E = Some items ->
  Forall (fun d => serves domain d = false) items ->
  exists input,
    invalidations (trace (snd (InvalidCloudFront E domain paths w)))
    = invalidations (trace w) ++ [input] /\
    DistributionId input = EmptyString /\ Items input = paths.
Proof.
  intros Hp Hd Hno.
  destruct (InvalidCloudFront_batches E domain paths w) as [Hn | (items' & _ & Hi & Hb)].
  - exfalso. revert Hn. unfold InvalidCloudFront. destruct paths as [|p paths]; [done|].
    change (Nat.eqb (List.length (p :: paths)) 0) with false. cbv iota.
    rewrite bind_ListDistributions_run, Hd.
    rewrite bind_Println_run, bind_forM_Println_run, bind_CreateInvalidation_run.
    rewrite DisplayAwsErr_world. cbn [snd emit trace].
    rewrite invalidations_snoc_create, invalidations_app_println,
      invalidations_snoc_println, invalidations_snoc_list.
    intros H. apply (f_equal List.length) in H. rewrite length_app in H. cbn in H. lia.
  - rewrite Hd in Hi. injection Hi as <-. eexists. split; [exact Hb|].
    cbn [DistributionId Items]. split; [|done]. by apply find_distribution_none.
Qed.

(** A domain none of the two distributions of the example serves. *)
Lemma unknown_domain_invalidates_empty_id_witness :
  let E := More.failing_env in
  let w := Example.start [] [] in
  distributions E = Some More.two_distributions /\
  Forall (fun d => serves "nowhere.net" d = false) More.two_distributions /\
  exists input,
    invalidations (trace (snd (InvalidCloudFront E "nowhere.net" ["/a.txt"]%string w)))
    = invalidations (trace w) ++ [input] /\
    DistributionId input = EmptyString /\ Items input = ["/a.txt"]%string.
Proof.
  intros E w.
  assert (H1 : ["/a.txt"]%string <> []) by discriminate.
  assert (H2 : distributions E = Some More.two_distributions) by reflexivity.
  assert (H3 : Forall (fun d => serves "nowhere.net" d = false) More.two_distributions)
    by (repeat constructor).
  split; [exact H2|]. split; [exact H3|].
  exact (unknown_domain_invalidates_empty_id
           E "nowhere.net" ["/a.txt"]%string w More.two_distributions H1 H2 H3).
Defined.

(** X5.  An id that is not empty in an invalidation is the id of a
    distribution of the listing that has the domain among its aliases: no
    other distribution is ever invalidated. *)
Theorem invalidated_distribution_serves_domain
    (E : env) (domain : string) (paths : list string) (w : world)
    (input : CreateInvalidationInput) :
  invalidations (trace (snd (InvalidCloudFront E domain paths w)))
  = invalidations (trace w) ++ [input] ->
  DistributionId input <> EmptyString ->
  exists items d,
    distributions E = Some items /\ In d items /\
    serves domain d = true /\ Id d = DistributionId input.
Proof.
  intros Hi Hid.
  destruct (InvalidCloudFront_batches E domain paths w) as [Hn | (items & _ & Hd & Hb)].
  - rewrite Hn in Hi. apply (f_equal List.length) in Hi.
    rewrite length_app in Hi. cbn in Hi. lia.
  - rewrite Hb in Hi. apply app_inv_head in Hi. injection Hi as <-.
    cbn [DistributionId] in *.
    destruct (find_distribution_sound domain items Hid) as (d & Hin & Hs & Hd').
    exists items, d. done.
Qed.

(** The invalidation of the example names the distribution of the domain. *)
Lemma invalidated_distribution_serves_domain_witness :
  let E := More.failing_env in
  let w := Example.start [] [] in
  invalidations (trace (snd (InvalidCloudFront E "example.com" ["/a.txt"]%string w)))
  = invalidations (trace w) ++ [More.one_invalidation] /\
  exists items d,
    distributions E = Some items /\ In d items /\
    serves "example.com" d = true /\ Id d = "E1"%string.
Proof.
  intros E w.
  assert (H1 : invalidations
                 (trace (snd (InvalidCloudFront E "example.com" ["/a.txt"]%string w)))
               = invalidations (trace w) ++ [More.one_invalidation])
    by (vm_compute; reflexivity).
  assert (H2 : DistributionId More.one_invalidation <> EmptyString) by discriminate.
  split; [exact H1|].
  exact (invalidated_distribution_serves_domain
           E "example.com" ["/a.txt"]%string w More.one_invalidation H1 H2).
Defined.

(* ===================================================================== *)
(** ** Further properties: the worker *)
(* ===================================================================== *)

Section WorkerFacts.
Variable E : env.

Lemma compress_stage_local file w :
  same_local_files E w (snd (compress_stage E file w)).
Proof.
  unfold compress_stage. destruct (compresses file); [|apply same_local_files_refl].
  rewrite bind_Println_run. unfold ioutil_TempFile at 1. unfold bind at 1.
  cbn [snd emit fs ntemp remote trace doneChan].
  rewrite bind_os_Open_run, CheckErr_open_err, bind_CheckErr_run.
  destruct (match open_err _ with Some e => _ | None => _ end); intros p Hp; cbn.
  - by rewrite lookup_insert_ne by apply Hp.
  - by rewrite !lookup_insert_ne by apply Hp.
Qed.

(** Up to the comparison the worker writes temporary files only, however it
    ends. *)
Lemma prepare_local file w : same_local_files E w (snd (prepare E file w)).
Proof.
  unfold prepare. pose proof (compress_stage_local file w) as H1.
  unfold bind at 1. destruct (compress_stage E file w) as [[[up enc]| |] w1];
    cbn [snd] in *; [|done..].
  unfold bind at 1. destruct (classify_stage E file w1) as [[ct| |] w2] eqn:Hc;
    apply classify_stage_spec in Hc as (_ & Hfs & _); cbn [snd].
  2,3: intros p Hp; rewrite Hfs; by apply H1.
  unfold bind at 1. destruct (Hashfile_spec E up w2) as [-> | ->]; cbn [snd].
  - intros p Hp. rewrite Hfs. by apply H1.
  - rewrite bind_ret_run. cbn [ret snd]. intros p Hp. rewrite Hfs. by apply H1.
Qed.

(** Everything one turn of the loop of the worker can do. *)
Lemma upload_one_effects bucket (s3Keys : gmap string string) reUpload file w o w' :
  upload_one E bucket s3Keys reUpload file w = (o, w') ->
  same_local_files E w w' /\
  ((uploads (trace w') = uploads (trace w) /\ remote w' = remote w /\
    doneChan w' = doneChan w) \/
   exists input,
     uploads (trace w') = uploads (trace w) ++ [input] /\
     fixed_attributes bucket input /\ Key input = key file /\
     ContentEncoding input
     = (if 500 <? Size (fileInfo file) then "gzip"%string else EmptyString) /\
     ((upload_fails E input = true /\ remote w' = remote w /\
       doneChan w' = doneChan w /\ (o = Exit \/ o = Ret tt)) \/
      (upload_fails E input = false /\
       remote w' = <[key file := MD5.hexsum (default [] (Body input))]> (remote w) /\
       ((exists u, URL.ParseRequestURI ("/" +:+ key file) = Some u /\
                   doneChan w' = doneChan w ++ [URL.String_ u] /\ o = Ret tt) \/
        (URL.ParseRequestURI ("/" +:+ key file) = None /\
         doneChan w' = doneChan w /\ o = Panic))))).
Proof.
  intros H. pose proof (prepare_local file w) as Hloc. unfold upload_one in H.
  apply bind_inv in H as [([[[up enc] ct] hash] & wp & Hp & H) | [[Hp ->] | [Hp ->]]];
    rewrite Hp in Hloc; cbn [snd] in Hloc;
    apply prepare_spec in Hp as [(Hr & Hd & Hu & _) Hp]; [|split; [done|by left]..].
  destruct (decide (s3Keys !! key file = Some hash /\ reUpload = false)) as [[He ->]|Hno].
  { rewrite compare_skip in H by done. injection H as <- <-. split; [done|by left]. }
  apply (compare_upload E _ _ _ _ _ _ _ _ _ _ _ Hno) in H as (Ht & Hfs & _ & Hcases).
  split; [intros p Hp'; rewrite Hfs; by apply Hloc|]. right.
  exists (upParams_of bucket file up enc ct wp).
  split; [|split; [done|split; [done|split]]].
  - unfold uploads in *. rewrite Ht, omap_app, Hu. reflexivity.
  - cbn [upParams_of ContentEncoding]. rewrite <- compresses_size.
    by destruct (Hp _ _ _ _ eq_refl) as [_ [(-> & _ & -> & _) | (-> & _ & -> & _)]].
  - destruct Hcases as [(Hf & Hrm & Hdc & Ho) | (Hf & Hrm & Hdc)]; [left|right].
    + rewrite Hrm, Hdc, Hr, Hd. done.
    + split; [done|]. split; [by rewrite Hrm, Hr|].
      destruct Hdc as [(u & Hu' & Hdc & Ho) | (Hu' & Hdc & Ho)]; [left|right].
      * exists u. by rewrite Hdc, Hd.
      * by rewrite Hdc, Hd.
Qed.
End WorkerFacts.

Section HandlerFacts.
Variable E : env.

Lemma handler_local files bucket (s3Keys : gmap string string) reUpload w :
  same_local_files E w (snd (UploadFileHandler E files bucket s3Keys reUpload w)).
Proof.
  unfold UploadFileHandler. revert w. induction files as [|f files IH]; intros w.
  - apply same_local_files_refl.
  - cbn [forM_]. unfold bind.
    destruct (upload_one E bucket s3Keys reUpload f w) as [o w1] eqn:H1.
    apply upload_one_effects in H1 as [Hl _].
    destruct o as [[]| |]; cbn [snd]; [|done..].
    eapply same_local_files_trans; [exact Hl|apply IH].
Qed.

Lemma handler_uploads files bucket (s3Keys : gmap string string) reUpload w :
  exists new,
    uploads (trace (snd (UploadFileHandler E files bucket s3Keys reUpload w)))
    = uploads (trace w) ++ new /\
    Forall (fun input =>
              fixed_attributes bucket input /\
              exists file, In file files /\ Key input = key file /\
                ContentEncoding input
                = (if 500 <? Size (fileInfo file) then "gzip"%string else EmptyString))
           new.
Proof.
  unfold UploadFileHandler. revert w. induction files as [|f files IH]; intros w.
  - exists []. by rewrite app_nil_r.
  - cbn [forM_]. unfold bind.
    destruct (upload_one E bucket s3Keys reUpload f w) as [o w1] eqn:H1.
    apply upload_one_effects in H1 as [_ H1].
    assert (Hone : exists new1,
               uploads (trace w1) = uploads (trace w) ++ new1 /\
               Forall (fun input =>
                         fixed_attributes bucket input /\
                         exists file, In file (f :: files) /\ Key input = key file /\
                           ContentEncoding input
                           = (if 500 <? Size (fileInfo file) then "gzip"%string
                              else EmptyString)) new1).
    { destruct H1 as [(Hu & _) | (input & Hu & Hfix & Hk & Henc & _)].
      - exists []. by rewrite app_nil_r.
      - exists [input]. split; [done|]. constructor; [|done].
        split; [done|]. exists f. split; [by left|done]. }
    destruct Hone as (new1 & Hu1 & Hn1).
    destruct o as [[]| |]; cbn [snd]; [|by exists new1..].
    destruct (IH w1) as (new2 & Hu2 & Hn2). exists (new1 ++ new2).
    split; [by rewrite Hu2, Hu1, app_assoc|]. apply Forall_app. split; [done|].
    eapply Forall_impl; [exact Hn2|]. intros input (Hfix & file & Hin & Hrest).
    split; [done|]. exists file. split; [by right|done].
Qed.

Lemma handler_sends_slash_paths files bucket (s3Keys : gmap string string) reUpload w :
  exists sent,
    doneChan (snd (UploadFileHandler E files bucket s3Keys reUpload w))
    = doneChan w ++ sent /\
    Forall (fun k => starts_with "/"%char k = true) sent.
Proof.
  unfold UploadFileHandler. revert w. induction files as [|f files IH]; intros w.
  - exists []. by rewrite app_nil_r.
  - cbn [forM_]. unfold bind.
    destruct (upload_one E bucket s3Keys reUpload f w) as [o w1] eqn:H1.
    apply upload_one_effects in H1 as [_ H1].
    assert (Hone : exists sent1, doneChan w1 = doneChan w ++ sent1 /\
                                 Forall (fun k => starts_with "/"%char k = true) sent1).
    { destruct H1 as [(_ & _ & Hd) | (input & _ & _ & _ & _ &
                        [(_ & _ & Hd & _) | (_ & _ & [(u & Hu & Hd & _) | (_ & Hd & _)])])].
      1,2,4: exists []; by rewrite app_nil_r.
      exists [URL.String_ u]. split; [done|]. constructor; [|done].
      by eapply parsed_key_starts_with_slash. }
    destruct Hone as (sent1 & Hd1 & Hs1).
    destruct o as [[]| |]; cbn [snd]; [|by exists sent1..].
    destruct (IH w1) as (sent2 & Hd2 & Hs2). exists (sent1 ++ sent2).
    split; [by rewrite Hd2, Hd1, app_assoc|]. by apply Forall_app.
Qed.

Lemma handler_all_uploads_fail files bucket (s3Keys : gmap string string) reUpload w :
  (forall input, upload_fails E input = true) ->
  let w' := snd (UploadFileHandler E files bucket s3Keys reUpload w) in
  doneChan w' = doneChan w /\ remote w' = remote w.
Proof.
  intros Hf. unfold UploadFileHandler. revert w. induction files as [|f files IH]; intros w.
  - done.
  - cbn [forM_]. unfold bind.
    destruct (upload_one E bucket s3Keys reUpload f w) as [o w1] eqn:H1.
    apply upload_one_effects in H1 as [_ H1].
    assert (Hone : doneChan w1 = doneChan w /\ remote w1 = remote w).
    { destruct H1 as [(_ & Hr & Hd) | (input & _ & _ & _ & _ &
                        [(_ & Hr & Hd & _) | (Hok & _)])]; [done|done|].
      by rewrite Hf in Hok. }
    destruct Hone as [Hd1 Hr1].
    destruct o as [[]| |]; cbn [snd]; [|done..].
    destruct (IH w1) as [Hd2 Hr2]. cbv zeta in *. split; congruence.
Qed.
End HandlerFacts.

(** X6.  Every upload of the worker goes to the bucket it was given, with
    the cache control max-age=900 and the public-read ACL, under the key of
    one of the files received, and is declared gzip-encoded exactly when
    that file is larger than 500 bytes. *)
Theorem uploads_carry_fixed_attributes
    (E : env) (files : list FileInfo) (bucket : string)
    (s3Keys : gmap string string) (reUpload : bool) (w : world) :
  exists new,
    uploads (trace (snd (UploadFileHandler E files bucket s3Keys reUpload w)))
    = uploads (trace w) ++ new /\
    Forall (fun input =>
              fixed_attributes bucket input /\
              exists file, In file files /\ Key input = key file /\
                ContentEncoding input
                = (if 500 <? Size (fileInfo file) then "gzip"%string else EmptyString))
           new.
Proof. apply handler_uploads. Qed.

(* ===================================================================== *)
(** ** Further properties: a whole run *)
(* ===================================================================== *)

Lemma invalidations_snoc_other (t : list event) (e : event) :
  (forall input, e <> EvCreateInvalidation input) ->
  invalidations (t ++ [e]) = invalidations t.
Proof.
  intros He. unfold invalidations. rewrite omap_app.
  destruct e; cbn; rewrite ?app_nil_r; try done. by destruct (He input).
Qed.

Lemma after_listing_run E bucket root tree reUpload concurrentNum
    (s3Keys : gmap string string) w :
  after_listing E bucket root tree reUpload concurrentNum s3Keys w
  = let '(oh, wh) := run_workers E bucket root tree reUpload concurrentNum s3Keys w in
    match oh with
    | Ret _ =>
        InvalidCloudFront E bucket (take (appended_at_wait E (doneChan wh)) (doneChan wh)) wh
    | Exit => (Exit, wh)
    | Panic => (Panic, wh)
    end.
Proof.
  unfold after_listing, bind, read_doneChan.
  by destruct (run_workers E bucket root tree reUpload concurrentNum s3Keys w)
    as [[[]| |] wh].
Qed.

(** What the workers of a run leave, whatever their number. *)
Lemma workers_effects E bucket root tree reUpload concurrentNum
    (s3Keys : gmap string string) w :
  let wh := snd (run_workers E bucket root tree reUpload concurrentNum s3Keys w) in
  same_local_files E w wh /\
  invalidations (trace wh) = invalidations (trace w) /\
  (exists sent, doneChan wh = doneChan w ++ sent /\
                Forall (fun k => starts_with "/"%char k = true) sent) /\
  (concurrentNum <= 0 -> wh = w) /\
  ((forall input, upload_fails E input = true) ->
   doneChan wh = doneChan w /\ remote wh = remote w).
Proof.
  assert (Hsame : forall x : world,
            same_local_files E x x /\ invalidations (trace x) = invalidations (trace x) /\
            (exists sent, doneChan x = doneChan x ++ sent /\
                          Forall (fun k => starts_with "/"%char k = true) sent) /\
            (concurrentNum <= 0 -> x = x) /\
            ((forall input, upload_fails E input = true) ->
             doneChan x = doneChan x /\ remote x = remote x)).
  { intros x. split; [apply same_local_files_refl|]. split; [done|].
    split; [exists []; by rewrite app_nil_r|done]. }
  unfold run_workers.
  destruct (concurrentNum <? 0) eqn:Hneg; [apply Hsame|].
  destruct (concurrentNum =? 0) eqn:Hzero; [apply Hsame|].
  cbv zeta. split; [apply handler_local|]. split; [|split; [|split]].
  - unfold UploadFileHandler. generalize (GetAllFiles root tree). intros files. revert w.
    induction files as [|f files IH]; intros w; [done|].
    cbn [forM_]. unfold bind.
    destruct (upload_one E bucket s3Keys reUpload f w) as [o w1] eqn:H1.
    assert (Hi : invalidations (trace w1) = invalidations (trace w)).
    { unfold upload_one in H1.
      apply bind_inv in H1 as [([[[up enc] ct] hash] & wp & Hp & H1) | [[Hp ->] | [Hp ->]]];
        apply prepare_spec in Hp as [(_ & _ & _ & Hq & _) _]; [|done..].
      destruct (decide (s3Keys !! key f = Some hash /\ reUpload = false)) as [[He ->]|Hno].
      - rewrite compare_skip in H1 by done. by injection H1 as <- <-.
      - apply (compare_upload E _ _ _ _ _ _ _ _ _ _ _ Hno) in H1 as (Ht & _).
        rewrite Ht.
        change (trace wp ++ [EvPrintln ("Uploading: " +:+ up +:+ " as " +:+ key f);
                             EvUpload (upParams_of bucket f up enc ct wp)])
          with (trace wp ++ [EvPrintln ("Uploading: " +:+ up +:+ " as " +:+ key f)]
                         ++ [EvUpload (upParams_of bucket f up enc ct wp)]).
        by rewrite app_assoc, invalidations_snoc_other, invalidations_snoc_println. }
    destruct o as [[]| |]; cbn [snd]; [|done..]. by rewrite IH.
  - apply handler_sends_slash_paths.
  - lia.
  - apply handler_all_uploads_fail.
Qed.

(** X7.  A run changes no file other than the temporary files it creates:
    every path that is not the name of a temporary file holds after the run
    what it held before, however the run ends. *)
Theorem run_writes_temporary_files_only
    (E : env) (bucket root : string) (tree : node) (reUpload : bool)
    (concurrentNum : Z) (w : world) (p : string) :
  local_path E p ->
  fs (snd (Sync E bucket root tree reUpload concurrentNum w)) !! p = fs w !! p.
Proof.
  revert p.
  assert (Ha : forall s3Keys w0,
            same_local_files E w0
              (snd (after_listing E bucket root tree reUpload concurrentNum s3Keys w0))).
  { intros s3Keys w0. rewrite after_listing_run.
    destruct (workers_effects E bucket root tree reUpload concurrentNum s3Keys w0)
      as (Hl & _).
    destruct (run_workers E bucket root tree reUpload concurrentNum s3Keys w0)
      as [[[]| |] wh];
      cbn [snd] in *; [|done..].
    intros p Hp. destruct (InvalidCloudFront_frame E bucket (take (appended_at_wait E (doneChan wh)) (doneChan wh)) wh) as (_ & _ & ->).
    by apply Hl. }
  intros p Hp. rewrite Sync_unfold. cbv zeta.
  destruct (list_objects_fails E); [destruct (DisplayAwsErr_exits E ErrAws)|];
    first [reflexivity | by rewrite (Ha _ _ p Hp)].
Qed.

(** The page of the example is compressed into a temporary file and is
    itself left as it was. *)
Lemma run_writes_temporary_files_only_witness :
  let E := Example.demo_env true in
  let w := Example.page_start in
  let tree := Dir [ ("page.txt"%string, File 600) ] in
  local_path E "site/page.txt" /\
  fs (snd (Sync E "example.com" "site" tree false 4 w)) !! "site/page.txt"%string
  = fs w !! "site/page.txt"%string /\
  fs (snd (Sync E "example.com" "site" tree false 4 w)) <> fs w.
Proof.
  intros E w tree.
  assert (H1 : local_path E "site/page.txt") by (intros k; cbn; discriminate).
  split; [exact H1|]. split.
  - exact (run_writes_temporary_files_only E "example.com" "site" tree false 4 w
             "site/page.txt" H1).
  - intros H. apply (f_equal (fun m => m !! "/tmp/oursky0"%string)) in H.
    vm_compute in H. discriminate H.
Defined.

(** X8.  In a run that starts with an empty channel, every path of every
    invalidation starts with the separator, and there is at most one
    invalidation. *)
Theorem run_invalidates_slash_paths
    (E : env) (bucket root : string) (tree : node) (reUpload : bool)
    (concurrentNum : Z) (w : world) :
  doneChan w = [] ->
  exists new,
    invalidations (trace (snd (Sync E bucket root tree reUpload concurrentNum w)))
    = invalidations (trace w) ++ new /\
    (List.length new <= 1)%nat /\
    Forall (fun input => Forall (fun k => starts_with "/"%char k = true) (Items input)) new.
Proof.
  intros Hd.
  set (w0 := snd (emit (EvListObjects bucket) w)).
  assert (Hi0 : invalidations (trace w0) = invalidations (trace w))
    by (by apply invalidations_snoc_other).
  assert (Ha : forall s3Keys, exists new,
            invalidations
              (trace (snd (after_listing E bucket root tree reUpload concurrentNum
                                         s3Keys w0)))
            = invalidations (trace w) ++ new /\
            (List.length new <= 1)%nat /\
            Forall (fun input => Forall (fun k => starts_with "/"%char k = true)
                                        (Items input)) new).
  { intros s3Keys. rewrite after_listing_run.
    destruct (workers_effects E bucket root tree reUpload concurrentNum s3Keys w0)
      as (_ & Hi & (sent & Hs & Hall) & _).
    destruct (run_workers E bucket root tree reUpload concurrentNum s3Keys w0)
      as [oh wh]. cbn [snd] in *.
    change (doneChan w0) with (doneChan w) in Hs. rewrite Hd in Hs. cbn [app] in Hs.
    assert (Hnone : exists new, invalidations (trace wh) = invalidations (trace w) ++ new /\
                      (List.length new <= 1)%nat /\
                      Forall (fun input => Forall (fun k => starts_with "/"%char k = true)
                                                  (Items input)) new).
    { exists []. rewrite app_nil_r, Hi, Hi0. split; [done|]. split; [cbn; lia|done]. }
    destruct oh as [[]| |]; [|exact Hnone..].
    destruct (InvalidCloudFront_batches E bucket (take (appended_at_wait E (doneChan wh)) (doneChan wh)) wh)
      as [Hn | (items & _ & _ & Hb)].
    - exists []. rewrite app_nil_r, Hn, Hi, Hi0. split; [done|]. split; [cbn; lia|done].
    - eexists [_]. rewrite Hb, Hi, Hi0. split; [reflexivity|]. split; [cbn; lia|].
      constructor; [|done]. cbn [Items]. rewrite Hs. by apply Forall_take. }
  rewrite Sync_unfold. cbv zeta. fold w0.
  destruct (list_objects_fails E); [destruct (DisplayAwsErr_exits E ErrAws)|];
    try apply Ha.
  exists []. rewrite app_nil_r. cbn [snd]. split; [done|]. split; [cbn; lia|done].
Qed.

(** The run on the example site. *)
Lemma run_invalidates_slash_paths_witness :
  let E := Example.demo_env true in
  let w := Example.ab_start in
  doneChan w = [] /\
  exists new,
    invalidations (trace (snd (Sync E "example.com" "site" Example.ab_tree false 4 w)))
    = invalidations (trace w) ++ new /\
    (List.length new <= 1)%nat /\
    Forall (fun input => Forall (fun k => starts_with "/"%char k = true) (Items input)) new.
Proof.
  intros E w.
  assert (H1 : doneChan w = []) by reflexivity.
  split; [exact H1|].
  exact (run_invalidates_slash_paths E "example.com" "site" Example.ab_tree false 4 w H1).
Defined.



(** X10.  Without a worker nothing is received from the enumeration: a run
    with [concurrentNum] at zero, from an empty channel, uploads nothing,
    creates no invalidation and leaves the bucket; with a negative number
    the run does not return either. *)
Theorem run_without_worker_uploads_nothing
    (E : env) (bucket root : string) (tree : node) (reUpload : bool)
    (concurrentNum : Z) (w : world) :
  concurrentNum <= 0 ->
  doneChan w = [] ->
  let r := Sync E bucket root tree reUpload concurrentNum w in
  uploads (trace (snd r)) = uploads (trace w) /\
  invalidations (trace (snd r)) = invalidations (trace w) /\
  remote (snd r) = remote w /\
  (concurrentNum < 0 -> fst r <> Ret tt).
Proof.
  intros Hn Hd.
  set (w0 := snd (emit (EvListObjects bucket) w)).
  assert (Hi0 : invalidations (trace w0) = invalidations (trace w))
    by (by apply invalidations_snoc_other).
  assert (Hu0 : uploads (trace w0) = uploads (trace w))
    by (by apply uploads_snoc_other).
  assert (Ha : forall s3Keys,
            let r := after_listing E bucket root tree reUpload concurrentNum s3Keys w0 in
            uploads (trace (snd r)) = uploads (trace w) /\
            invalidations (trace (snd r)) = invalidations (trace w) /\
            remote (snd r) = remote w /\
            (concurrentNum < 0 -> fst r <> Ret tt)).
  { intros s3Keys. cbv zeta. rewrite after_listing_run.
    destruct (concurrentNum <? 0) eqn:Hneg.
    - unfold run_workers. rewrite Hneg. cbn [panic fst snd].
      by rewrite Hi0, Hu0.
    - unfold run_workers. rewrite Hneg.
      destruct (concurrentNum =? 0) eqn:Hz; [|lia]. cbn [ret].
      change (doneChan w0) with (doneChan w). rewrite Hd, take_nil.
      change (InvalidCloudFront E bucket [] w0) with (@Ret unit tt, w0). cbn [fst snd].
      rewrite Hi0, Hu0. repeat split; try done. lia. }
  cbv zeta. rewrite Sync_unfold. cbv zeta. fold w0.
  destruct (list_objects_fails E); [destruct (DisplayAwsErr_exits E ErrAws)|];
    try apply Ha.
  cbn [fst snd]. rewrite Hi0, Hu0. repeat split; done.
Qed.

(** The example site with no worker. *)
Lemma run_without_worker_uploads_nothing_witness :
  let E := Example.demo_env true in
  let w := Example.ab_start in
  let r := Sync E "example.com" "site" Example.ab_tree false 0 w in
  0 <= 0 /\ doneChan w = [] /\
  uploads (trace (snd r)) = uploads (trace w) /\
  invalidations (trace (snd r)) = invalidations (trace w) /\
  remote (snd r) = remote w /\
  (0 < 0 -> fst r <> Ret tt).
Proof.
  intros E w r.
  assert (H1 : 0 <= 0) by lia.
  assert (H2 : doneChan w = []) by reflexivity.
  split; [exact H1|]. split; [exact H2|].
  exact (run_without_worker_uploads_nothing E "example.com" "site" Example.ab_tree false 0 w
           H1 H2).
Defined.

(** X11.  A run without force, from an empty channel, on a tree every file
    of which has its digest in the bucket under its key, uploads nothing,
    creates no invalidation and leaves the bucket as it is. *)
Theorem unchanged_tree_uploads_and_invalidates_nothing
    (E : env) (bucket root : string) (tree : node) (concurrentNum : Z) (w : world) :
  list_objects_fails E = false ->
  doneChan w = [] ->
  (forall file, In file (GetAllFiles root tree) ->
     local_path E (path file) /\
     remote w !! key file = Some (file_digest E file w)) ->
  let w' := snd (Sync E bucket root tree false concurrentNum w) in
  uploads (trace w') = uploads (trace w) /\
  invalidations (trace w') = invalidations (trace w) /\
  remote w' = remote w.
Proof.
  intros Hl Hd Hfiles. cbv zeta. rewrite Sync_unfold, Hl, inventory_listed by done.
  cbv zeta. set (w0 := snd (emit (EvListObjects bucket) w)).
  assert (Hi0 : invalidations (trace w0) = invalidations (trace w))
    by (by apply invalidations_snoc_other).
  assert (Hu0 : uploads (trace w0) = uploads (trace w))
    by (by apply uploads_snoc_other).
  rewrite after_listing_run.
  destruct (workers_effects E bucket root tree false concurrentNum (remote w) w0)
    as (_ & Hi & _).
  assert (Hw : let wh := snd (run_workers E bucket root tree false concurrentNum
                                          (remote w) w0) in
               uploads (trace wh) = uploads (trace w0) /\ doneChan wh = doneChan w0 /\
               remote wh = remote w0).
  { unfold run_workers. destruct (concurrentNum <? 0); [done|].
    destruct (concurrentNum =? 0); [done|]. cbv zeta.
    destruct (UploadFileHandler E (GetAllFiles root tree) bucket (remote w) false w0)
      as [oh wh] eqn:Hh.
    apply handler_uploads_nothing in Hh; [done|by intros f Hf; apply Hfiles|].
    intros f Hf. by apply Hfiles. }
  destruct (run_workers E bucket root tree false concurrentNum (remote w) w0)
    as [oh wh]. cbn [snd] in *. destruct Hw as (Hu & Hdc & Hr).
  change (doneChan w0) with (doneChan w) in Hdc. rewrite Hd in Hdc.
  change (remote w0) with (remote w) in Hr.
  destruct oh as [[]| |]; cbn [snd]; [|by rewrite Hu, Hu0, Hi, Hi0..].
  rewrite Hdc, take_nil. change (InvalidCloudFront E bucket [] wh) with (@Ret unit tt, wh).
  cbn [snd]. by rewrite Hu, Hu0, Hi, Hi0.
Qed.

(** The example site once both files are in the bucket. *)
Lemma unchanged_tree_uploads_and_invalidates_nothing_witness :
  let E := Example.demo_env true in
  let w := More.synced_start in
  let w' := snd (Sync E "example.com" "site" Example.ab_tree false 4 w) in
  list_objects_fails E = false /\
  doneChan w = [] /\
  (forall file, In file (GetAllFiles "site" Example.ab_tree) ->
     local_path E (path file) /\
     remote w !! key file = Some (file_digest E file w)) /\
  uploads (trace w') = uploads (trace w) /\
  invalidations (trace w') = invalidations (trace w) /\
  remote w' = remote w.
Proof.
  intros E w w'.
  assert (H1 : list_objects_fails E = false) by reflexivity.
  assert (H2 : doneChan w = []) by reflexivity.
  assert (H3 : forall file, In file (GetAllFiles "site" Example.ab_tree) ->
                 local_path E (path file) /\
                 remote w !! key file = Some (file_digest E file w)).
  { intros file [<-|[<-|[]]]; (split; [intros k; cbn; discriminate|vm_compute; reflexivity]). }
  split; [exact H1|]. split; [exact H2|]. split; [exact H3|].
  exact (unchanged_tree_uploads_and_invalidates_nothing
           E "example.com" "site" Example.ab_tree 4 w H1 H2 H3).
Defined.

(* ===================================================================== *)
(** ** Further properties: the changed keys *)
(* ===================================================================== *)

Lemma plain_char (c : ascii) :
  URL.shouldEscape c = false ->
  URL.is_ctl c = false /\ Ascii.eqb c "%"%char = false /\ Ascii.eqb c "?"%char = false.
Proof.
  destruct c as [[] [] [] [] [] [] [] []]; vm_compute; intros H; try discriminate H; auto.
Qed.

Lemma plain_no_ctl (l : list ascii) :
  forallb (fun c => negb (URL.shouldEscape c)) l = true -> existsb URL.is_ctl l = false.
Proof.
  induction l as [|c l IH]; [done|]. cbn [forallb existsb].
  rewrite andb_true_iff, negb_true_iff. intros [Hc Hl].
  destruct (plain_char c Hc) as (-> & _). by rewrite IH.
Qed.

Lemma plain_no_query (l : list ascii) :
  forallb (fun c => negb (URL.shouldEscape c)) l = true ->
  URL.count_query l = 0%nat /\ URL.cut_query l = (l, []).
Proof.
  unfold URL.count_query. induction l as [|c l IH]; [done|]. cbn [forallb].
  rewrite andb_true_iff, negb_true_iff. intros [Hc Hl].
  destruct (plain_char c Hc) as (_ & _ & Hq). destruct (IH Hl) as [Hn Hcut].
  cbn [URL.cut_query]. rewrite Hq, Hcut. split; [|done].
  rewrite filter_cons. destruct (decide _) as [Hd|_]; [|done].
  rewrite Hq in Hd. destruct Hd.
Qed.

Lemma plain_unescape (l : list ascii) :
  forallb (fun c => negb (URL.shouldEscape c)) l = true ->
  URL.unescape l = Some l /\ URL.escape l = l.
Proof.
  induction l as [|c l IH]; [done|]. cbn [forallb].
  rewrite andb_true_iff, negb_true_iff. intros [Hc Hl].
  destruct (plain_char c Hc) as (_ & Hp & _). destruct (IH Hl) as [Hu He].
  cbn [URL.unescape URL.escape]. by rewrite Hp, Hu, Hc, He.
Qed.

Lemma append_empty_r (s : string) : (s +:+ EmptyString)%string = s.
Proof.
  induction s as [|c s IH]; [done|].
  change (String c s +:+ EmptyString)%string with (String c (s +:+ EmptyString)).
  by rewrite IH.
Qed.

(** A key of plain bytes comes back from [url.ParseRequestURI] and [String]
    as it went in, after its separator. *)
Lemma plain_key_round_trip (k : string) :
  plain_key k = true ->
  exists u, URL.ParseRequestURI ("/" +:+ k) = Some u /\
            URL.String_ u = ("/" +:+ k)%string.
Proof.
  unfold plain_key. intros Hk.
  set (raw := "/"%char :: chars k).
  assert (Hraw : forallb (fun c => negb (URL.shouldEscape c)) raw = true) by done.
  destruct (plain_no_query raw Hraw) as [Hn Hcut].
  destruct (plain_unescape raw Hraw) as [Hu He].
  unfold URL.ParseRequestURI, URL.stringContainsCTLByte.
  change (chars ("/" +:+ k)) with raw. rewrite (plain_no_ctl raw Hraw).
  change ("/" +:+ k)%string with (String "/"%char k). cbv iota.
  change (chars (String "/"%char k)) with raw.
  rewrite Hn, andb_false_r, Hcut. unfold URL.setPath. rewrite Hu, He, String.eqb_refl.
  eexists. split; [reflexivity|].
  unfold URL.String_, URL.EscapedPath. cbn [URL.RawPath URL.Path URL.ForceQuery URL.RawQuery].
  change (of_chars raw) with (String "/"%char (of_chars (chars k))).
  rewrite of_chars_chars. cbn [String.eqb negb andb orb Ascii.eqb].
  change (chars (String "/"%char k)) with raw. rewrite He.
  change (of_chars raw) with (String "/"%char (of_chars (chars k))).
  rewrite of_chars_chars. cbn. by rewrite append_empty_r.
Qed.

(** The keys sent are keys of uploads of the loop, each after the
    separator, when the keys are plain: a key is sent after its upload, once
    for an upload that succeeded and not at all for one that failed. *)
Lemma handler_sends_uploaded_keys E files bucket (s3Keys : gmap string string) reUpload w :
  (forall file, In file files -> plain_key (key file) = true) ->
  let w' := snd (UploadFileHandler E files bucket s3Keys reUpload w) in
  exists new sent,
    uploads (trace w') = uploads (trace w) ++ new /\
    doneChan w' = doneChan w ++ sent /\
    sent `sublist_of` map (fun input => ("/" +:+ Key input)%string) new /\
    ((forall i, upload_fails E i = false) ->
     sent = map (fun input => ("/" +:+ Key input)%string) new).
Proof.
  unfold UploadFileHandler. revert w.
  induction files as [|f files IH]; intros w Hplain.
  - exists [], []. by rewrite !app_nil_r.
  - cbn [forM_]. cbv zeta. unfold bind.
    destruct (upload_one E bucket s3Keys reUpload f w) as [o w1] eqn:H1.
    apply upload_one_effects in H1 as [_ H1].
    assert (Hone : exists new1 sent1,
               uploads (trace w1) = uploads (trace w) ++ new1 /\
               doneChan w1 = doneChan w ++ sent1 /\
               sent1 `sublist_of` map (fun input => ("/" +:+ Key input)%string) new1 /\
               ((forall i, upload_fails E i = false) ->
                sent1 = map (fun input => ("/" +:+ Key input)%string) new1)).
    { destruct H1 as [(Hu & _ & Hd) | (input & Hu & _ & Hk & _ &
                        [(Hf & _ & Hd & _) | (_ & _ & [(u & Hp & Hd & _) | (Hp & _)])])].
      - exists [], []. by rewrite !app_nil_r.
      - exists [input], []. rewrite app_nil_r. split; [done|]. split; [done|].
        split; [apply sublist_nil_l|]. intros Hok. by rewrite Hok in Hf.
      - exists [input], [URL.String_ u]. split; [done|]. split; [done|].
        destruct (plain_key_round_trip (key f)) as (u' & Hp' & Hs); [apply Hplain; by left|].
        rewrite Hp in Hp'. injection Hp' as <-. cbn [map]. by rewrite Hk, Hs.
      - destruct (plain_key_round_trip (key f)) as (u' & Hp' & _); [apply Hplain; by left|].
        by rewrite Hp in Hp'. }
    destruct Hone as (new1 & sent1 & Hu1 & Hd1 & Hs1 & He1).
    destruct o as [[]| |]; cbn [snd]; [|by exists new1, sent1..].
    destruct (IH w1) as (new2 & sent2 & Hu2 & Hd2 & Hs2 & He2);
      [by intros; apply Hplain; right|].
    exists (new1 ++ new2), (sent1 ++ sent2).
    rewrite Hu2, Hu1, Hd2, Hd1, map_app, !app_assoc.
    split; [done|]. split; [done|]. split; [by apply sublist_app|].
    intros Hok. by rewrite He1, He2.
Qed.

(** X12.  In a run from an empty channel in which the keys enumerated are
    plain, the paths of the invalidation are keys of uploads of the run,
    each after the separator, and none is there more often than it was
    uploaded: nothing is invalidated that was not uploaded.  Some uploaded
    keys can be missing, since the goroutine that collects them is not
    waited for; when it has collected every key sent and the uploads
    succeed, the paths are the uploaded keys, up to their order. *)
Theorem invalidation_lists_uploaded_keys
    (E : env) (bucket root : string) (tree : node) (reUpload : bool)
    (concurrentNum : Z) (w : world) (input : CreateInvalidationInput) :
  (forall file, In file (GetAllFiles root tree) -> plain_key (key file) = true) ->
  doneChan w = [] ->
  let w' := snd (Sync E bucket root tree reUpload concurrentNum w) in
  invalidations (trace w') = invalidations (trace w) ++ [input] ->
  exists new,
    uploads (trace w') = uploads (trace w) ++ new /\
    Items input ⊆+ map (fun i => ("/" +:+ Key i)%string) new /\
    ((forall i, upload_fails E i = false) ->
     (forall sent, (List.length sent <= appended_at_wait E sent)%nat) ->
     Items input ≡ₚ map (fun i => ("/" +:+ Key i)%string) new).
Proof.
  intros Hplain Hd. cbv zeta.
  set (w0 := snd (emit (EvListObjects bucket) w)).
  assert (Hi0 : invalidations (trace w0) = invalidations (trace w))
    by (by apply invalidations_snoc_other).
  assert (Hu0 : uploads (trace w0) = uploads (trace w)) by (by apply uploads_snoc_other).
  assert (Hnot : invalidations (trace w) <> invalidations (trace w) ++ [input]).
  { intros H. apply (f_equal List.length) in H. rewrite length_app in H. cbn in H. lia. }
  assert (Ha : forall s3Keys,
            let w' := snd (after_listing E bucket root tree reUpload concurrentNum
                                         s3Keys w0) in
            invalidations (trace w') = invalidations (trace w) ++ [input] ->
            exists new,
              uploads (trace w') = uploads (trace w) ++ new /\
              Items input ⊆+ map (fun i => ("/" +:+ Key i)%string) new /\
              ((forall i, upload_fails E i = false) ->
               (forall sent, (List.length sent <= appended_at_wait E sent)%nat) ->
               Items input ≡ₚ map (fun i => ("/" +:+ Key i)%string) new)).
  { intros s3Keys. cbv zeta. rewrite after_listing_run.
    destruct (workers_effects E bucket root tree reUpload concurrentNum s3Keys w0)
      as (_ & Hi & _).
    assert (Hw : let wh := snd (run_workers E bucket root tree reUpload concurrentNum
                                            s3Keys w0) in
                 exists new,
                   uploads (trace wh) = uploads (trace w) ++ new /\
                   doneChan wh `sublist_of` map (fun i => ("/" +:+ Key i)%string) new /\
                   ((forall i, upload_fails E i = false) ->
                    doneChan wh = map (fun i => ("/" +:+ Key i)%string) new)).
    { unfold run_workers.
      destruct (concurrentNum <? 0);
        [cbv zeta; cbn [panic snd]; exists []; rewrite app_nil_r;
         change (doneChan w0) with (doneChan w); by rewrite Hd|].
      destruct (concurrentNum =? 0);
        [cbv zeta; cbn [ret snd]; exists []; rewrite app_nil_r;
         change (doneChan w0) with (doneChan w); by rewrite Hd|].
      destruct (handler_sends_uploaded_keys E (GetAllFiles root tree) bucket s3Keys
                  reUpload w0 Hplain) as (new & sent & Hun & Hdn & Hsub & Heq).
      cbv zeta. exists new. rewrite Hun, Hdn, Hu0.
      change (doneChan w0) with (doneChan w). rewrite Hd. done. }
    destruct (run_workers E bucket root tree reUpload concurrentNum s3Keys w0)
      as [oh wh]. cbn [snd] in *. destruct Hw as (new & Hun & Hsub & Heq).
    destruct oh as [[]| |]; cbn [snd]; [|by rewrite Hi, Hi0..].
    destruct (InvalidCloudFront_frame E bucket
                (take (appended_at_wait E (doneChan wh)) (doneChan wh)) wh) as (Huf & _).
    destruct (InvalidCloudFront_batches E bucket
                (take (appended_at_wait E (doneChan wh)) (doneChan wh)) wh)
      as [Hn | (items & _ & _ & Hb)].
    - by rewrite Hn, Hi, Hi0.
    - rewrite Hb, Hi, Hi0. intros H. apply app_inv_head in H. injection H as <-.
      cbn [Items]. exists new. rewrite Huf. split; [done|]. split.
      + apply sublist_submseteq. etrans; [apply sublist_take|exact Hsub].
      + intros Hok Hall. rewrite take_ge by apply Hall. by rewrite Heq. }
  rewrite Sync_unfold. cbv zeta. fold w0.
  destruct (list_objects_fails E); [destruct (DisplayAwsErr_exits E ErrAws)|];
    try apply Ha.
  cbn [snd]. by rewrite Hi0.
Qed.

(** The run on the example site uploads [a.txt] and [b.txt] and invalidates
    [/a.txt] and [/b.txt]. *)
Lemma invalidation_lists_uploaded_keys_witness :
  let E := Example.demo_env true in
  let w := Example.ab_start in
  let w' := snd (Sync E "example.com" "site" Example.ab_tree false 4 w) in
  (forall file, In file (GetAllFiles "site" Example.ab_tree) ->
     plain_key (key file) = true) /\
  invalidations (trace w') = invalidations (trace w) ++ [More.ab_invalidation] /\
  (forall sent, (List.length sent <= appended_at_wait E sent)%nat) /\
  exists new,
    uploads (trace w') = uploads (trace w) ++ new /\
    Items More.ab_invalidation ⊆+ map (fun i => ("/" +:+ Key i)%string) new /\
    Items More.ab_invalidation ≡ₚ map (fun i => ("/" +:+ Key i)%string) new.
Proof.
  intros E w w'.
  assert (H1 : forall i, upload_fails E i = false) by reflexivity.
  assert (H2 : forall file, In file (GetAllFiles "site" Example.ab_tree) ->
                 plain_key (key file) = true)
    by (intros file [<-|[<-|[]]]; reflexivity).
  assert (H3 : doneChan w = []) by reflexivity.
  assert (H4 : forall sent, (List.length sent <= appended_at_wait E sent)%nat)
    by (intros sent; cbn; lia).
  assert (H5 : invalidations (trace w')
               = invalidations (trace w) ++ [More.ab_invalidation])
    by (vm_compute; reflexivity).
  split; [exact H2|]. split; [exact H5|]. split; [exact H4|].
  destruct (invalidation_lists_uploaded_keys
              E "example.com" "site" Example.ab_tree false 4 w More.ab_invalidation
              H2 H3 H5) as (new & Hu & Hs & Hp).
  exists new. split; [exact Hu|]. split; [exact Hs|exact (Hp H1 H4)].
Defined.

(* ===================================================================== *)
(** ** Further properties: the digest *)
(* ===================================================================== *)

Lemma le_bytes_spec (n : nat) (x : Z) :
  List.length (MD5.le_bytes n x) = n /\
  Forall (fun b => 0 <= b < 256) (MD5.le_bytes n x).
Proof.
  revert x. induction n as [|n IH]; intros x; [done|].
  cbn [MD5.le_bytes]. destruct (IH (Z.shiftr x 8)) as [Hl Hb].
  split; [cbn; by rewrite Hl|]. constructor; [|done].
  change 255 with (Z.ones 8). rewrite Z.land_ones by lia.
  apply Z.mod_pos_bound. lia.
Qed.

Lemma hex_digit_lower (n : Z) : 0 <= n < 16 -> is_lower_hex (MD5.hex_digit n) = true.
Proof.
  intros Hn. rewrite <- (Z2Nat.id n) by lia.
  assert (Hm : (Z.to_nat n < 16)%nat) by lia.
  revert Hm. generalize (Z.to_nat n). intros m Hm.
  do 16 (destruct m as [|m]; [reflexivity|]). lia.
Qed.

Lemma hex_spec (l : list Z) :
  Forall (fun b => 0 <= b < 256) l ->
  String.length (MD5.hex l) = (2 * List.length l)%nat /\
  forallb is_lower_hex (chars (MD5.hex l)) = true.
Proof.
  induction 1 as [|b l Hb _ [IHl IHh]]; [done|].
  cbn [MD5.hex String.length List.length]. split; [rewrite IHl; lia|].
  change (chars (String ?a (String ?b ?s))) with (a :: b :: chars s).
  cbn [forallb]. rewrite IHh, !hex_digit_lower; [done| |].
  - change 15 with (Z.ones 4). rewrite Z.land_ones by lia. apply Z.mod_pos_bound. lia.
  - rewrite Z.shiftr_div_pow2 by lia. change (2 ^ 4) with 16.
    split; [apply Z.div_pos; lia|]. apply Z.div_lt_upper_bound; lia.
Qed.

(** The digest is 32 digits of lower-case hexadecimal. *)
Lemma hexsum_format (msg : bytes) :
  String.length (MD5.hexsum msg) = 32%nat /\
  forallb is_lower_hex (chars (MD5.hexsum msg)) = true.
Proof.
  unfold MD5.hexsum, MD5.sum.
  set (st := fold_left MD5.block _ MD5.init).
  destruct (le_bytes_spec 4 (MD5.dA st)) as [La Ba].
  destruct (le_bytes_spec 4 (MD5.dB st)) as [Lb Bb].
  destruct (le_bytes_spec 4 (MD5.dC st)) as [Lc Bc].
  destruct (le_bytes_spec 4 (MD5.dD st)) as [Ld Bd].
  destruct (hex_spec (MD5.le_bytes 4 (MD5.dA st) ++ MD5.le_bytes 4 (MD5.dB st)
                      ++ MD5.le_bytes 4 (MD5.dC st) ++ MD5.le_bytes 4 (MD5.dD st)))
    as [Hl Hh].
  { repeat (apply Forall_app; split); done. }
  split; [|done]. rewrite Hl, !length_app, La, Lb, Lc, Ld. reflexivity.
Qed.

(** X13.  Whenever [Hashfile] returns, its hash is 32 digits of lower-case
    hexadecimal, the form of the entity tags it is compared with, and the
    world is as it was: the file is only read. *)
Theorem Hashfile_returns_32_hex_digits
    (E : env) (filename : string) (w w' : world) (hashVal : string)
    (err : option error) :
  Hashfile E filename w = (Ret (hashVal, err), w') ->
  String.length hashVal = 32%nat /\
  forallb is_lower_hex (chars hashVal) = true /\
  w' = w.
Proof.
  intros H. destruct (Hashfile_spec E filename w) as [He|He]; rewrite He in H.
  - discriminate H.
  - injection H as <- <- <-. destruct (hexsum_format (default [] (fs w !! filename))).
    done.
Qed.

(** The digest of [a.txt] of the example site, which holds "hello". *)
Lemma Hashfile_returns_32_hex_digits_witness :
  let E := Example.demo_env true in
  let w := Example.ab_start in
  let hashVal := "5d41402abc4b2a76b9719d911017c592"%string in
  Hashfile E "site/a.txt" w = (Ret (hashVal, None), w) /\
  String.length hashVal = 32%nat /\
  forallb is_lower_hex (chars hashVal) = true /\
  w = w.
Proof.
  intros E w hashVal.
  assert (H1 : Hashfile E "site/a.txt" w = (Ret (hashVal, None), w))
    by (vm_compute; reflexivity).
  split; [exact H1|].
  exact (Hashfile_returns_32_hex_digits E "site/a.txt" w w hashVal None H1).
Defined.

(* ===================================================================== *)
(** ** Further properties: the enumeration *)
(* ===================================================================== *)

Lemma prefix_refl (s : string) : String.prefix s s = true.
Proof.
  induction s as [|c s IH]; [done|]. cbn [String.prefix].
  by destruct (ascii_dec c c).
Qed.

Lemma substring_none (s : string) :
  String.substring (String.length s) 0 s = EmptyString.
Proof. induction s as [|c s IH]; [done|]. exact IH. Qed.

Lemma TrimPrefix_self (s : string) : TrimPrefix s s = EmptyString.
Proof.
  unfold TrimPrefix, HasPrefix. rewrite prefix_refl, Nat.sub_diag. apply substring_none.
Qed.

(** X14.  When the root is a file and not a directory, the walk calls [scan]
    on the root alone: the file is sent with an empty key, unless the root
    is "." or its base name starts with a dot, and then nothing is sent. *)
Theorem root_file_is_sent_with_empty_key (dirname : string) (sz : Z) :
  (String.eqb dirname "." = false -> hidden (Filepath.Base dirname) = false ->
   GetAllFiles dirname (File sz)
   = [ {| path := dirname; key := EmptyString;
          fileInfo := {| IsDir := false; Size := sz |} |} ]) /\
  (String.eqb dirname "." = true \/ hidden (Filepath.Base dirname) = true ->
   GetAllFiles dirname (File sz) = []).
Proof.
  unfold GetAllFiles, Walker.Walk. cbn [Walker.walk info_of]. split.
  - intros Hd Hh. rewrite scan_entry by done. unfold hidden in Hh.
    cbn [IsDir negb andb snd]. unfold hidden. rewrite Hh. cbn [negb app].
    by rewrite TrimPrefix_self.
  - intros [Hd|Hh].
    + unfold scan. by rewrite Hd.
    + unfold scan. destruct (String.eqb dirname "."); [done|].
      unfold hidden in Hh. rewrite Hh. reflexivity.
Qed.

(** A root that is the file [site/index.html], and one that is [.hidden]. *)
Lemma root_file_is_sent_with_empty_key_witness :
  (String.eqb "site/index.html" "." = false /\
   hidden (Filepath.Base "site/index.html") = false /\
   GetAllFiles "site/index.html" (File 5)
   = [ {| path := "site/index.html"; key := EmptyString;
          fileInfo := {| IsDir := false; Size := 5 |} |} ]) /\
  (hidden (Filepath.Base ".hidden") = true /\
   GetAllFiles ".hidden" (File 3) = []).
Proof.
  assert (H1 : String.eqb "site/index.html" "." = false) by reflexivity.
  assert (H2 : hidden (Filepath.Base "site/index.html") = false) by reflexivity.
  assert (H3 : hidden (Filepath.Base ".hidden") = true) by reflexivity.
  split.
  - split; [exact H1|]. split; [exact H2|].
    exact (proj1 (root_file_is_sent_with_empty_key "site/index.html" 5) H1 H2).
  - split; [exact H3|].
    exact (proj2 (root_file_is_sent_with_empty_key ".hidden" 3) (or_intror H3)).
Defined.

(** *** Keys below a root in clean form *)

Lemma of_chars_app (a b : list ascii) :
  of_chars (a ++ b) = (of_chars a +:+ of_chars b)%string.
Proof.
  induction a as [|c a IH]; [done|].
  change (of_chars ((c :: a) ++ b)) with (String c (of_chars (a ++ b))).
  by rewrite IH.
Qed.

Lemma join_elements_app (l1 l2 : list (list ascii)) :
  l1 <> [] -> l2 <> [] ->
  Filepath.join_elements (l1 ++ l2)
  = Filepath.join_elements l1 ++ Filepath.slash :: Filepath.join_elements l2.
Proof.
  intros H1 H2. induction l1 as [|x l1 IH]; [done|].
  destruct l1 as [|y l1].
  - cbn [app Filepath.join_elements]. by destruct l2.
  - change ((x :: y :: l1) ++ l2) with (x :: (y :: l1) ++ l2).
    change (Filepath.join_elements (x :: (y :: l1) ++ l2))
      with (x ++ Filepath.slash :: Filepath.join_elements ((y :: l1) ++ l2)).
    rewrite IH by done.
    change (Filepath.join_elements (x :: y :: l1))
      with (x ++ Filepath.slash :: Filepath.join_elements (y :: l1)).
    by rewrite <- app_assoc.
Qed.

Lemma split_join_elements (es : list (list ascii)) :
  es <> [] ->
  Forall (fun e => existsb (Ascii.eqb Filepath.slash) e = false) es ->
  Filepath.split (Filepath.join_elements es) = es.
Proof.
  intros Hne Hall. induction Hall as [|e es He Hall IH]; [done|].
  destruct es as [|e' es'].
  - by apply split_no_slash.
  - change (Filepath.join_elements (e :: e' :: es'))
      with (e ++ Filepath.slash :: Filepath.join_elements (e' :: es')).
    by rewrite split_app_slash, split_no_slash, IH.
Qed.

Lemma fold_clean_names rooted (es out : list (list ascii)) :
  Forall (fun e => e <> [] /\ Filepath.is_dot e = false /\ Filepath.is_dotdot e = false) es ->
  fold_left (Filepath.clean_step rooted) es out = rev es ++ out.
Proof.
  intros Hall. revert out. induction Hall as [|e es (He & Hd & Hdd) _ IH]; intros out.
  - done.
  - cbn [fold_left rev]. rewrite clean_step_name, IH by done. by rewrite <- app_assoc.
Qed.

Lemma valid_names_chars (names : list string) :
  Forall (fun x => valid_name x = true) names ->
  Forall (fun e => existsb (Ascii.eqb Filepath.slash) e = false) (map chars names) /\
  Forall (fun e => e <> [] /\ Filepath.is_dot e = false /\ Filepath.is_dotdot e = false)
         (map chars names).
Proof.
  induction 1 as [|n names Hn _ [IH1 IH2]]; [by split|].
  destruct (valid_name_chars n Hn) as (H1 & H2 & H3 & H4).
  split; constructor; done.
Qed.

(** The joined names start with the first byte of the first name. *)
Lemma join_names_head (n : string) (names : list string) :
  valid_name n = true ->
  exists c rest, join_names (n :: names) = String c rest /\
                 starts_with "."%char n = Ascii.eqb "."%char c /\
                 Ascii.eqb c Filepath.slash = false /\
                 chars (join_names (n :: names)) = c :: chars rest.
Proof.
  intros Hn. destruct (valid_name_chars n Hn) as (H1 & H2 & _).
  unfold join_names. cbn [map]. destruct n as [|c n']; [done|].
  change (chars (String c n')) with (c :: chars n') in *.
  cbn [existsb] in H2. apply orb_false_iff in H2 as [Hc _].
  assert (Hj : exists X, Filepath.join_elements ((c :: chars n') :: map chars names) = c :: X)
    by (destruct (map chars names); cbn; eauto).
  destruct Hj as [X ->]. exists c, (of_chars X).
  split; [done|]. split; [done|]. split; [by rewrite Ascii.eqb_sym|].
  change (chars (of_chars (c :: X))) with (chars (String c (of_chars X))). done.
Qed.

(** A path made of names, after a separator or not, is in clean form. *)
Lemma Clean_join_names (rooted : bool) (names : list string) :
  names <> [] -> Forall (fun x => valid_name x = true) names ->
  Filepath.Clean ((if rooted then "/" else EmptyString) +:+ join_names names)
  = ((if rooted then "/" else EmptyString) +:+ join_names names)%string.
Proof.
  intros Hne Hv. destruct (valid_names_chars names Hv) as [Hs Hn].
  assert (Hes : map chars names <> []) by (by destruct names).
  destruct names as [|n names]; [done|]. apply Forall_cons in Hv as [Hvn _].
  destruct (join_names_head n names Hvn) as (c & rest & Hj & _ & Hc & Hch).
  destruct rooted.
  - change ("/" +:+ join_names (n :: names))%string
      with (String "/"%char (join_names (n :: names))).
    unfold Filepath.Clean. cbn [Ascii.eqb Filepath.slash Bool.eqb].
    change (chars (String "/"%char (join_names (n :: names))))
      with ("/"%char :: chars (join_names (n :: names))).
    unfold join_names at 1. rewrite chars_of_chars.
    change (Filepath.split ("/"%char :: ?l)) with ([] :: Filepath.split l).
    rewrite split_join_elements by done. cbn [fold_left Filepath.clean_step].
    rewrite fold_clean_names by done. by rewrite app_nil_r, rev_involutive.
  - change (EmptyString +:+ join_names (n :: names))%string with (join_names (n :: names)).
    unfold Filepath.Clean. rewrite Hj at 1. rewrite Hc.
    unfold join_names. rewrite chars_of_chars.
    rewrite split_join_elements, fold_clean_names by done.
    rewrite app_nil_r, rev_involutive. by destruct (map chars (n :: names)).
Qed.

Lemma join_names_snoc (dn : list string) (n : string) :
  dn <> [] ->
  join_names (dn ++ [n]) = (join_names dn +:+ String Filepath.slash n)%string.
Proof.
  intros Hne. unfold join_names. rewrite map_app. cbn [map].
  rewrite join_elements_app by (by destruct dn).
  rewrite of_chars_app. cbn [Filepath.join_elements].
  change (of_chars (Filepath.slash :: chars n)) with (String Filepath.slash (of_chars (chars n))).
  by rewrite of_chars_chars.
Qed.

Lemma join_names_app (a b : list string) :
  a <> [] -> b <> [] ->
  join_names (a ++ b) = (join_names a +:+ String Filepath.slash (join_names b))%string.
Proof.
  intros Ha Hb. unfold join_names. rewrite map_app.
  rewrite join_elements_app by (by destruct a, b).
  by rewrite of_chars_app.
Qed.

Lemma append_assoc_root (rooted : bool) (a b : string) :
  (((if rooted then "/" else EmptyString) +:+ a) +:+ b)%string
  = ((if rooted then "/" else EmptyString) +:+ (a +:+ b))%string.
Proof. by destruct rooted. Qed.

(** Joining a name to a path in clean form appends it after a separator. *)
Lemma Join_clean (rooted : bool) (dn : list string) (n : string) :
  dn <> [] -> Forall (fun x => valid_name x = true) dn -> valid_name n = true ->
  Filepath.Join ((if rooted then "/" else EmptyString) +:+ join_names dn) n
  = ((if rooted then "/" else EmptyString) +:+ join_names (dn ++ [n]))%string.
Proof.
  intros Hne Hv Hn.
  assert (Hd : exists c a', ((if rooted then "/" else EmptyString) +:+ join_names dn)%string
                            = String c a').
  { destruct rooted; [by eexists _, _|]. destruct dn as [|d dn]; [done|].
    apply Forall_cons in Hv as [Hd _].
    destruct (join_names_head d dn Hd) as (c & rest & Hj & _). by exists c, rest. }
  destruct Hd as (c & a' & Hd). unfold Filepath.Join. rewrite Hd at 1.
  change (?a ++ String Filepath.slash n)%string with (a +:+ String Filepath.slash n)%string.
  rewrite append_assoc_root, <- join_names_snoc by done.
  apply Clean_join_names; [by destruct dn|].
  apply Forall_app. split; [done|by constructor].
Qed.

Lemma join_all_clean (rooted : bool) (dn names : list string) :
  dn <> [] -> Forall (fun x => valid_name x = true) dn ->
  Forall (fun x => valid_name x = true) names ->
  join_all ((if rooted then "/" else EmptyString) +:+ join_names dn) names
  = ((if rooted then "/" else EmptyString) +:+ join_names (dn ++ names))%string.
Proof.
  intros Hne Hv Hn. revert dn Hne Hv.
  induction Hn as [|n names Hvn _ IH]; intros dn Hne Hv.
  - by rewrite app_nil_r.
  - cbn [join_all fold_left]. rewrite Join_clean by done.
    change (fold_left Filepath.Join names ?x) with (join_all x names).
    rewrite IH; [by rewrite <- app_assoc|by destruct dn|].
    apply Forall_app. split; [done|by constructor].
Qed.

Lemma prefix_append (d r : string) : String.prefix d (d +:+ r) = true.
Proof.
  induction d as [|c d IH]; [by destruct r|].
  change (String c d +:+ r)%string with (String c (d +:+ r)).
  cbn [String.prefix]. by destruct (ascii_dec c c).
Qed.

Lemma substring_all (s : string) : substring 0 (String.length s) s = s.
Proof. induction s as [|c s IH]; [done|]. cbn [String.length substring]. by rewrite IH. Qed.

Lemma TrimPrefix_append (d r : string) : TrimPrefix (d +:+ r) d = r.
Proof.
  unfold TrimPrefix, HasPrefix. rewrite prefix_append.
  induction d as [|c d IH].
  - change (EmptyString +:+ r)%string with r. cbn [String.length].
    by rewrite Nat.sub_0_r, substring_all.
  - change (String c d +:+ r)%string with (String c (d +:+ r)).
    cbn [String.length substring Nat.sub]. exact IH.
Qed.

Lemma TrimPrefix_other (c d : ascii) (s : string) :
  Ascii.eqb d c = false -> TrimPrefix (String c s) (String d EmptyString) = String c s.
Proof.
  intros Hc. unfold TrimPrefix, HasPrefix. cbn [String.prefix].
  destruct (ascii_dec d c) as [->|_]; [|done]. by rewrite Ascii.eqb_refl in Hc.
Qed.

Lemma descends_valid_names (n m : node) (names : list string) :
  valid_tree n = true -> descends n names m ->
  Forall (fun x => valid_name x = true) names.
Proof.
  intros Hv Hd. induction Hd as [|entries name child names m Hin Hd IH]; [constructor|].
  pose proof (valid_entries entries Hv) as Hall.
  rewrite List.Forall_forall in Hall. specialize (Hall _ Hin). cbn [fst snd] in Hall.
  apply andb_true_iff in Hall as [Hn Hc]. constructor; [done|by apply IH].
Qed.

(** Every record sent is the record of a file below the root. *)
Lemma GetAllFiles_members (dirname : string) (entries : list (string * node)) :
  valid_tree (Dir entries) = true ->
  forall fi, In fi (GetAllFiles dirname (Dir entries)) ->
    exists names sz,
      names <> [] /\ descends (Dir entries) names (File sz) /\
      Forall (fun name => hidden name = false) names /\
      fi = sent_for dirname (join_all dirname names) sz.
Proof.
  intros Hv fi. unfold GetAllFiles, Walker.Walk. rewrite walk_Dir.
  assert (Hs : snd (scan dirname dirname (info_of (Dir entries)) []) = []).
  { unfold scan. destruct (String.eqb dirname "."); [done|].
    cbn [info_of IsDir negb andb]. by destruct (starts_with _ _). }
  destruct (scan dirname dirname (info_of (Dir entries)) []) as [[|] s1];
    cbn [snd] in Hs; subst s1.
  - rewrite (walk_entries_spec dirname dirname entries [] Hv fi). cbn [In].
    by intros [[]|?].
  - done.
Qed.

(** X15.  Under a root written in clean form, that is names joined by
    separators, with or without a leading separator, every file sent
    carries as path the root, a separator and the names that lead to the
    file joined by separators, and as key those joined names alone: the key
    is the path of the file relative to the root, without a leading
    separator. *)
Theorem keys_are_paths_relative_to_clean_root
    (rooted : bool) (dn : list string) (entries : list (string * node)) :
  dn <> [] -> Forall (fun x => valid_name x = true) dn ->
  valid_tree (Dir entries) = true ->
  forall fi,
    In fi (GetAllFiles ((if rooted then "/" else EmptyString) +:+ join_names dn)
                       (Dir entries)) ->
    exists names sz,
      names <> [] /\ descends (Dir entries) names (File sz) /\
      path fi = (((if rooted then "/" else EmptyString) +:+ join_names dn)
                 +:+ "/" +:+ join_names names)%string /\
      key fi = join_names names /\
      fileInfo fi = {| IsDir := false; Size := sz |}.
Proof.
  intros Hne Hdn Hv fi Hin.
  destruct (GetAllFiles_members _ entries Hv fi Hin) as (names & sz & Hn & Hd & _ & ->).
  exists names, sz. split; [done|]. split; [done|].
  pose proof (descends_valid_names _ _ _ Hv Hd) as Hvn.
  assert (Hp : join_all ((if rooted then "/" else EmptyString) +:+ join_names dn) names
               = (((if rooted then "/" else EmptyString) +:+ join_names dn)
                  +:+ "/" +:+ join_names names)%string).
  { rewrite join_all_clean, join_names_app by done. by rewrite append_assoc_root. }
  unfold sent_for. cbn [path key fileInfo]. rewrite Hp.
  split; [done|]. split; [|done].
  rewrite TrimPrefix_append.
  change ("/" +:+ join_names names)%string with (String "/"%char (join_names names)).
  exact (TrimPrefix_append "/" (join_names names)).
Qed.

(** The style sheet of the example tree under [/var/www]. *)
Lemma keys_are_paths_relative_to_clean_root_witness :
  let dn := [ "var"; "www" ]%string in
  let fi := Example.file_at "/var/www/css/site.css" "css/site.css" 7 in
  "/var/www"%string = ("/" +:+ join_names dn)%string /\
  Forall (fun x => valid_name x = true) dn /\
  valid_tree (Dir More.deep_tree) = true /\
  In fi (GetAllFiles "/var/www" (Dir More.deep_tree)) /\
  exists names sz,
    names <> [] /\ descends (Dir More.deep_tree) names (File sz) /\
    path fi = ("/var/www" +:+ "/" +:+ join_names names)%string /\
    key fi = join_names names /\
    fileInfo fi = {| IsDir := false; Size := sz |}.
Proof.
  intros dn fi.
  assert (H1 : dn <> []) by discriminate.
  assert (H2 : Forall (fun x => valid_name x = true) dn) by (repeat constructor).
  assert (H3 : valid_tree (Dir More.deep_tree) = true) by reflexivity.
  assert (H4 : In fi (GetAllFiles ((if true then "/" else EmptyString) +:+ join_names dn)
                                  (Dir More.deep_tree)))
    by (vm_compute; left; reflexivity).
  split; [reflexivity|]. split; [exact H2|]. split; [exact H3|]. split; [exact H4|].
  exact (keys_are_paths_relative_to_clean_root true dn More.deep_tree H1 H2 H3 fi H4).
Defined.

(** A name joined to the root "." is the name itself. *)
Lemma Join_dot (n : string) : valid_name n = true -> Filepath.Join "." n = join_names [n].
Proof.
  intros Hn. destruct (valid_name_chars n Hn) as (H1 & H2 & H3 & H4).
  unfold join_names. cbn [map Filepath.join_elements]. rewrite of_chars_chars.
  unfold Filepath.Join.
  change ("." ++ String Filepath.slash n)%string
    with (String "."%char (String "/"%char n)).
  unfold Filepath.Clean. cbn [Ascii.eqb Filepath.slash Bool.eqb].
  change (chars (String "."%char (String "/"%char n)))
    with ("."%char :: "/"%char :: chars n).
  change (Filepath.split ("."%char :: "/"%char :: chars n))
    with (["."%char] :: Filepath.split (chars n)).
  rewrite split_no_slash by done. cbn [fold_left].
  change (Filepath.clean_step false [] ["."%char]) with (@nil (list ascii)).
  rewrite clean_step_name by done. cbn [rev app Filepath.join_elements].
  rewrite of_chars_chars. by destruct (chars n).
Qed.

(** X16.  Under the root ".", every file sent carries the same string as
    path and as key: the names that lead to the file, joined by
    separators. *)
Theorem keys_are_the_paths_under_dot (entries : list (string * node)) :
  valid_tree (Dir entries) = true ->
  forall fi, In fi (GetAllFiles "." (Dir entries)) ->
    exists names sz,
      names <> [] /\ descends (Dir entries) names (File sz) /\
      path fi = join_names names /\ key fi = join_names names /\
      fileInfo fi = {| IsDir := false; Size := sz |}.
Proof.
  intros Hv fi Hin.
  destruct (GetAllFiles_members _ entries Hv fi Hin) as (names & sz & Hn & Hd & Hh & ->).
  exists names, sz. split; [done|]. split; [done|].
  pose proof (descends_valid_names _ _ _ Hv Hd) as Hvn.
  destruct names as [|n names]; [done|].
  apply Forall_cons in Hvn as [Hvn Hvs]. apply Forall_cons in Hh as [Hh _].
  assert (Hp : join_all "." (n :: names) = join_names (n :: names)).
  { cbn [join_all fold_left]. rewrite Join_dot by done.
    change (fold_left Filepath.Join names ?x) with (join_all x names).
    exact (join_all_clean false [n] names ltac:(done) ltac:(by constructor) Hvs). }
  unfold sent_for. cbn [path key fileInfo]. rewrite Hp.
  split; [done|]. split; [|done].
  destruct (join_names_head n names Hvn) as (c & rest & Hj & Hdot & Hc & _).
  rewrite Hj. unfold hidden in Hh. rewrite Hdot in Hh.
  rewrite TrimPrefix_other by done.
  apply TrimPrefix_other. by rewrite Ascii.eqb_sym.
Qed.

(** The style sheet of the example tree under the root ".". *)
Lemma keys_are_the_paths_under_dot_witness :
  let fi := Example.file_at "css/site.css" "css/site.css" 7 in
  valid_tree (Dir More.deep_tree) = true /\
  In fi (GetAllFiles "." (Dir More.deep_tree)) /\
  exists names sz,
    names <> [] /\ descends (Dir More.deep_tree) names (File sz) /\
    path fi = join_names names /\ key fi = join_names names /\
    fileInfo fi = {| IsDir := false; Size := sz |}.
Proof.
  intros fi.
  assert (H1 : valid_tree (Dir More.deep_tree) = true) by reflexivity.
  assert (H2 : In fi (GetAllFiles "." (Dir More.deep_tree)))
    by (vm_compute; left; reflexivity).
  split; [exact H1|]. split; [exact H2|].
  exact (keys_are_the_paths_under_dot More.deep_tree H1 fi H2).
Defined.

(* ===================================================================== *)
(** ** What a run does to the bucket *)
(* ===================================================================== *)

(** The three things the loop of the worker keeps: every upload is that of
    one file received, taken once; objects are added or replaced under the
    keys of the files received, and nowhere else; and a loop that returns
    without having sent a key has not changed the bucket. *)
Lemma handler_bucket E files bucket (s3Keys : gmap string string) reUpload w :
  let r := UploadFileHandler E files bucket s3Keys reUpload w in
  (exists new, uploads (trace (snd r)) = uploads (trace w) ++ new /\
               map Key new ⊆+ map key files) /\
  (forall k, (is_Some (remote w !! k) -> is_Some (remote (snd r) !! k)) /\
             (~ In k (map key files) -> remote (snd r) !! k = remote w !! k)) /\
  (fst r = Ret tt ->
   exists sent, doneChan (snd r) = doneChan w ++ sent /\
                (sent = [] -> remote (snd r) = remote w)).
Proof.
  unfold UploadFileHandler. revert w. induction files as [|f files IH]; intros w.
  - cbn [forM_ ret fst snd map]. split; [exists []; by rewrite app_nil_r|].
    split; [done|]. intros _. exists []. by rewrite app_nil_r.
  - cbn [forM_]. cbv zeta. unfold bind.
    destruct (upload_one E bucket s3Keys reUpload f w) as [o w1] eqn:H1.
    apply upload_one_effects in H1 as [_ H1].
    assert (Hone :
      (exists new1, uploads (trace w1) = uploads (trace w) ++ new1 /\
                    (new1 = [] \/ map Key new1 = [key f])) /\
      (forall k, (is_Some (remote w !! k) -> is_Some (remote w1 !! k)) /\
                 (k <> key f -> remote w1 !! k = remote w !! k)) /\
      (o = Ret tt ->
       exists sent1, doneChan w1 = doneChan w ++ sent1 /\
                     (sent1 = [] -> remote w1 = remote w))).
    { destruct H1 as [(Hu & Hr & Hd) | (input & Hu & _ & Hk & _ & Hcases)].
      - split; [exists []; rewrite app_nil_r; by split; [|left]|].
        split; [by rewrite Hr|]. intros _. exists []. by rewrite app_nil_r.
      - split; [exists [input]; split; [done|right; cbn [map]; by rewrite Hk]|].
        destruct Hcases as [(_ & Hr & Hd & _) | (_ & Hr & Hsent)].
        + split; [by rewrite Hr|]. intros _. exists []. by rewrite app_nil_r.
        + split.
          * intros k. rewrite Hr. split.
            -- intros Hs. destruct (decide (k = key f)) as [->|Hne].
               ++ by rewrite lookup_insert_eq.
               ++ by rewrite lookup_insert_ne.
            -- intros Hne. by rewrite lookup_insert_ne.
          * intros ->. destruct Hsent as [(u & _ & Hd & _) | (_ & _ & [=])].
            exists [URL.String_ u]. split; [done|]. discriminate. }
    destruct Hone as ((new1 & Hu1 & Hn1) & Hk1 & Hs1).
    destruct o as [[]| |]; cbn [fst snd].
    + destruct (IH w1) as ((new2 & Hu2 & Hn2) & Hk2 & Hs2).
      split; [|split].
      * exists (new1 ++ new2). split; [by rewrite Hu2, Hu1, app_assoc|].
        rewrite map_app. cbn [map].
        destruct Hn1 as [->| ->]; [by apply submseteq_cons|by apply submseteq_skip].
      * intros k. destruct (Hk1 k) as [Ha1 Hb1], (Hk2 k) as [Ha2 Hb2]. split; [auto|].
        intros Hni. cbn [map In] in Hni. rewrite Hb2, Hb1; [done|..]; intros ?; apply Hni; auto.
      * intros Hret. destruct (Hs1 eq_refl) as (sent1 & Hd1 & Hr1).
        destruct (Hs2 Hret) as (sent2 & Hd2 & Hr2).
        exists (sent1 ++ sent2). split; [by rewrite Hd2, Hd1, app_assoc|].
        intros [-> ->]%app_eq_nil. by rewrite Hr2, Hr1.
    + split; [|split; [|done]].
      * exists new1. split; [done|]. cbn [map].
        destruct Hn1 as [->| ->]; [apply submseteq_nil_l|].
        apply submseteq_skip, submseteq_nil_l.
      * intros k. destruct (Hk1 k) as [Ha1 Hb1]. split; [done|].
        intros Hni. cbn [map In] in Hni. apply Hb1. intros ?; apply Hni; auto.
    + split; [|split; [|done]].
      * exists new1. split; [done|]. cbn [map].
        destruct Hn1 as [->| ->]; [apply submseteq_nil_l|].
        apply submseteq_skip, submseteq_nil_l.
      * intros k. destruct (Hk1 k) as [Ha1 Hb1]. split; [done|].
        intros Hni. cbn [map In] in Hni. apply Hb1. intros ?; apply Hni; auto.
Qed.

(** The same of the workers of a run, whatever their number. *)
Lemma workers_bucket E bucket root tree reUpload concurrentNum
    (s3Keys : gmap string string) w :
  let r := run_workers E bucket root tree reUpload concurrentNum s3Keys w in
  (exists new, uploads (trace (snd r)) = uploads (trace w) ++ new /\
               map Key new ⊆+ map key (GetAllFiles root tree)) /\
  (forall k, (is_Some (remote w !! k) -> is_Some (remote (snd r) !! k)) /\
             (~ In k (map key (GetAllFiles root tree)) ->
              remote (snd r) !! k = remote w !! k)) /\
  (fst r = Ret tt ->
   exists sent, doneChan (snd r) = doneChan w ++ sent /\
                (sent = [] -> remote (snd r) = remote w)).
Proof.
  assert (Hsame : forall o : outcome unit,
    (exists new, uploads (trace w) = uploads (trace w) ++ new /\
                 map Key new ⊆+ map key (GetAllFiles root tree)) /\
    (forall k, (is_Some (remote w !! k) -> is_Some (remote w !! k)) /\
               (~ In k (map key (GetAllFiles root tree)) ->
                remote w !! k = remote w !! k)) /\
    (o = Ret tt ->
     exists sent, doneChan w = doneChan w ++ sent /\ (sent = [] -> remote w = remote w))).
  { intros o. split; [exists []; rewrite app_nil_r; split; [done|apply submseteq_nil_l]|].
    split; [done|]. intros _. exists []. by rewrite app_nil_r. }
  unfold run_workers.
  destruct (concurrentNum <? 0); [apply (Hsame Panic)|].
  destruct (concurrentNum =? 0); [apply (Hsame (Ret tt))|].
  apply handler_bucket.
Qed.

(** A run, seen from the bucket: it ends before the workers start, or its
    uploads and its bucket are those the workers leave; and when it
    returns, the workers have returned, and have sent no key unless the
    distributions could be listed. *)
Lemma Sync_cases E bucket root tree reUpload concurrentNum w :
  let w0 := snd (emit (EvListObjects bucket) w) in
  let r' := Sync E bucket root tree reUpload concurrentNum w in
  (r' = (Exit, w0)) \/
  let r := run_workers E bucket root tree reUpload concurrentNum (inventory E w) w0 in
  uploads (trace (snd r')) = uploads (trace (snd r)) /\
  remote (snd r') = remote (snd r) /\
  (fst r' = Ret tt ->
   fst r = Ret tt /\
   (distributions E = None ->
    take (appended_at_wait E (doneChan (snd r))) (doneChan (snd r)) = [])).
Proof.
  cbv zeta. rewrite Sync_unfold. cbv zeta.
  set (w0 := snd (emit (EvListObjects bucket) w)).
  assert (Hal : forall s3Keys : gmap string string,
    let r' := after_listing E bucket root tree reUpload concurrentNum s3Keys w0 in
    let r := run_workers E bucket root tree reUpload concurrentNum s3Keys w0 in
    uploads (trace (snd r')) = uploads (trace (snd r)) /\
    remote (snd r') = remote (snd r) /\
    (fst r' = Ret tt ->
     fst r = Ret tt /\
     (distributions E = None ->
      take (appended_at_wait E (doneChan (snd r))) (doneChan (snd r)) = []))).
  { intros s3Keys. cbv zeta. rewrite after_listing_run.
    destruct (run_workers E bucket root tree reUpload concurrentNum s3Keys w0)
      as [[[]| |] wh]; cbn [fst snd]; [|done..].
    destruct (InvalidCloudFront_frame E bucket
                (take (appended_at_wait E (doneChan wh)) (doneChan wh)) wh) as (Hu & Hr & _).
    split; [done|]. split; [done|]. intros Hret. split; [done|]. intros Hnone.
    destruct (take (appended_at_wait E (doneChan wh)) (doneChan wh)) as [|k ks]; [done|].
    unfold InvalidCloudFront in Hret. cbn [List.length Nat.eqb] in Hret.
    rewrite bind_ListDistributions_run, Hnone in Hret. discriminate Hret. }
  destruct (list_objects_fails E).
  - destruct (DisplayAwsErr_exits E ErrAws); [by left|]. right. apply Hal.
  - right. apply Hal.
Qed.

(** X17.  In a run, every upload is that of one enumerated file, and no
    file is uploaded twice: the keys of the uploads of the run are, up to
    their order, among the keys of the files enumerated, each taken at most
    as often as it is enumerated. *)
Theorem each_file_is_uploaded_at_most_once
    (E : env) (bucket root : string) (tree : node) (reUpload : bool)
    (concurrentNum : Z) (w : world) :
  exists new,
    uploads (trace (snd (Sync E bucket root tree reUpload concurrentNum w)))
    = uploads (trace w) ++ new /\
    map Key new ⊆+ map key (GetAllFiles root tree).
Proof.
  assert (H0 : uploads (trace (snd (emit (EvListObjects bucket) w))) = uploads (trace w))
    by (cbn [snd emit trace]; by rewrite uploads_snoc_other).
  destruct (Sync_cases E bucket root tree reUpload concurrentNum w)
    as [-> | (Hu & _)].
  - exists []. cbn [snd]. rewrite H0, app_nil_r. split; [done|apply submseteq_nil_l].
  - cbv zeta in Hu. rewrite Hu.
    destruct (workers_bucket E bucket root tree reUpload concurrentNum (inventory E w)
                (snd (emit (EvListObjects bucket) w))) as ((new & Hn & Hs) & _).
    exists new. by rewrite Hn, H0.
Qed.

(** X18.  A run never removes an object from the bucket: a key that has an
    object before the run has one after it, however the run ends, and an
    object whose key is the key of no enumerated file keeps its entity tag.
    Objects whose files are gone from the tree stay in the bucket. *)
Theorem run_never_deletes_objects
    (E : env) (bucket root : string) (tree : node) (reUpload : bool)
    (concurrentNum : Z) (w : world) (k : string) :
  let w' := snd (Sync E bucket root tree reUpload concurrentNum w) in
  (is_Some (remote w !! k) -> is_Some (remote w' !! k)) /\
  (~ In k (map key (GetAllFiles root tree)) -> remote w' !! k = remote w !! k).
Proof.
  cbv zeta.
  destruct (Sync_cases E bucket root tree reUpload concurrentNum w)
    as [-> | (_ & Hr & _)].
  - done.
  - cbv zeta in Hr. rewrite Hr.
    destruct (workers_bucket E bucket root tree reUpload concurrentNum (inventory E w)
                (snd (emit (EvListObjects bucket) w))) as (_ & Hk & _).
    exact (Hk k).
Qed.

(** The object of a file that is gone is still in the bucket after the run
    on the example site. *)
Lemma run_never_deletes_objects_witness :
  let E := Example.demo_env true in
  let w := More.stale_start in
  let w' := snd (Sync E "example.com" "site" Example.ab_tree false 4 w) in
  is_Some (remote w !! "old.html"%string) /\
  ~ In "old.html"%string (map key (GetAllFiles "site" Example.ab_tree)) /\
  is_Some (remote w' !! "old.html"%string) /\
  remote w' !! "old.html"%string = remote w !! "old.html"%string.
Proof.
  intros E w w'.
  assert (H1 : is_Some (remote w !! "old.html"%string)) by (vm_compute; eauto).
  assert (H2 : ~ In "old.html"%string (map key (GetAllFiles "site" Example.ab_tree)))
    by (intros [H|[H|[]]]; discriminate H).
  split; [exact H1|]. split; [exact H2|].
  pose proof (run_never_deletes_objects E "example.com" "site" Example.ab_tree false 4 w
                "old.html") as [Ha Hb].
  split; [exact (Ha H1)|exact (Hb H2)].
Defined.

(** X19.  The answer of [ListDistributions] is read without a look at its
    error: when it holds no distribution list, [InvalidCloudFront] on paths
    that are not empty ends in a panic and creates no invalidation, and so
    no run creates one.  If moreover every key sent has been collected when
    the run comes to the invalidation, a run from an empty channel returns
    only if it has not changed the bucket. *)
Theorem unlisted_distributions_stop_the_run
    (E : env) (bucket root : string) (tree : node) (reUpload : bool)
    (concurrentNum : Z) (w : world) (paths : list string) (w1 : world) :
  distributions E = None ->
  (paths <> [] ->
   fst (InvalidCloudFront E bucket paths w1) = Panic /\
   invalidations (trace (snd (InvalidCloudFront E bucket paths w1)))
   = invalidations (trace w1)) /\
  (let r := Sync E bucket root tree reUpload concurrentNum w in
   invalidations (trace (snd r)) = invalidations (trace w) /\
   (doneChan w = [] ->
    (forall sent, (List.length sent <= appended_at_wait E sent)%nat) ->
    fst r = Ret tt -> remote (snd r) = remote w)).
Proof.
  intros Hnone.
  assert (Hicf : forall ks wx, ks <> [] ->
            fst (InvalidCloudFront E bucket ks wx) = Panic /\
            invalidations (trace (snd (InvalidCloudFront E bucket ks wx)))
            = invalidations (trace wx)).
  { intros ks wx Hks. unfold InvalidCloudFront. destruct ks as [|k ks]; [done|].
    cbn [List.length Nat.eqb]. rewrite bind_ListDistributions_run, Hnone.
    cbn [panic fst snd emit trace]. by rewrite invalidations_snoc_list. }
  split; [apply Hicf|]. cbv zeta. split.
  - rewrite Sync_unfold. cbv zeta.
    set (w0 := snd (emit (EvListObjects bucket) w)).
    assert (H0 : invalidations (trace w0) = invalidations (trace w))
      by (cbn [w0 snd emit trace]; by rewrite invalidations_snoc_other).
    assert (Hal : forall s3Keys : gmap string string,
      invalidations
        (trace (snd (after_listing E bucket root tree reUpload concurrentNum s3Keys w0)))
      = invalidations (trace w)).
    { intros s3Keys. rewrite after_listing_run.
      pose proof (workers_effects E bucket root tree reUpload concurrentNum s3Keys w0)
        as (_ & Hi & _). cbv zeta in Hi.
      destruct (run_workers E bucket root tree reUpload concurrentNum s3Keys w0)
        as [[[]| |] wh]; cbn [snd] in Hi |- *; [|by rewrite Hi, H0..].
      destruct (take (appended_at_wait E (doneChan wh)) (doneChan wh)) as [|k ks] eqn:Hk.
      - cbn. by rewrite Hi, H0.
      - destruct (Hicf (k :: ks) wh) as [_ ->]; [done|]. by rewrite Hi, H0. }
    destruct (list_objects_fails E); [|apply Hal].
    destruct (DisplayAwsErr_exits E ErrAws); [exact H0|apply Hal].
  - intros Hd Hall Hret.
    destruct (Sync_cases E bucket root tree reUpload concurrentNum w)
      as [Hx | (_ & Hr & Hw)].
    + by rewrite Hx in Hret.
    + rewrite Hr. destruct (Hw Hret) as [Hret' Hdone].
      destruct (workers_bucket E bucket root tree reUpload concurrentNum (inventory E w)
                  (snd (emit (EvListObjects bucket) w))) as (_ & _ & Hs).
      destruct (Hs Hret') as (sent & Hsent & Hrem).
      specialize (Hdone Hnone). rewrite take_ge in Hdone by apply Hall.
      rewrite Hdone in Hsent. cbn [snd emit doneChan] in Hsent.
      rewrite Hd in Hsent. cbn [app] in Hsent. symmetry in Hsent.
      by rewrite (Hrem Hsent).
Qed.

(** Without a distribution list the run on the example site ends in the
    panic, after its uploads, and the run on the site that is in the bucket
    already returns. *)
Lemma unlisted_distributions_stop_the_run_witness :
  let E := More.undistributed_env in
  distributions E = None /\
  (fst (InvalidCloudFront E "example.com" ["/a.txt"]%string Example.ab_start) = Panic /\
   invalidations
     (trace (snd (InvalidCloudFront E "example.com" ["/a.txt"]%string Example.ab_start)))
   = invalidations (trace Example.ab_start)) /\
  (let r := Sync E "example.com" "site" Example.ab_tree false 4 More.synced_start in
   fst r = Ret tt /\
   invalidations (trace (snd r)) = invalidations (trace More.synced_start) /\
   remote (snd r) = remote More.synced_start) /\
  (let r := Sync E "example.com" "site" Example.ab_tree false 4 Example.ab_start in
   fst r = Panic /\ remote (snd r) <> remote Example.ab_start).
Proof.
  intros E.
  assert (H1 : distributions E = None) by reflexivity.
  assert (H2 : doneChan More.synced_start = []) by reflexivity.
  assert (H3 : forall sent, (List.length sent <= appended_at_wait E sent)%nat)
    by (intros sent; cbn; lia).
  assert (H4 : fst (Sync E "example.com" "site" Example.ab_tree false 4 More.synced_start)
               = Ret tt) by (vm_compute; reflexivity).
  assert (H5 : ["/a.txt"]%string <> []) by discriminate.
  pose proof (unlisted_distributions_stop_the_run
                E "example.com" "site" Example.ab_tree false 4 More.synced_start
                ["/a.txt"]%string Example.ab_start H1) as (Hp & Hi & Hr).
  split; [exact H1|]. split; [exact (Hp H5)|]. split.
  - split; [exact H4|]. split; [exact Hi|exact (Hr H2 H3 H4)].
  - split; [vm_compute; reflexivity|].
    intros H. apply (f_equal (fun m => m !! "b.txt"%string)) in H.
    vm_compute in H. discriminate H.
Defined.

(** X20.  Against a store that keeps as entity tag the MD5 of each uploaded
    body: after a run without force that returns, with one worker or more,
    a listing and uploads that succeed, distinct keys and temporary files
    that are none of the files enumerated, the bucket holds under the key
    of every enumerated file the digest of what the worker uploads for that
    file, and the files are as they were. *)
Theorem returned_run_leaves_digests_in_bucket
    (E : env) (bucket root : string) (tree : node) (concurrentNum : Z) (w : world) :
  list_objects_fails E = false ->
  (forall input, upload_fails E input = false) ->
  NoDup (map key (GetAllFiles root tree)) ->
  (forall file, In file (GetAllFiles root tree) -> local_path E (path file)) ->
  0 < concurrentNum ->
  fst (Sync E bucket root tree false concurrentNum w) = Ret tt ->
  let w' := snd (Sync E bucket root tree false concurrentNum w) in
  forall file, In file (GetAllFiles root tree) ->
    remote w' !! key file = Some (file_digest E file w') /\
    fs w' !! path file = fs w !! path file.
Proof.
  intros Hlist Hup Hnd Hloc Hpos Hret. cbv zeta. revert Hret.
  rewrite Sync_run by done.
  set (w0 := snd (emit (EvListObjects bucket) w)).
  destruct (concurrentNum <? 0) eqn:Hneg; [lia|].
  destruct (concurrentNum =? 0) eqn:Hzero; [lia|].
  unfold bind, read_doneChan.
  destruct (UploadFileHandler E (GetAllFiles root tree) bucket (remote w) false w0)
    as [oh wh] eqn:Hh.
  destruct oh as [[]| |]; [intros _|discriminate..].
  apply handler_leaves_digests in Hh as (Hs & Hd & _); [|done..].
  destruct (InvalidCloudFront_frame E bucket (take (appended_at_wait E (doneChan wh)) (doneChan wh)) wh) as (_ & Hr1 & Hf1).
  intros file Hin.
  assert (Hsame : same_local_files E w0 (snd (InvalidCloudFront E bucket (take (appended_at_wait E (doneChan wh)) (doneChan wh)) wh))).
  { intros p Hp. rewrite Hf1. by apply Hs. }
  split.
  - rewrite Hr1, (Hd file Hin). f_equal. symmetry.
    apply file_digest_same; [by apply Hloc|exact Hsame].
  - rewrite (Hsame _ (Hloc file Hin)). done.
Qed.

(** After the run on the example site the bucket holds the digest of
    "hello" under [a.txt]. *)
Lemma returned_run_leaves_digests_in_bucket_witness :
  let E := Example.demo_env true in
  let w := Example.ab_start in
  let w' := snd (Sync E "example.com" "site" Example.ab_tree false 4 w) in
  NoDup (map key (GetAllFiles "site" Example.ab_tree)) /\
  fst (Sync E "example.com" "site" Example.ab_tree false 4 w) = Ret tt /\
  In Example.a_file (GetAllFiles "site" Example.ab_tree) /\
  file_digest E Example.a_file w' = "5d41402abc4b2a76b9719d911017c592"%string /\
  remote w' !! key Example.a_file = Some (file_digest E Example.a_file w') /\
  fs w' !! path Example.a_file = fs w !! path Example.a_file.
Proof.
  intros E w w'.
  assert (H1 : list_objects_fails E = false) by reflexivity.
  assert (H2 : forall input, upload_fails E input = false) by reflexivity.
  assert (H3 : NoDup (map key (GetAllFiles "site" Example.ab_tree))).
  { change (NoDup [ "a.txt"; "b.txt" ]%string). apply NoDup_cons. split.
    - rewrite list_elem_of_In. intros [H|[]]. discriminate H.
    - apply NoDup_singleton. }
  assert (H4 : forall file, In file (GetAllFiles "site" Example.ab_tree) ->
                            local_path E (path file)).
  { intros file [<-|[<-|[]]] k; cbn; discriminate. }
  assert (H5 : 0 < 4) by lia.
  assert (H6 : fst (Sync E "example.com" "site" Example.ab_tree false 4 w) = Ret tt)
    by (vm_compute; reflexivity).
  assert (H7 : In Example.a_file (GetAllFiles "site" Example.ab_tree))
    by (left; reflexivity).
  split; [exact H3|]. split; [exact H6|]. split; [exact H7|].
  split; [vm_compute; reflexivity|].
  exact (returned_run_leaves_digests_in_bucket
           E "example.com" "site" Example.ab_tree 4 w H1 H2 H3 H4 H5 H6
           Example.a_file H7).
Defined.

(* ===================================================================== *)
(** ** The temporary files of a run *)
(* ===================================================================== *)

Lemma keeps_files_same E w w' :
  fs w' = fs w -> ntemp w' = ntemp w -> keeps_files E w w'.
Proof.
  intros Hf Hn. unfold keeps_files. rewrite Hf, Hn.
  split; [done|]. split; [done|]. intros k Hk. lia.
Qed.

Lemma keeps_files_trans E w1 w2 w3 :
  keeps_files E w1 w2 -> keeps_files E w2 w3 -> keeps_files E w1 w3.
Proof.
  intros (Hn1 & Hf1 & Ht1) (Hn2 & Hf2 & Ht2). split; [lia|]. split; [auto|].
  intros k Hk. destruct (decide (k < ntemp w2)%nat) as [Hlt|Hge].
  - apply Hf2, Ht1. lia.
  - apply Ht2. lia.
Qed.

Section TempFacts.
Variable E : env.

Lemma compress_stage_keeps file w :
  keeps_files E w (snd (compress_stage E file w)).
Proof.
  unfold compress_stage. destruct (compresses file); [|by apply keeps_files_same].
  rewrite bind_Println_run. unfold ioutil_TempFile at 1. unfold bind at 1.
  cbn [snd emit fs ntemp remote trace doneChan].
  rewrite bind_os_Open_run, CheckErr_open_err, bind_CheckErr_run.
  destruct (match open_err _ with Some e => _ | None => _ end);
    (split; [cbn; lia|]; split; [intros p Hp|intros k Hk]); cbn in *.
  - destruct (decide (TempName E (ntemp w) = p)) as [->|Hne];
      [by rewrite lookup_insert_eq|by rewrite lookup_insert_ne].
  - replace k with (ntemp w) by lia. by rewrite lookup_insert_eq.
  - destruct (decide (TempName E (ntemp w) = p)) as [->|Hne];
      [by rewrite lookup_insert_eq|by rewrite !lookup_insert_ne].
  - replace k with (ntemp w) by lia. by rewrite lookup_insert_eq.
Qed.

Lemma prepare_keeps file w : keeps_files E w (snd (prepare E file w)).
Proof.
  unfold prepare. pose proof (compress_stage_keeps file w) as H1.
  unfold bind at 1. destruct (compress_stage E file w) as [[[up enc]| |] w1];
    cbn [snd] in *; [|done..].
  unfold bind at 1. destruct (classify_stage E file w1) as [[ct| |] w2] eqn:Hc;
    apply classify_stage_spec in Hc as (_ & Hfs & Hnt & _); cbn [snd].
  2,3: eapply keeps_files_trans; [exact H1|by apply keeps_files_same].
  unfold bind at 1. destruct (Hashfile_spec E up w2) as [-> | ->]; cbn [snd].
  - eapply keeps_files_trans; [exact H1|by apply keeps_files_same].
  - rewrite bind_ret_run. cbn [ret snd].
    eapply keeps_files_trans; [exact H1|by apply keeps_files_same].
Qed.

Lemma upload_one_keeps bucket (s3Keys : gmap string string) reUpload file w :
  keeps_files E w (snd (upload_one E bucket s3Keys reUpload file w)).
Proof.
  destruct (upload_one E bucket s3Keys reUpload file w) as [o w'] eqn:H. cbn [snd].
  pose proof (prepare_keeps file w) as Hk. unfold upload_one in H.
  apply bind_inv in H as [([[[up enc] ct] hash] & wp & Hp & H) | [[Hp ->] | [Hp ->]]];
    rewrite Hp in Hk; cbn [snd] in Hk; [|done..].
  destruct (decide (s3Keys !! key file = Some hash /\ reUpload = false)) as [[He ->]|Hno].
  { rewrite compare_skip in H by done. by injection H as <- <-. }
  apply (compare_upload E _ _ _ _ _ _ _ _ _ _ _ Hno) in H as (_ & Hfs & Hnt & _).
  eapply keeps_files_trans; [exact Hk|by apply keeps_files_same].
Qed.

Lemma handler_keeps files bucket (s3Keys : gmap string string) reUpload w :
  keeps_files E w (snd (UploadFileHandler E files bucket s3Keys reUpload w)).
Proof.
  unfold UploadFileHandler. revert w. induction files as [|f files IH]; intros w.
  - by apply keeps_files_same.
  - cbn [forM_]. unfold bind.
    pose proof (upload_one_keeps bucket s3Keys reUpload f w) as H1.
    destruct (upload_one E bucket s3Keys reUpload f w) as [o w1].
    destruct o as [[]| |]; cbn [snd] in *; [|done..].
    eapply keeps_files_trans; [exact H1|apply IH].
Qed.

Lemma InvalidCloudFront_ntemp domain paths w :
  ntemp (snd (InvalidCloudFront E domain paths w)) = ntemp w.
Proof.
  unfold InvalidCloudFront. destruct (Nat.eqb _ 0); [done|].
  rewrite bind_ListDistributions_run. destruct (distributions E) as [items|]; [|done].
  rewrite bind_Println_run, bind_forM_Println_run, bind_CreateInvalidation_run.
  by rewrite DisplayAwsErr_world.
Qed.

End TempFacts.

(** X21.  The temporary files of a run are never removed: after the run,
    however it ends, every temporary file created during it is still there,
    and so is every file that was there before. *)
Theorem temporary_files_are_left_behind
    (E : env) (bucket root : string) (tree : node) (reUpload : bool)
    (concurrentNum : Z) (w : world) :
  let w' := snd (Sync E bucket root tree reUpload concurrentNum w) in
  (ntemp w <= ntemp w')%nat /\
  (forall k, (ntemp w <= k < ntemp w')%nat -> is_Some (fs w' !! TempName E k)) /\
  (forall p, is_Some (fs w !! p) -> is_Some (fs w' !! p)).
Proof.
  cbv zeta.
  enough (H : keeps_files E w (snd (Sync E bucket root tree reUpload concurrentNum w)))
    by (destruct H as (? & ? & ?); done).
  rewrite Sync_unfold. cbv zeta.
  set (w0 := snd (emit (EvListObjects bucket) w)).
  assert (H0 : keeps_files E w w0) by (by apply keeps_files_same).
  assert (Hal : forall s3Keys : gmap string string,
    keeps_files E w
      (snd (after_listing E bucket root tree reUpload concurrentNum s3Keys w0))).
  { intros s3Keys. rewrite after_listing_run.
    assert (Hw : keeps_files E w0
              (snd (run_workers E bucket root tree reUpload concurrentNum s3Keys w0))).
    { unfold run_workers. destruct (concurrentNum <? 0); [by apply keeps_files_same|].
      destruct (concurrentNum =? 0); [by apply keeps_files_same|]. apply handler_keeps. }
    destruct (run_workers E bucket root tree reUpload concurrentNum s3Keys w0)
      as [[[]| |] wh]; cbn [snd] in *;
      [|eapply keeps_files_trans; [exact H0|exact Hw]..].
    eapply keeps_files_trans; [exact H0|]. eapply keeps_files_trans; [exact Hw|].
    apply keeps_files_same; [|apply InvalidCloudFront_ntemp].
    apply InvalidCloudFront_frame. }
  destruct (list_objects_fails E); [|apply Hal].
  destruct (DisplayAwsErr_exits E ErrAws); [exact H0|apply Hal].
Qed.

(** The page of the example leaves its compressed copy behind. *)
Lemma temporary_files_are_left_behind_witness :
  let E := Example.demo_env true in
  let w := Example.page_start in
  let w' := snd (Sync E "example.com" "site" More.page_tree false 4 w) in
  (ntemp w <= 0 < ntemp w')%nat /\
  is_Some (fs w' !! TempName E 0) /\
  (is_Some (fs w !! "site/page.txt"%string) ->
   is_Some (fs w' !! "site/page.txt"%string)).
Proof.
  intros E w w'.
  assert (H1 : (ntemp w <= 0 < ntemp w')%nat) by (vm_compute; lia).
  split; [exact H1|].
  pose proof (temporary_files_are_left_behind E "example.com" "site" More.page_tree
                false 4 w) as (_ & Ht & Hf).
  split; [exact (Ht 0%nat H1)|exact (Hf "site/page.txt"%string)].
Defined.

(* ===================================================================== *)
(** ** The files a run uploads *)
(* ===================================================================== *)

Lemma needs_upload_true (s3Keys : gmap string string) reUpload digest k :
  needs_upload s3Keys reUpload digest k = true <->
  (s3Keys !! k = None \/
   (exists etag, s3Keys !! k = Some etag /\ etag <> digest) \/
   reUpload = true).
Proof.
  unfold needs_upload. destruct (s3Keys !! k) as [etag|].
  - rewrite orb_true_iff, negb_true_iff, String.eqb_neq. split.
    + intros [Hne| ->]; [right; left; by exists etag|by right; right].
    + intros [[=]|[(e & [= <-] & Hne)| ->]]; auto.
  - split; [by left|done].
Qed.

Lemma needs_upload_false (s3Keys : gmap string string) reUpload digest k :
  needs_upload s3Keys reUpload digest k = false <->
  (is_Some (s3Keys !! k) /\ reUpload = false /\ s3Keys !! k = Some digest).
Proof.
  unfold needs_upload. destruct (s3Keys !! k) as [etag|].
  - rewrite orb_false_iff, negb_false_iff, String.eqb_eq. split.
    + intros [-> ->]. eauto.
    + by intros (_ & -> & [= ->]).
  - split; [done|]. by intros ([? [=]] & _).
Qed.

(** One turn of the loop that ends well: the upload it makes, or not, by
    the condition of the specification. *)
Lemma upload_one_decision E bucket (s3Keys : gmap string string) reUpload file w w1 :
  local_path E (path file) ->
  upload_one E bucket s3Keys reUpload file w = (Ret tt, w1) ->
  same_local_files E w w1 /\
  exists new1,
    uploads (trace w1) = uploads (trace w) ++ new1 /\
    map Key new1
    = if needs_upload s3Keys reUpload (file_digest E file w) (key file)
      then [key file] else [].
Proof.
  intros Hl H. unfold upload_one in H.
  apply bind_inv in H as [([[[up enc] ct] hash] & wp & Hp & H) | [[_ [=]] | [_ [=]]]].
  pose proof Hp as Hq. apply prepare_spec in Hq as [(_ & _ & Hu & _) _].
  apply prepare_digest in Hp as (Hh & _ & Hs); [|done].
  destruct (decide (s3Keys !! key file = Some hash /\ reUpload = false)) as [[He ->]|Hno].
  - rewrite compare_skip in H by done. injection H as <-.
    split; [done|]. exists []. rewrite app_nil_r. split; [done|].
    rewrite <- Hh, (proj2 (needs_upload_false s3Keys false hash (key file))); [done|].
    rewrite He. eauto.
  - apply (compare_upload E _ _ _ _ _ _ _ _ _ _ _ Hno) in H as (Ht & Hfs & _).
    split; [intros p Hp'; rewrite Hfs; by apply Hs|].
    exists [upParams_of bucket file up enc ct wp]. split.
    + unfold uploads in *. by rewrite Ht, omap_app, Hu.
    + rewrite <- Hh, (proj2 (needs_upload_true s3Keys reUpload hash (key file))); [done|].
      destruct (s3Keys !! key file) as [etag|] eqn:Hk; [|by left].
      destruct reUpload; [by right; right|]. right. left. exists etag.
      split; [done|]. intros ->. by apply Hno.
Qed.

(** The loop of the worker, when it ends well: its uploads are those of the
    files received that the condition names, one for each. *)
Lemma handler_decisions E bucket (s3Keys : gmap string string) reUpload files :
  (forall file, In file files -> local_path E (path file)) ->
  forall w w',
    UploadFileHandler E files bucket s3Keys reUpload w = (Ret tt, w') ->
    same_local_files E w w' /\
    exists new,
      uploads (trace w') = uploads (trace w) ++ new /\
      map Key new
      = map key (List.filter
                   (fun file => needs_upload s3Keys reUpload (file_digest E file w) (key file))
                   files).
Proof.
  unfold UploadFileHandler. induction files as [|f files IH]; intros Hl w w' H.
  - injection H as <-. split; [apply same_local_files_refl|].
    exists []. by rewrite app_nil_r.
  - cbn [forM_] in H.
    apply bind_inv in H as [([] & w1 & H1 & H) | [[_ [=]] | [_ [=]]]].
    apply upload_one_decision in H1 as (Hs1 & new1 & Hu1 & Hk1); [|by apply Hl; left].
    apply IH in H as (Hs & new2 & Hu2 & Hk2); [|by intros; apply Hl; right].
    split; [by eapply same_local_files_trans|].
    exists (new1 ++ new2). split; [by rewrite Hu2, Hu1, app_assoc|].
    rewrite map_app, Hk1, Hk2. cbn [List.filter].
    rewrite (List.filter_ext_in
               (fun file => needs_upload s3Keys reUpload (file_digest E file w1) (key file))
               (fun file => needs_upload s3Keys reUpload (file_digest E file w) (key file))).
    + by destruct (needs_upload s3Keys reUpload (file_digest E f w) (key f)).
    + intros g Hg. f_equal. apply file_digest_same; [apply Hl; by right|done].
Qed.

(** A run that returns, with a worker: its uploads are those of the
    enumerated files that the condition names against the inventory of the
    run. *)
Lemma Sync_decisions E bucket root tree reUpload concurrentNum w :
  0 < concurrentNum ->
  (forall file, In file (GetAllFiles root tree) -> local_path E (path file)) ->
  fst (Sync E bucket root tree reUpload concurrentNum w) = Ret tt ->
  exists new,
    uploads (trace (snd (Sync E bucket root tree reUpload concurrentNum w)))
    = uploads (trace w) ++ new /\
    map Key new
    = map key (List.filter
                 (fun file => needs_upload (inventory E w) reUpload
                                           (file_digest E file w) (key file))
                 (GetAllFiles root tree)).
Proof.
  intros Hpos Hl Hret.
  destruct (Sync_cases E bucket root tree reUpload concurrentNum w)
    as [Hx | (Hu & _ & Hw)]; [by rewrite Hx in Hret|].
  destruct (Hw Hret) as [Hret' _]. rewrite Hu. revert Hret'. unfold run_workers.
  destruct (concurrentNum <? 0) eqn:Hneg; [lia|].
  destruct (concurrentNum =? 0) eqn:Hzero; [lia|].
  set (w0 := snd (emit (EvListObjects bucket) w)).
  destruct (UploadFileHandler E (GetAllFiles root tree) bucket (inventory E w) reUpload w0)
    as [oh wh] eqn:Hh.
  cbn [fst snd]. intros ->.
  apply handler_decisions in Hh as (_ & new & Hn & Hk); [|done].
  exists new. split; [|exact Hk].
  rewrite Hn. unfold w0. cbn [snd emit trace]. by rewrite uploads_snoc_other.
Qed.

Lemma key_of_NoDup (files : list FileInfo) (f g : FileInfo) :
  NoDup (map key files) -> In f files -> In g files -> key f = key g -> f = g.
Proof.
  induction files as [|h files IH]; [done|].
  cbn [map]. intros [Hh Hnd]%NoDup_cons [<-|Hf] [<-|Hg] Hk.
  - done.
  - destruct Hh. rewrite list_elem_of_In, Hk. by apply in_map.
  - destruct Hh. rewrite list_elem_of_In, <- Hk. by apply in_map.
  - by apply IH.
Qed.

(** C1.  In a run of [Sync] that returns, with one worker or more and
    temporary files that are none of the files enumerated: the uploads of
    the run are, up to their order, one for every enumerated file whose key
    is absent from the inventory of the run, or whose digest differs from
    the one stored there, or when the force flag is set, and none for the
    other files.  So, the keys being distinct, an enumerated file is
    uploaded if and only if one of the three holds, and it is skipped
    exactly when the inventory has its key, the flag is unset and the stored
    digest equals the digest of the file. *)
Theorem enumerated_file_is_uploaded_iff_absent_changed_or_forced
    (E : env) (bucket root : string) (tree : node) (reUpload : bool)
    (concurrentNum : Z) (w : world) :
  0 < concurrentNum ->
  (forall file, In file (GetAllFiles root tree) -> local_path E (path file)) ->
  fst (Sync E bucket root tree reUpload concurrentNum w) = Ret tt ->
  exists new,
    uploads (trace (snd (Sync E bucket root tree reUpload concurrentNum w)))
    = uploads (trace w) ++ new /\
    map Key new
    ≡ₚ map key (List.filter
                  (fun file => needs_upload (inventory E w) reUpload
                                            (file_digest E file w) (key file))
                  (GetAllFiles root tree)) /\
    (NoDup (map key (GetAllFiles root tree)) ->
     forall file, In file (GetAllFiles root tree) ->
       ((exists input, In input new /\ Key input = key file) <->
        (inventory E w !! key file = None \/
         (exists etag, inventory E w !! key file = Some etag /\
                       etag <> file_digest E file w) \/
         reUpload = true)) /\
       ((~ exists input, In input new /\ Key input = key file) <->
        (is_Some (inventory E w !! key file) /\ reUpload = false /\
         inventory E w !! key file = Some (file_digest E file w)))).
Proof.
  intros Hpos Hl Hret.
  destruct (Sync_decisions E bucket root tree reUpload concurrentNum w Hpos Hl Hret)
    as (new & Hu & Hk).
  exists new. split; [exact Hu|]. split; [by rewrite Hk|].
  intros Hnd file Hin.
  assert (Hiff : (exists input, In input new /\ Key input = key file) <->
                 needs_upload (inventory E w) reUpload (file_digest E file w) (key file)
                 = true).
  { transitivity (In (key file) (map Key new)).
    - rewrite in_map_iff. split; intros (i & ? & ?); exists i; done.
    - rewrite Hk, in_map_iff. split.
      + intros (g & Hg & [Hgin Hn]%List.filter_In).
        by rewrite <- (key_of_NoDup _ g file Hnd Hgin Hin Hg).
      + intros Hn. exists file. split; [done|]. by apply List.filter_In. }
  split.
  - by rewrite Hiff, needs_upload_true.
  - rewrite Hiff, <- needs_upload_false. by destruct (needs_upload _ _ _ _).
Qed.

(** The run on the example site: [a.txt] is in the inventory with another
    digest and [b.txt] is not there, and both are uploaded. *)
Lemma enumerated_file_is_uploaded_iff_absent_changed_or_forced_witness :
  let E := Example.demo_env true in
  let w := Example.ab_start in
  let w' := snd (Sync E "example.com" "site" Example.ab_tree false 4 w) in
  (forall file, In file (GetAllFiles "site" Example.ab_tree) -> local_path E (path file)) /\
  fst (Sync E "example.com" "site" Example.ab_tree false 4 w) = Ret tt /\
  map Key (uploads (trace w')) = [ "a.txt"; "b.txt" ]%string /\
  exists new,
    uploads (trace w') = uploads (trace w) ++ new /\
    map Key new
    ≡ₚ map key (List.filter
                  (fun file => needs_upload (inventory E w) false
                                            (file_digest E file w) (key file))
                  (GetAllFiles "site" Example.ab_tree)) /\
    (NoDup (map key (GetAllFiles "site" Example.ab_tree)) ->
     forall file, In file (GetAllFiles "site" Example.ab_tree) ->
       ((exists input, In input new /\ Key input = key file) <->
        (inventory E w !! key file = None \/
         (exists etag, inventory E w !! key file = Some etag /\
                       etag <> file_digest E file w) \/
         false = true)) /\
       ((~ exists input, In input new /\ Key input = key file) <->
        (is_Some (inventory E w !! key file) /\ false = false /\
         inventory E w !! key file = Some (file_digest E file w)))).
Proof.
  intros E w w'.
  assert (H1 : 0 < 4) by lia.
  assert (H2 : forall file, In file (GetAllFiles "site" Example.ab_tree) ->
                            local_path E (path file)).
  { intros file [<-|[<-|[]]] k; cbn; discriminate. }
  assert (H3 : fst (Sync E "example.com" "site" Example.ab_tree false 4 w) = Ret tt)
    by (vm_compute; reflexivity).
  split; [exact H2|]. split; [exact H3|]. split; [vm_compute; reflexivity|].
  exact (enumerated_file_is_uploaded_iff_absent_changed_or_forced
           E "example.com" "site" Example.ab_tree false 4 w H1 H2 H3).
Defined.

(** X2.  When the listing of the bucket fails and [DisplayAwsErr] lets the
    run go on, the inventory holds only what the pages fetched before the
    failure held.  So in such a run that returns, with one worker or more,
    every enumerated file whose key was not fetched is uploaded, also when
    the bucket holds its digest and the force flag is unset. *)
Theorem failed_listing_uploads_unfetched_files
    (E : env) (bucket root : string) (tree : node) (reUpload : bool)
    (concurrentNum : Z) (w : world) :
  list_objects_fails E = true ->
  0 < concurrentNum ->
  (forall file, In file (GetAllFiles root tree) -> local_path E (path file)) ->
  fst (Sync E bucket root tree reUpload concurrentNum w) = Ret tt ->
  exists new,
    uploads (trace (snd (Sync E bucket root tree reUpload concurrentNum w)))
    = uploads (trace w) ++ new /\
    forall file, In file (GetAllFiles root tree) ->
      fetched_before_failure E (key file) = false ->
      exists input, In input new /\ Key input = key file.
Proof.
  intros Hfail Hpos Hl Hret.
  destruct (Sync_decisions E bucket root tree reUpload concurrentNum w Hpos Hl Hret)
    as (new & Hu & Hk).
  exists new. split; [exact Hu|]. intros file Hin Hnot.
  assert (Hkey : In (key file) (map Key new)).
  { rewrite Hk. apply in_map, List.filter_In. split; [done|].
    apply needs_upload_true. left. unfold inventory. rewrite Hfail.
    apply map_lookup_filter_None. right. intros etag _. cbn [fst]. by rewrite Hnot. }
  apply in_map_iff in Hkey as (input & ? & ?). by exists input.
Qed.

(** The listing fails after the page with [a.txt]: [b.txt], which is in the
    bucket with the digest of the file, is uploaded again, and [a.txt] is
    not. *)
Lemma failed_listing_uploads_unfetched_files_witness :
  let E := More.unlisted_env in
  let w := More.synced_start in
  let w' := snd (Sync E "example.com" "site" Example.ab_tree false 4 w) in
  let b_file := Example.file_at "site/b.txt" "b.txt" 3 in
  list_objects_fails E = true /\
  fst (Sync E "example.com" "site" Example.ab_tree false 4 w) = Ret tt /\
  In b_file (GetAllFiles "site" Example.ab_tree) /\
  fetched_before_failure E (key b_file) = false /\
  remote w !! key b_file = Some (file_digest E b_file w) /\
  map Key (uploads (trace w')) = [ "b.txt" ]%string /\
  exists new,
    uploads (trace w') = uploads (trace w) ++ new /\
    exists input, In input new /\ Key input = key b_file.
Proof.
  intros E w w' b_file.
  assert (H1 : list_objects_fails E = true) by reflexivity.
  assert (H2 : 0 < 4) by lia.
  assert (H3 : forall file, In file (GetAllFiles "site" Example.ab_tree) ->
                            local_path E (path file)).
  { intros file [<-|[<-|[]]] k; cbn; discriminate. }
  assert (H4 : fst (Sync E "example.com" "site" Example.ab_tree false 4 w) = Ret tt)
    by (vm_compute; reflexivity).
  assert (H5 : In b_file (GetAllFiles "site" Example.ab_tree))
    by (right; left; reflexivity).
  assert (H6 : fetched_before_failure E (key b_file) = false) by reflexivity.
  split; [exact H1|]. split; [exact H4|]. split; [exact H5|]. split; [exact H6|].
  split; [vm_compute; reflexivity|]. split; [vm_compute; reflexivity|].
  destruct (failed_listing_uploads_unfetched_files
              E "example.com" "site" Example.ab_tree false 4 w H1 H2 H3 H4)
    as (new & Hu & Hall).
  exists new. split; [exact Hu|]. exact (Hall b_file H5 H6).
Defined.
